(** * Zyntrain AI: task ranking, chat quota and the per-user document store

    A shallow embedding of the task-ranking heuristics of the dashboard
    (AIService.suggestTaskReorder, TaskManager.sortTasks, optimizeWithAI,
    toggleComplete, AIChatManager.sendMessage) and of the JSON document store
    and task/chat routes of server.js, with the properties the specification
    states about them; and of the scripted responder of AIService, the
    dashboard's recommendations, filters and time labels, and the remaining
    document routes, with properties read off the code. *)

From Stdlib Require Import ZArith QArith Lia Lqa Bool Permutation Sorted.
From stdpp Require Import gmap strings pretty.
From Stdlib Require Import List.
Import ListNotations.

(** ** Numbers

    The numbers the ranking code computes with are priority weights, the
    energy factors 0.5, 1, 1.5 and 2, the urgency factors 1, 2 and 3, and
    differences of millisecond time stamps.  All of them, and their products
    and differences, are exactly representable doubles, so they are modelled
    as rationals. *)

Definition number := Q.

Definition isNegative (v : number) : bool := (Qnum v <? 0)%Z.
Definition isZero (v : number) : bool := (Qnum v =? 0)%Z.
Definition isPositive (v : number) : bool := (0 <? Qnum v)%Z.

(** ** Values

    Reading a property of an object literal gives more than the numbers
    written in it: a name the literal does not have is looked up in
    Object.prototype, which every object literal inherits from, and a name
    found nowhere reads as undefined.  [Builtin path] is what the engine holds
    at [Object.prototype.p1. ... .pn] when that is a function, an object, or
    the name of a function: [Builtin ["toString"]] is the function
    Object.prototype.toString, [Builtin ["constructor"]] the function Object,
    [Builtin ["__proto__"]] the object Object.prototype.  All of these are
    truthy and none converts to a number. *)

Inductive jsvalue : Type :=
| Num (n : number)
| NaN
| Null
| Undefined
| Builtin (path : list string).

(** The own property names of Object.prototype (ECMAScript 2024, Annex B
    included). *)
Definition objectPrototype : list string :=
  ["constructor"; "__defineGetter__"; "__defineSetter__"; "hasOwnProperty";
   "__lookupGetter__"; "__lookupSetter__"; "isPrototypeOf"; "propertyIsEnumerable";
   "toString"; "valueOf"; "__proto__"; "toLocaleString"].

Definition inherited (key : string) : bool :=
  existsb (String.eqb key) objectPrototype.

Definition toBoolean (v : jsvalue) : bool :=
  match v with
  | Num n => negb (isZero n)
  | Builtin _ => true
  | NaN | Null | Undefined => false
  end.

(** ToNumber; [None] is NaN. *)
Definition toNumber (v : jsvalue) : option number :=
  match v with
  | Num n => Some n
  | Null => Some 0%Q
  | NaN | Undefined | Builtin _ => None
  end.

(** [x * y] and [x - y]. *)
Definition times (x y : jsvalue) : jsvalue :=
  match toNumber x, toNumber y with
  | Some a, Some b => Num (a * b)%Q
  | _, _ => NaN
  end.

Definition minus (x y : jsvalue) : jsvalue :=
  match toNumber x, toNumber y with
  | Some a, Some b => Num (a - b)%Q
  | _, _ => NaN
  end.

Fixpoint samePath (p q : list string) : bool :=
  match p, q with
  | [], [] => true
  | x :: p', y :: q' => String.eqb x y && samePath p' q'
  | _, _ => false
  end.

(** [x === y].  NaN differs from itself; two built-in values found by one
    step from Object.prototype are the same value exactly when they were
    found under the same name. *)
Definition strictEquals (x y : jsvalue) : bool :=
  match x, y with
  | Num a, Num b => Qeq_bool a b
  | Null, Null => true
  | Undefined, Undefined => true
  | Builtin p, Builtin q => samePath p q
  | _, _ => false
  end.

(** What an expression evaluates to: a value, or an exception. *)
Inductive Completion (T : Type) : Type :=
| Returns (value : T)
| Throws (error : string).

Arguments Returns {T} value.
Arguments Throws {T} error.

(** ** Comparison functions and Array.prototype.sort

    [Array.prototype.sort] is provided by the JavaScript engine.  It only
    looks at the sign of what the comparison function returns.  ECMAScript
    requires the result to be a permutation of the array and, when the
    comparison function is consistent on the elements, to be ordered by it
    with elements that compare equal left in their original order; for a
    comparison function that is not consistent the order is left to the
    engine.  The engine's routine is therefore a parameter of the functions
    that sort; the algorithm of V8 is given below as one such routine. *)

(** SortCompare of ECMAScript: what the comparison function returns is
    converted to a number, and NaN counts as +0. *)
Definition sortCompare {A : Type} (comparefn : A -> A -> jsvalue) (x y : A) : number :=
  match toNumber (comparefn x y) with
  | Some v => v
  | None => 0%Q
  end.

Section ComparisonFunction.
Context {A : Type} (comparefn : A -> A -> number).

(** [before x y] is x <CF y, [tied x y] is x =CF y, [after x y] is x >CF y. *)
Definition before (x y : A) : bool := isNegative (comparefn x y).
Definition tied (x y : A) : bool := isZero (comparefn x y).
Definition after (x y : A) : bool := isPositive (comparefn x y).

(** A consistent comparison function for the values [vs] (ECMAScript,
    Array.prototype.sort). *)
Record Consistent (vs : list A) : Prop := {
  cf_refl : forall a, In a vs -> tied a a = true;
  cf_sym : forall a b, In a vs -> In b vs -> tied a b = true -> tied b a = true;
  cf_tied_trans : forall a b c, In a vs -> In b vs -> In c vs ->
    tied a b = true -> tied b c = true -> tied a c = true;
  cf_before_trans : forall a b c, In a vs -> In b vs -> In c vs ->
    before a b = true -> before b c = true -> before a c = true;
  cf_after_trans : forall a b c, In a vs -> In b vs -> In c vs ->
    after a b = true -> after b c = true -> after a c = true
}.

Definition consistentb (vs : list A) : bool :=
  forallb (fun a =>
    tied a a &&
    forallb (fun b =>
      implb (tied a b) (tied b a) &&
      forallb (fun c =>
        implb (tied a b && tied b c) (tied a c) &&
        implb (before a b && before b c) (before a c) &&
        implb (after a b && after b c) (after a c)) vs) vs) vs.

(** The result is in order: nothing stands behind a value it is [before]. *)
Definition Ordered (l : list A) : Prop :=
  StronglySorted (fun x y => before y x = false) l.

(** [l'] is [l] sorted by [comparefn], ties in their original order. *)
Definition StableSorted (l l' : list A) : Prop :=
  Permutation l l' /\ Ordered l' /\
  forall a, In a l -> filter (tied a) l' = filter (tied a) l.

(** *** Insertion sort *)

Fixpoint insert (x : A) (l : list A) : list A :=
  match l with
  | [] => [x]
  | y :: l' => if before y x then y :: insert x l' else x :: l
  end.

Fixpoint insertion_sort (l : list A) : list A :=
  match l with
  | [] => []
  | x :: l' => insert x (insertion_sort l')
  end.

(** *** Bottom-up merge sort

    The array is cut into runs of one element; neighbouring runs are merged
    pairwise, pass after pass, until one run is left.  In a merge the
    element of the right run is taken only when it is [before] the element
    of the left run. *)

Fixpoint merge (l1 : list A) : list A -> list A :=
  fix merge_right (l2 : list A) : list A :=
    match l1, l2 with
    | [], _ => l2
    | _, [] => l1
    | a :: l1', b :: l2' =>
        if before b a then b :: merge_right l2' else a :: merge l1' l2
    end.

Fixpoint merge_pairs (runs : list (list A)) : list (list A) :=
  match runs with
  | r1 :: r2 :: rest => merge r1 r2 :: merge_pairs rest
  | _ => runs
  end.

Fixpoint merge_passes (fuel : nat) (runs : list (list A)) : list A :=
  match runs with
  | [] => []
  | [r] => r
  | _ =>
      match fuel with
      | O => concat runs
      | S fuel' => merge_passes fuel' (merge_pairs runs)
      end
  end.

Definition merge_sort (l : list A) : list A :=
  merge_passes (length l) (map (fun x => [x]) l).

(** *** The sort of V8 (Node, Chrome) on arrays of fewer than 64 elements

    V8 sorts with TimSort (third_party/v8/builtins/array-sort.tq).  For an
    array of fewer than 64 elements the minimal run length is the length of
    the array, so ArrayTimSortImpl finds the run the array starts with
    (CountAndMakeRun), extends it to the whole array by binary insertion
    (BinaryInsertionSort), and has nothing to merge.

    CountAndMakeRun compares a[1] with a[0]; the run is descending when the
    order is negative.  It then goes on as long as each element compared
    with the one before it keeps that direction (order < 0 when descending,
    order >= 0 otherwise), and reverses a descending run in place. *)

Fixpoint runFrom (isDescending : bool) (previousElement : A) (l : list A)
    : list A * list A :=
  match l with
  | [] => ([], [])
  | currentElement :: l' =>
      if Bool.eqb (before currentElement previousElement) isDescending then
        let '(run, rest) := runFrom isDescending currentElement l' in
        (currentElement :: run, rest)
      else ([], l)
  end.

Definition countAndMakeRun (l : list A) : list A * list A :=
  match l with
  | elementHigh :: elementLow :: l' =>
      let isDescending := before elementLow elementHigh in
      let '(run, rest) := runFrom isDescending elementLow l' in
      let whole := elementHigh :: elementLow :: run in
      (if isDescending then rev whole else whole, rest)
  | _ => (l, [])
  end.

(** BinaryInsertionSort places [pivot] in the sorted part a[low..start) by
    bisection: with the window a[left..right), mid = left + ((right - left) >> 1),
    an order of pivot against a[mid] below zero continues in a[left..mid),
    any other order in a[mid+1..right); the pivot goes where the window has
    become empty.  [window] is a[left..right) as a list; what lies left and
    right of it stays where it is. *)
Fixpoint binaryInsert (fuel : nat) (pivot : A) (window : list A) : list A :=
  match fuel, window with
  | S fuel', _ :: _ =>
      let mid := Nat.div2 (length window) in
      match skipn mid window with
      | middle :: upper =>
          if before pivot middle
          then binaryInsert fuel' pivot (firstn mid window) ++ middle :: upper
          else firstn mid window ++ middle :: binaryInsert fuel' pivot upper
      | [] => window ++ [pivot]
      end
  | _, _ => pivot :: window
  end.

Definition binaryInsertionSort (sorted rest : list A) : list A :=
  fold_left (fun sorted pivot => binaryInsert (length sorted) pivot sorted) rest sorted.

Definition v8_sort (l : list A) : list A :=
  let '(run, rest) := countAndMakeRun l in
  binaryInsertionSort run rest.

(** No element is [before] the one it follows: what CountAndMakeRun takes
    for one ascending run. *)
Fixpoint noDescent (l : list A) : bool :=
  match l with
  | x :: (y :: _) as rest => negb (before y x) && noDescent rest
  | _ => true
  end.

(** Every element is [before] the one it follows. *)
Fixpoint allDescents (l : list A) : bool :=
  match l with
  | x :: (y :: _) as rest => before y x && allDescents rest
  | _ => true
  end.

End ComparisonFunction.

(** A sort routine as an engine provides it, and what ECMAScript asks of it. *)
Definition SortRoutine : Type :=
  forall A : Type, (A -> A -> number) -> list A -> list A.

Definition EcmaSort (sort : SortRoutine) : Prop :=
  forall (A : Type) (comparefn : A -> A -> number) (l : list A),
    Permutation l (sort A comparefn l) /\
    (Consistent comparefn l -> StableSorted comparefn l (sort A comparefn l)).

Definition insertionSort : SortRoutine := fun A cmp l => insertion_sort cmp l.
Definition mergeSort : SortRoutine := fun A cmp l => merge_sort cmp l.

(** V8, for arrays of fewer than 64 elements (longer arrays are cut into
    several runs that are merged, which [v8_sort] does not do). *)
Definition v8Sort : SortRoutine := fun A cmp l => v8_sort cmp l.

(** ** Tasks as the ranking code reads them

    A task is a JSON object; the ranking code reads [completed], [priority],
    [energyRequired] and [deadline].  The server writes [completed: false] on
    creation and toggleComplete flips it, but PUT /api/tasks/:id stores
    whatever the request body gives, so [completedValue] is any JSON value,
    or undefined when the property is absent; an object or array carries the
    identity it got when the response was parsed.  [completed] is that value
    as a condition (a number is never NaN, which JSON cannot express).  An
    optional field is [None] when the property is absent, null or the empty
    string; a deadline is the instant (milliseconds since the epoch) that
    [new Date(task.deadline)] denotes. *)

Inductive Flag : Type :=
| FUndefined
| FNull
| FBool (b : bool)
| FNumber (n : number)
| FString (s : string)
| FObject (identity : nat).

Record Task : Type := mkTask {
  task_id : string;
  title : string;
  priority : option string;
  energyRequired : option string;
  deadline : option Z;
  completedValue : Flag;
  completedAt : option Z
}.

(** [task.completed] where a condition is expected. *)
Definition completed (task : Task) : bool :=
  match completedValue task with
  | FBool b => b
  | FNumber n => negb (isZero n)
  | FString s => negb (String.eqb s EmptyString)
  | FObject _ => true
  | FUndefined | FNull => false
  end.

(** [x === y] on two such values. *)
Definition sameFlag (x y : Flag) : bool :=
  match x, y with
  | FUndefined, FUndefined => true
  | FNull, FNull => true
  | FBool a, FBool b => Bool.eqb a b
  | FNumber a, FNumber b => Qeq_bool a b
  | FString a, FString b => String.eqb a b
  | FObject i, FObject j => Nat.eqb i j
  | _, _ => false
  end.

(** [table[key]] on an object literal of numbers used as a lookup table: an
    own property, else a member of Object.prototype, else undefined.  A key
    that is undefined or null is looked up as the name undefined or
    null, which is neither in the tables nor in Object.prototype. *)
Definition lookupKey (table : gmap string number) (key : option string) : jsvalue :=
  match key with
  | Some k =>
      match table !! k with
      | Some v => Num v
      | None => if inherited k then Builtin [k] else Undefined
      end
  | None => Undefined
  end.

(** [v || d]. *)
Definition orElse (v : jsvalue) (d : number) : jsvalue :=
  if toBoolean v then v else Num d.

Definition ltNumber (x y : number) : bool := negb (Qle_bool y x).

(** *** TaskManager.sortTasks *)

Definition priorityOrder : gmap string number :=
  {[ "urgent" := 4%Q; "high" := 3%Q; "medium" := 2%Q; "low" := 1%Q ]}.

Definition compareTasks (a b : Task) : jsvalue :=
  if negb (sameFlag (completedValue a) (completedValue b)) then
    Num (if completed a then 1 else -1)%Q
  else
    let aPriority := orElse (lookupKey priorityOrder (priority a)) 2%Q in
    let bPriority := orElse (lookupKey priorityOrder (priority b)) 2%Q in
    if negb (strictEquals aPriority bPriority) then minus bPriority aPriority
    else
      match deadline a, deadline b with
      | Some da, Some db => Num (inject_Z (da - db))
      | _, _ => Num 0%Q
      end.

Definition sortTasks (sort : SortRoutine) (tasks : list Task) : list Task :=
  sort Task (sortCompare compareTasks) tasks.

(** *** AIService *)

Definition priorityWeights : gmap string number :=
  {[ "urgent" := 4%Q; "high" := 3%Q; "medium" := 2%Q; "low" := 1%Q ]}.

Definition energyMap : gmap string (gmap string number) :=
  {[ "high" := {[ "high" := 2%Q; "medium" := 1%Q; "low" := (1 # 2)%Q ]};
     "medium" := {[ "high" := (3 # 2)%Q; "medium" := 2%Q; "low" := 1%Q ]};
     "low" := {[ "high" := (1 # 2)%Q; "medium" := 1%Q; "low" := 2%Q ]} ]}.

(** [energyMap[userEnergy]] is a row of the table only for high, medium and
    low.  For a name of [objectPrototype] it is a built-in of the engine:
    Object.prototype itself for __proto__, the function Object for
    constructor, and a method of Object.prototype for the other names.  What
    these hold (ECMAScript 2024):
    - Object.prototype: its members, and null at __proto__;
    - every function: its own length and name, the members of
      Function.prototype and, behind them, of Object.prototype; reading
      caller or arguments of a built-in function raises a TypeError;
    - Object: also prototype and its static methods. *)
Definition functionPrototype : list string :=
  ["apply"; "bind"; "call"; "constructor"; "toString"].

Definition objectConstructor : list string :=
  ["prototype"; "assign"; "create"; "defineProperties"; "defineProperty"; "entries";
   "freeze"; "fromEntries"; "getOwnPropertyDescriptor"; "getOwnPropertyDescriptors";
   "getOwnPropertyNames"; "getOwnPropertySymbols"; "getPrototypeOf"; "groupBy";
   "hasOwn"; "is"; "isExtensible"; "isFrozen"; "isSealed"; "keys";
   "preventExtensions"; "seal"; "setPrototypeOf"; "values"].

(** The length of the function [Object.prototype[member]]. *)
Definition arity (member : string) : number :=
  if String.eqb member "__defineGetter__" || String.eqb member "__defineSetter__" then 2%Q
  else if String.eqb member "toString" || String.eqb member "valueOf"
          || String.eqb member "toLocaleString" then 0%Q
  else 1%Q.

(** [Object.prototype[member][key]] for a [member] of [objectPrototype]. *)
Definition builtinProperty (member : string) (key : option string) : Completion jsvalue :=
  match key with
  | None => Returns Undefined
  | Some k =>
      if String.eqb member "__proto__" then
        if String.eqb k "__proto__" then Returns Null
        else if inherited k then Returns (Builtin [member; k])
        else Returns Undefined
      else if String.eqb k "length" then Returns (Num (arity member))
      else if String.eqb k "caller" || String.eqb k "arguments" then Throws "TypeError"
      else if String.eqb k "name" || existsb (String.eqb k) functionPrototype
              || inherited k
              || (String.eqb member "constructor" && existsb (String.eqb k) objectConstructor)
      then Returns (Builtin [member; k])
      else Returns Undefined
  end.

Definition getEnergyMatchScore (task : Task) (userEnergy : string) : Completion jsvalue :=
  match energyMap !! userEnergy with
  | Some row => Returns (orElse (lookupKey row (energyRequired task)) 1%Q)
  | None =>
      if inherited userEnergy then
        match builtinProperty userEnergy (energyRequired task) with
        | Returns v => Returns (orElse v 1%Q)
        | Throws error => Throws error
        end
      else Returns (Num 1%Q)
  end.

Definition getDeadlineUrgencyScore (task : Task) (currentTime : Z) : number :=
  match deadline task with
  | None => 1%Q
  | Some d =>
      let hoursDiff := (inject_Z (d - currentTime) / inject_Z (1000 * 60 * 60))%Q in
      if ltNumber hoursDiff 2%Q then 3%Q
      else if ltNumber hoursDiff 24%Q then 2%Q
      else 1%Q
  end.

Definition calculateScore (currentTime : Z) (userEnergy : string) (task : Task)
    : Completion jsvalue :=
  let priorityScore := orElse (lookupKey priorityWeights (priority task)) 2%Q in
  match getEnergyMatchScore task userEnergy with
  | Returns energyScore =>
      let deadlineScore := getDeadlineUrgencyScore task currentTime in
      Returns (times (times priorityScore energyScore) (Num deadlineScore))
  | Throws error => Throws error
  end.

(** [calculateScore(b) - calculateScore(a)]. *)
Definition scoreDifference (currentTime : Z) (userEnergy : string) (a b : Task) : jsvalue :=
  match calculateScore currentTime userEnergy b, calculateScore currentTime userEnergy a with
  | Returns scoreB, Returns scoreA => minus scoreB scoreA
  | _, _ => NaN
  end.

(** The array the promise of [suggestTaskReorder] resolves to.  When
    [calculateScore] raises, the comparison raises, the sort is abandoned and
    the promise is rejected instead: see [suggestTaskReorderRejects]. *)
Definition suggestTaskReorder (sort : SortRoutine)
    (tasks : list Task) (currentTime : Z) (userEnergy : string) : list Task :=
  sort Task (sortCompare (scoreDifference currentTime userEnergy)) tasks.

(** The promise is rejected when a task that is compared has a score that
    raises; every task of an array of two or more is compared. *)
Definition suggestTaskReorderRejects
    (tasks : list Task) (currentTime : Z) (userEnergy : string) : bool :=
  (2 <=? length tasks)%nat &&
  existsb (fun task =>
             match calculateScore currentTime userEnergy task with
             | Throws _ => true
             | Returns _ => false
             end) tasks.

(** A key that names no member of Object.prototype. *)
Definition plainKey (key : option string) : bool :=
  match key with
  | Some k => negb (inherited k)
  | None => true
  end.

Definition plainTask (task : Task) : bool :=
  plainKey (priority task) && plainKey (energyRequired task).

(** *** Dashboard.calculateEnergyLevel and Dashboard.optimizeWithAI *)

Definition calculateEnergyLevel (hour : Z) : string * Z :=
  if (9 <=? hour)%Z && (hour <=? 11)%Z then ("High", 85%Z)
  else if (14 <=? hour)%Z && (hour <=? 16)%Z then ("Medium", 65%Z)
  else if (20 <=? hour)%Z || (hour <=? 6)%Z then ("Low", 30%Z)
  else ("Medium", 50%Z).

Definition lowerChar (c : Ascii.ascii) : Ascii.ascii :=
  let n := Ascii.nat_of_ascii c in
  if (65 <=? n)%nat && (n <=? 90)%nat then Ascii.ascii_of_nat (n + 32) else c.

Fixpoint toLowerCase (s : string) : string :=
  match s with
  | EmptyString => EmptyString
  | String c s' => String (lowerChar c) (toLowerCase s')
  end.

(** [optimizeWithAI] replaces the dashboard's task list; [hour] is
    [new Date().getHours()] and [currentTime] the instant of the call. *)
Definition optimizeWithAI (sort : SortRoutine)
    (tasks : list Task) (currentTime : Z) (hour : Z) : list Task :=
  if (length tasks =? 0)%nat then tasks
  else
    let activeTasks := filter (fun task => negb (completed task)) tasks in
    let userEnergy := toLowerCase (fst (calculateEnergyLevel hour)) in
    let optimizedTasks := suggestTaskReorder sort activeTasks currentTime userEnergy in
    optimizedTasks ++ filter (fun task => completed task) tasks.

(** *** AIChatManager (dashboard chat panel)

    A chat entry carries the instant of its time stamp; [toDateString] is the
    local calendar date of an instant as [Date.prototype.toDateString] prints
    it, and [generateResponse] stands for AIService.generateResponse applied
    to the message and the context the manager builds.  [responderCalls]
    records the messages handed to the responder. *)

Record Chat : Type := mkChat {
  message : string;
  response : string;
  timestamp : Z
}.

Record AIChatManager : Type := mkManager {
  chats : list Chat;
  responderCalls : list string
}.

Inductive Outcome : Type :=
| Ignored        (* empty input: nothing happens *)
| LimitReached   (* 'Daily AI chat limit reached (10 messages)' *)
| Sent           (* answered, saved by the server, appended to the panel *)
| NotSaved.      (* answered, but the server refused or failed *)

Inductive Action : Type :=
| SendMessage (text : string) (now : Z) (serverAccepts : bool)
| ClearChat (confirmed serverAccepts : bool).

(** [sendMessage] is an async method: it runs up to its first [await] when
    the message is submitted, is resumed when the responder answers, and is
    resumed again when the server answers.  Between these three steps the
    panel handles other events, so several calls can be under way at once. *)
Inductive Call : Type :=
| AwaitsResponder (message : string)
| AwaitsServer (chatData : Chat)
| Finished.

Record Panel : Type := mkPanel {
  manager : AIChatManager;
  calls : list Call
}.

(** [call] numbers the calls of [sendMessage] that got past the limit check,
    in the order of their submission. *)
Inductive Event : Type :=
| Submit (text : string) (now : Z)
| ResponderAnswers (call : nat) (now : Z)
| ServerAnswers (call : nat) (success : bool)
| Clear (confirmed serverAccepts : bool).

Section ChatPanel.
Variable toDateString : Z -> string.
Variable generateResponse : string -> string.

(** The chats of the panel that are dated on the day of [now]. *)
Definition todayChats (now : Z) (mgr : AIChatManager) : list Chat :=
  let today := toDateString now in
  filter (fun chat => String.eqb (toDateString (timestamp chat)) today) (chats mgr).

Definition isDailyLimitReached (now : Z) (mgr : AIChatManager) : bool :=
  (10 <=? length (todayChats now mgr))%nat.

(** One call of [sendMessage] from the submission to its end, when the panel
    handles nothing else in between.  [text] is the trimmed content of the
    input box, [now] the time of the call; [serverAccepts] tells whether
    POST /api/ai/chats answers with success.  Calls that overlap are followed
    step by step by [run] below. *)
Definition sendMessage (mgr : AIChatManager) (text : string) (now : Z)
    (serverAccepts : bool) : Outcome * AIChatManager :=
  if String.eqb text EmptyString then (Ignored, mgr)
  else if isDailyLimitReached now mgr then (LimitReached, mgr)
  else
    let aiResponse := generateResponse text in
    let calls := responderCalls mgr ++ [text] in
    if serverAccepts then
      (Sent, mkManager (chats mgr ++ [mkChat text aiResponse now]) calls)
    else (NotSaved, mkManager (chats mgr) calls).

Definition clearChat (mgr : AIChatManager) (confirmed serverAccepts : bool)
    : AIChatManager :=
  if confirmed && serverAccepts then mkManager [] (responderCalls mgr) else mgr.

Definition step (mgr : AIChatManager) (a : Action) : list Outcome * AIChatManager :=
  match a with
  | SendMessage text now ok =>
      let '(o, mgr') := sendMessage mgr text now ok in ([o], mgr')
  | ClearChat confirmed ok => ([], clearChat mgr confirmed ok)
  end.

Fixpoint session (mgr : AIChatManager) (actions : list Action)
    : list Outcome * AIChatManager :=
  match actions with
  | [] => ([], mgr)
  | a :: rest =>
      let '(o1, mgr1) := step mgr a in
      let '(o2, mgr2) := session mgr1 rest in
      (o1 ++ o2, mgr2)
  end.

(** The statements of [sendMessage] before its first [await]. *)
Definition submit (panel : Panel) (text : string) (now : Z) : list Outcome * Panel :=
  let mgr := manager panel in
  if String.eqb text EmptyString then ([Ignored], panel)
  else if isDailyLimitReached now mgr then ([LimitReached], panel)
  else
    ([], mkPanel (mkManager (chats mgr) (responderCalls mgr ++ [text]))
                 (calls panel ++ [AwaitsResponder text])).

(** From the responder's answer to the second [await]: [chatData] gets its
    timestamp and is posted to the server. *)
Definition responderAnswers (panel : Panel) (call : nat) (now : Z) : list Outcome * Panel :=
  match calls panel !! call with
  | Some (AwaitsResponder message) =>
      ([], mkPanel (manager panel)
             (<[ call := AwaitsServer (mkChat message (generateResponse message) now) ]>
                (calls panel)))
  | _ => ([], panel)
  end.

(** From the server's answer to the end of [sendMessage]. *)
Definition serverAnswers (panel : Panel) (call : nat) (success : bool) : list Outcome * Panel :=
  match calls panel !! call with
  | Some (AwaitsServer chatData) =>
      let mgr := manager panel in
      let rest := <[ call := Finished ]> (calls panel) in
      if success then
        ([Sent], mkPanel (mkManager (chats mgr ++ [chatData]) (responderCalls mgr)) rest)
      else ([NotSaved], mkPanel mgr rest)
  | _ => ([], panel)
  end.

Definition handle (panel : Panel) (e : Event) : list Outcome * Panel :=
  match e with
  | Submit text now => submit panel text now
  | ResponderAnswers call now => responderAnswers panel call now
  | ServerAnswers call success => serverAnswers panel call success
  | Clear confirmed ok =>
      ([], mkPanel (clearChat (manager panel) confirmed ok) (calls panel))
  end.

Fixpoint run (panel : Panel) (events : list Event) : list Outcome * Panel :=
  match events with
  | [] => ([], panel)
  | e :: rest =>
      let '(o1, panel1) := handle panel e in
      let '(o2, panel2) := run panel1 rest in
      (o1 ++ o2, panel2)
  end.

End ChatPanel.

Definition isSent (o : Outcome) : bool :=
  match o with Sent => true | _ => false end.

(** The ceiling the server puts on POST /api/ai/chats per user and 24 hour
    window: [parseInt(process.env.AI_CHAT_DAILY_LIMIT) || 50]. *)
Definition aiChatLimiterMax (configured : option Z) : Z :=
  match configured with
  | Some n => if (n =? 0)%Z then 50%Z else n
  | None => 50%Z
  end.

(** ** JSON documents *)

#[local] Unset Elimination Schemes.

Inductive json : Type :=
| JNull
| JBool (b : bool)
| JNum (n : number)
| JStr (s : string)
| JArr (items : list json)
| JObj (fields : list (string * json)).

#[local] Set Elimination Schemes.

(** An object is the list of its properties in insertion order. *)
Definition jobject : Type := list (string * json).

Fixpoint getField (key : string) (o : jobject) : option json :=
  match o with
  | [] => None
  | (k, v) :: o' => if String.eqb key k then Some v else getField key o'
  end.

Fixpoint setField (key : string) (v : json) (o : jobject) : jobject :=
  match o with
  | [] => [(key, v)]
  | (k, v') :: o' =>
      if String.eqb key k then (k, v) :: o' else (k, v') :: setField key v o'
  end.

(** [{ ...target, ...source }] and [Object.assign(target, source)]. *)
Definition spread (target source : jobject) : jobject :=
  fold_left (fun acc kv => setField (fst kv) (snd kv) acc) source target.

(** Truthiness of a property value; [None] is undefined. *)
Definition truthy (v : option json) : bool :=
  match v with
  | None => false
  | Some JNull => false
  | Some (JBool b) => b
  | Some (JNum n) => negb (isZero n)
  | Some (JStr s) => negb (String.eqb s EmptyString)
  | Some (JArr _) => true
  | Some (JObj _) => true
  end.

(** A property that is neither undefined nor null. *)
Definition nonNull (v : option json) : bool :=
  match v with
  | None => false
  | Some JNull => false
  | Some _ => true
  end.

(** A property that is skipped by JSON.stringify when undefined. *)
Definition optionalField (key : string) (v : option json) : jobject :=
  match v with
  | Some x => [(key, x)]
  | None => []
  end.

(** ** The per-user document store (server.js)

    A file of a user either holds text, which parses as JSON or does not, or
    cannot be read; a file that is not in [files] does not exist.  [mkdirFault]
    gives the error code with which creating a user's directory fails on this
    medium, [writeFault] how writing a file fails. *)

Inductive FileText : Type :=
| Json (doc : json)
| Malformed.

Inductive Entry : Type :=
| Text (text : FileText)
| Unreadable (code : string).

(** fs.writeFile opens the file for writing, which empties it, and then
    writes the text.  It fails either on opening, and the file is as it was,
    or while writing, and the file holds the text that reached it. *)
Inductive WriteFault : Type :=
| FailsOnOpen (code : string)
| FailsWhileWriting (code : string) (reached : FileText).

Record Disk : Type := mkDisk {
  files : gmap (string * string) Entry;
  directories : gset string;
  mkdirFault : gmap string string;
  writeFault : gmap (string * string) WriteFault
}.

Inductive Exn : Type :=
| SystemError (code : string)   (* an fs error with its [code] *)
| SyntaxError                   (* JSON.parse *)
| TypeError.                    (* a method or property of a value that has none *)

Definition errorCode (e : Exn) : option string :=
  match e with
  | SystemError code => Some code
  | SyntaxError | TypeError => None
  end.

(** [error.code === 'ENOENT'] *)
Definition isENOENT (e : Exn) : bool :=
  match errorCode e with
  | Some code => String.eqb code "ENOENT"
  | None => false
  end.

(** Computations that use the disk and may throw. *)
Definition IO (T : Type) : Type := Disk -> (Exn + T) * Disk.

Definition ret {T : Type} (x : T) : IO T := fun disk => (inr x, disk).

Definition throw {T : Type} (e : Exn) : IO T := fun disk => (inl e, disk).

Definition bind {T U : Type} (c : IO T) (k : T -> IO U) : IO U :=
  fun disk =>
    match c disk with
    | (inr x, disk') => k x disk'
    | (inl e, disk') => (inl e, disk')
    end.

Definition tryCatch {T : Type} (c : IO T) (handler : Exn -> IO T) : IO T :=
  fun disk =>
    match c disk with
    | (inr x, disk') => (inr x, disk')
    | (inl e, disk') => handler e disk'
    end.

Definition liftExn {T : Type} (r : Exn + T) : IO T :=
  match r with
  | inr x => ret x
  | inl e => throw e
  end.

Notation "'await' x := c 'in' k" := (bind c (fun x => k))
  (at level 10, x name, c at level 200, k at level 200, only parsing).

Definition mkdir (userId : string) : IO unit :=
  fun disk =>
    match mkdirFault disk !! userId with
    | Some code => (inl (SystemError code), disk)
    | None =>
        (inr tt,
         mkDisk (files disk) ({[ userId ]} ∪ directories disk)
                (mkdirFault disk) (writeFault disk))
    end.

Definition readFile (userId filename : string) : IO FileText :=
  fun disk =>
    match files disk !! (userId, filename) with
    | None => (inl (SystemError "ENOENT"), disk)
    | Some (Unreadable code) => (inl (SystemError code), disk)
    | Some (Text text) => (inr text, disk)
    end.

Definition writeFile (userId filename : string) (data : json) : IO unit :=
  fun disk =>
    match writeFault disk !! (userId, filename) with
    | Some (FailsOnOpen code) => (inl (SystemError code), disk)
    | Some (FailsWhileWriting code reached) =>
        (inl (SystemError code),
         mkDisk (<[ (userId, filename) := Text reached ]> (files disk))
                (directories disk) (mkdirFault disk) (writeFault disk))
    | None =>
        (inr tt,
         mkDisk (<[ (userId, filename) := Text (Json data) ]> (files disk))
                (directories disk) (mkdirFault disk) (writeFault disk))
    end.

Definition JSON_parse (text : FileText) : IO json :=
  match text with
  | Json doc => ret doc
  | Malformed => throw SyntaxError
  end.

Definition ensureUserDirectory (userId : string) : IO unit :=
  tryCatch (mkdir userId) (fun error => throw error).

(** [now] is [new Date().toISOString()] at the time of the call. *)
Definition defaults (now : string) : gmap string json :=
  {[ "profile.json" := JObj [];
     "tasks.json" := JArr [];
     "aichat.json" := JArr [];
     "schedule.json" :=
       JObj [("events", JArr []); ("optimizedSchedule", JArr []);
             ("lastOptimized", JNull)];
     "preferences.json" :=
       JObj [("workingHours", JObj [("start", JStr "09:00"); ("end", JStr "17:00")]);
             ("energyPeaks", JArr [JStr "morning"]);
             ("preferredBreakDuration", JNum 15%Q);
             ("focusBlockLength", JNum 60%Q);
             ("workDays",
              JArr [JStr "monday"; JStr "tuesday"; JStr "wednesday";
                    JStr "thursday"; JStr "friday"]);
             ("notifications",
              JObj [("taskReminders", JBool true); ("aiSuggestions", JBool true);
                    ("breakReminders", JBool true); ("weeklyReports", JBool true)])];
     "analytics.json" :=
       JObj [("totalTasks", JNum 0%Q);
             ("completedToday", JNum 0%Q);
             ("focusTime", JNum 0%Q);
             ("trends",
              JObj [("completed", JNum 0%Q); ("focus", JNum 0%Q);
                    ("totalTasks", JNum 0%Q); ("aiUsage", JNum 0%Q)]);
             ("timeDistribution",
              JObj [("work", JObj [("hours", JNum 0%Q); ("percentage", JNum 0%Q)]);
                    ("meetings", JObj [("hours", JNum 0%Q); ("percentage", JNum 0%Q)]);
                    ("admin", JObj [("hours", JNum 0%Q); ("percentage", JNum 0%Q)])]);
             ("weeklyData", JArr []);
             ("lastCalculated", JStr now)] ]}.

Definition getDefaultData (now : string) (filename : string) : json :=
  match defaults now !! filename with
  | Some doc => if truthy (Some doc) then doc else JObj []
  | None => JObj []
  end.

Definition readUserFile (now : string) (userId filename : string) : IO json :=
  tryCatch
    (await dir := ensureUserDirectory userId in
     await data := readFile userId filename in
     JSON_parse data)
    (fun error =>
       if isENOENT error then ret (getDefaultData now filename)
       else throw error).

Definition writeUserFile (userId filename : string) (data : json) : IO bool :=
  tryCatch
    (await dir := ensureUserDirectory userId in
     await written := writeFile userId filename data in
     ret true)
    (fun error => throw error).

(** ** Task and chat routes (server.js)

    [statistics] stands for the figures calculateAnalytics derives from the
    task list and the preferences (counts, rounded hours, random trends); the
    routes only store and return them. *)

Record Response : Type := mkResponse {
  status : Z;
  body : json
}.

Definition respond (code : Z) (fields : jobject) : Response :=
  mkResponse code (JObj fields).

(** A route: the handler's try block, and the 500 answer of its catch. *)
Definition route (handler : IO Response) (failure : string)
    : Disk -> Response * Disk :=
  fun disk =>
    match handler disk with
    | (inr res, disk') => (res, disk')
    | (inl _, disk') => (respond 500 [("error", JStr failure)], disk')
    end.

(** The array methods [push], [findIndex] and [filter] exist on arrays only. *)
Definition asArray (doc : json) : Exn + list json :=
  match doc with
  | JArr items => inr items
  | _ => inl TypeError
  end.

(** [task.id === taskId]; reading a property of null throws. *)
Definition idMatches (taskId : string) (task : json) : Exn + bool :=
  match task with
  | JNull => inl TypeError
  | JObj fields =>
      inr (match getField "id" fields with
           | Some (JStr s) => String.eqb s taskId
           | _ => false
           end)
  | _ => inr false
  end.

(** [tasks.findIndex(task => task.id === taskId)]; [None] is -1. *)
Fixpoint findIndex (taskId : string) (tasks : list json) : Exn + option nat :=
  match tasks with
  | [] => inr None
  | task :: rest =>
      match idMatches taskId task with
      | inl e => inl e
      | inr true => inr (Some O)
      | inr false =>
          match findIndex taskId rest with
          | inl e => inl e
          | inr None => inr None
          | inr (Some i) => inr (Some (S i))
          end
      end
  end.

(** [tasks.filter(task => task.id !== taskId)]. *)
Fixpoint filterOtherIds (taskId : string) (tasks : list json) : Exn + list json :=
  match tasks with
  | [] => inr []
  | task :: rest =>
      match idMatches taskId task with
      | inl e => inl e
      | inr same =>
          match filterOtherIds taskId rest with
          | inl e => inl e
          | inr kept => inr (if same then kept else task :: kept)
          end
      end
  end.

(** [{ ...task, ...updates }] for an element of the task list; the element
    that [findIndex] finds is an object. *)
Definition mergeTask (task : json) (updates : jobject) : json :=
  match task with
  | JObj fields => JObj (spread fields updates)
  | _ => JObj updates
  end.

(** [chats.splice(0, chats.length - 100)] when there are more than 100. *)
Definition keepLast100 (chats : list json) : list json :=
  if (100 <? length chats)%nat then skipn (length chats - 100) chats else chats.

(** The entry POST /api/ai/chats builds from [const { message, response } =
    req.body]; a property that is undefined is not written. *)
Definition newChatEntry (reqBody : jobject) (uuid now : string) : jobject :=
  [("id", JStr uuid)]
    ++ optionalField "message" (getField "message" reqBody)
    ++ optionalField "response" (getField "response" reqBody)
    ++ [("timestamp", JStr now)].

(** The task POST /api/tasks builds:
    [{ id: generateUserId(), ...taskData, completed: false, createdAt: now }]. *)
Definition newTaskEntry (taskData : jobject) (uuid now : string) : jobject :=
  setField "createdAt" (JStr now)
    (setField "completed" (JBool false)
       (spread [("id", JStr uuid)] taskData)).

Section Routes.
Variable statistics : json -> json -> string -> Exn + json.

Definition calculateAnalytics (now userId : string) : IO json :=
  tryCatch
    (await tasks := readUserFile now userId "tasks.json" in
     await preferences := readUserFile now userId "preferences.json" in
     await analytics := liftExn (statistics tasks preferences now) in
     await written := writeUserFile userId "analytics.json" analytics in
     ret analytics)
    (fun error => ret (getDefaultData now "analytics.json")).

(** POST /api/tasks; [uuid] is [crypto.randomUUID()]. *)
Definition postTask (userId : string) (taskData : jobject) (uuid now : string)
    : Disk -> Response * Disk :=
  route
    (await doc := readUserFile now userId "tasks.json" in
     let newTask := newTaskEntry taskData uuid now in
     await tasks := liftExn (asArray doc) in
     await written := writeUserFile userId "tasks.json" (JArr (tasks ++ [JObj newTask])) in
     await analytics := calculateAnalytics now userId in
     ret (respond 200 [("success", JBool true); ("task", JObj newTask)]))
    "Failed to add task".

(** PUT /api/tasks/:id *)
Definition putTask (userId taskId : string) (updates : jobject) (now : string)
    : Disk -> Response * Disk :=
  route
    (await doc := readUserFile now userId "tasks.json" in
     await tasks := liftExn (asArray doc) in
     await taskIndex := liftExn (findIndex taskId tasks) in
     match taskIndex with
     | None => ret (respond 404 [("error", JStr "Task not found")])
     | Some i =>
         let updated := mergeTask (nth i tasks JNull) updates in
         await written := writeUserFile userId "tasks.json" (JArr (<[ i := updated ]> tasks)) in
         await analytics := calculateAnalytics now userId in
         ret (respond 200 [("success", JBool true); ("task", updated)])
     end)
    "Failed to update task".

(** DELETE /api/tasks/:id *)
Definition deleteTask (userId taskId : string) (now : string)
    : Disk -> Response * Disk :=
  route
    (await doc := readUserFile now userId "tasks.json" in
     await tasks := liftExn (asArray doc) in
     await filteredTasks := liftExn (filterOtherIds taskId tasks) in
     if (length filteredTasks =? length tasks)%nat then
       ret (respond 404 [("error", JStr "Task not found")])
     else
       await written := writeUserFile userId "tasks.json" (JArr filteredTasks) in
       await analytics := calculateAnalytics now userId in
       ret (respond 200 [("success", JBool true)]))
    "Failed to delete task".

(** The handler of POST /api/ai/chats, which runs once authenticateToken and
    aiChatLimiter have let the request through. *)
Definition postChat (userId : string) (reqBody : jobject) (uuid now : string)
    : Disk -> Response * Disk :=
  route
    (await doc := readUserFile now userId "aichat.json" in
     let newChat := newChatEntry reqBody uuid now in
     await chats := liftExn (asArray doc) in
     await written :=
       writeUserFile userId "aichat.json" (JArr (keepLast100 (chats ++ [JObj newChat]))) in
     ret (respond 200 [("success", JBool true); ("chat", JObj newChat)]))
    "Failed to save chat".

(** A chat request as it reaches the handler: body, fresh id, time. *)
Record ChatRequest : Type := mkChatRequest {
  chatBody : jobject;
  chatUuid : string;
  chatNow : string
}.

Fixpoint postChats (userId : string) (requests : list ChatRequest) (disk : Disk)
    : list Response * Disk :=
  match requests with
  | [] => ([], disk)
  | r :: rest =>
      let '(res, disk1) := postChat userId (chatBody r) (chatUuid r) (chatNow r) disk in
      let '(more, disk2) := postChats userId rest disk1 in
      (res :: more, disk2)
  end.

(** *** TaskManager.toggleComplete (dashboard), with the PUT it sends

    [tasks] is the manager's task list.  ApiService.updateTask throws unless
    the answer is a 2xx one; the local task is changed when the answer says
    [success]. *)


Definition hasId (taskId : string) (task : jobject) : bool :=
  match getField "id" task with
  | Some (JStr s) => String.eqb s taskId
  | _ => false
  end.

(** [Object.assign(task, updates)] on the first task with this id. *)
Fixpoint assignFirst (taskId : string) (updates : jobject) (tasks : list jobject)
    : list jobject :=
  match tasks with
  | [] => []
  | t :: rest =>
      if hasId taskId t then spread t updates :: rest
      else t :: assignFirst taskId updates rest
  end.


End Routes.

(** The array a list resource of a user holds in the store: the parsed
    content of the file, the empty list when there is no file yet; [None]
    when the file cannot be read or holds something else. *)
Definition storedArray (disk : Disk) (userId filename : string) : option (list json) :=
  match files disk !! (userId, filename) with
  | None => Some []
  | Some (Text (Json (JArr items))) => Some items
  | Some _ => None
  end.

(** completedAt is set exactly on completed tasks. *)
Definition completionCoherent (task : jobject) : Prop :=
  nonNull (getField "completedAt" task) = truthy (getField "completed" task).

(** ** The scoring rules in the words of the specification (section 4.3 b) *)

(** priorityWeight: urgent 4, high 3, low 1, medium or anything else 2. *)
Definition spec_priorityWeight (p : option string) : number :=
  match p with
  | Some s =>
      if String.eqb s "urgent" then 4%Q
      else if String.eqb s "high" then 3%Q
      else if String.eqb s "low" then 1%Q
      else 2%Q
  | None => 2%Q
  end.

Definition spec_energyRow (high medium low : number) (taskEnergy : option string) : number :=
  match taskEnergy with
  | Some s =>
      if String.eqb s "high" then high
      else if String.eqb s "medium" then medium
      else if String.eqb s "low" then low
      else 1%Q
  | None => 1%Q
  end.

(** energyMatchScore: the 3 x 3 table, 1 when either key is not in it. *)
Definition spec_energyMatchScore (userEnergy : string) (taskEnergy : option string) : number :=
  if String.eqb userEnergy "high" then spec_energyRow 2%Q 1%Q (1 # 2)%Q taskEnergy
  else if String.eqb userEnergy "medium" then spec_energyRow (3 # 2)%Q 2%Q 1%Q taskEnergy
  else if String.eqb userEnergy "low" then spec_energyRow (1 # 2)%Q 1%Q 2%Q taskEnergy
  else 1%Q.

(** deadlineUrgencyScore: 1 without a deadline; otherwise 3 when less than two
    hours are left (overdue included), 2 when less than 24, else 1. *)
Definition spec_deadlineUrgencyScore (currentTime : Z) (d : option Z) : number :=
  match d with
  | None => 1%Q
  | Some t =>
      if (t - currentTime <? 2 * 3600000)%Z then 3%Q
      else if (t - currentTime <? 24 * 3600000)%Z then 2%Q
      else 1%Q
  end.

Definition spec_score (currentTime : Z) (userEnergy : string) (task : Task) : number :=
  (spec_priorityWeight (priority task)
   * spec_energyMatchScore userEnergy (energyRequired task)
   * spec_deadlineUrgencyScore currentTime (deadline task))%Q.

(** The disk once the directory of [userId] exists. *)
Definition withDirectory (userId : string) (disk : Disk) : Disk :=
  mkDisk (files disk) ({[ userId ]} ∪ directories disk) (mkdirFault disk) (writeFault disk).

(** What a computation leaves alone: the fault tables, and every file but
    those named [filename] of [userId]. *)
Definition touchesOnly {T : Type} (userId filename : string) (c : IO T) : Prop :=
  forall disk,
    mkdirFault (snd (c disk)) = mkdirFault disk /\
    writeFault (snd (c disk)) = writeFault disk /\
    forall key, key <> (userId, filename) ->
      files (snd (c disk)) !! key = files disk !! key.

(** A computation that writes no file at all. *)
Definition readsOnly {T : Type} (c : IO T) : Prop :=
  forall disk,
    mkdirFault (snd (c disk)) = mkdirFault disk /\
    writeFault (snd (c disk)) = writeFault disk /\
    files (snd (c disk)) = files disk.

(** What a write of [key] that failed with [fault] leaves of the files. *)
Definition afterFailedWrite (fault : WriteFault) (key : string * string)
    (before after : Disk) : Prop :=
  (forall other, other <> key -> files after !! other = files before !! other) /\
  match fault with
  | FailsOnOpen _ => files after = files before
  | FailsWhileWriting _ reached => files after !! key = Some (Text reached)
  end.

(** The entry a chat request adds to the log. *)
Definition chatEntryOf (r : ChatRequest) : json :=
  JObj (newChatEntry (chatBody r) (chatUuid r) (chatNow r)).

(** The last [n] elements of a list, in their order. *)
Definition lastN {T : Type} (n : nat) (l : list T) : list T :=
  skipn (length l - n) l.

(** ** Orders the list comparator induces

    [rankOf] puts incomplete before completed tasks and, within each group,
    heavier priorities first.  A list has uniform deadlines when tasks of
    equal completion status and priority weight either all have a deadline
    or all have none. *)

Definition rankOf (task : Task) : Z :=
  ((if completed task then 10 else 0) - Qnum (spec_priorityWeight (priority task)))%Z.

Definition deadlineOf (task : Task) : Z :=
  match deadline task with
  | Some d => d
  | None => 0%Z
  end.

Definition deadlineUniform (tasks : list Task) : Prop :=
  forall a b, In a tasks -> In b tasks ->
    completed a = completed b ->
    spec_priorityWeight (priority a) = spec_priorityWeight (priority b) ->
    (deadline a = None <-> deadline b = None).

(** The comparator of section 4.3 a in the words of the specification:
    completion first, then the weight of the priority, then the deadline. *)
Definition spec_compare (a b : Task) : number :=
  if negb (Bool.eqb (completed a) (completed b)) then
    (if completed a then 1 else -1)%Q
  else if negb (Qeq_bool (spec_priorityWeight (priority a))
                         (spec_priorityWeight (priority b))) then
    (spec_priorityWeight (priority b) - spec_priorityWeight (priority a))%Q
  else
    match deadline a, deadline b with
    | Some da, Some db => inject_Z (da - db)
    | _, _ => 0%Q
    end.

(** A task whose [completed] is a boolean and whose priority names no member
    of Object.prototype: what the form of the dashboard, POST /api/tasks and
    toggleComplete make. *)
Definition booleanFlag (task : Task) : bool :=
  match completedValue task with
  | FBool _ => true
  | _ => false
  end.

Definition ordinaryTask (task : Task) : bool :=
  booleanFlag task && plainKey (priority task).

(** All tasks that are not completed carry the same value in [completed]. *)
Definition falsyFlagsAgree (tasks : list Task) : Prop :=
  forall a b, In a tasks -> In b tasks ->
    completed a = false -> completed b = false ->
    sameFlag (completedValue a) (completedValue b) = true.

(** ** Sample data *)

Definition sampleTask (name : string) (p e : option string) (d : option Z) (c : bool) : Task :=
  mkTask name name p e d (FBool c) None.

(** The scenario of the specification:
    [{title:"A", priority:"low"}, {title:"B", priority:"urgent"},
     {title:"C", priority:"medium", completed:true}];
    A and B are incomplete. *)
Definition taskA : Task := sampleTask "A" (Some "low") None None false.
Definition taskB : Task := sampleTask "B" (Some "urgent") None None false.
Definition taskC : Task := sampleTask "C" (Some "medium") None None true.

(** Five incomplete tasks of equal priority, two of them without a deadline. *)
Definition mixedDeadlines : list Task :=
  [sampleTask "n1" None None None false;
   sampleTask "d3" None None (Some 3%Z) false;
   sampleTask "n2" None None None false;
   sampleTask "d1" None None (Some 1%Z) false;
   sampleTask "d2" None None (Some 2%Z) false].

(** Three incomplete tasks of equal priority; the one in the middle has no
    deadline, the last is due before the first. *)
Definition laterFirst : list Task :=
  [sampleTask "d3" None None (Some 3%Z) false;
   sampleTask "n2" None None None false;
   sampleTask "d1" None None (Some 1%Z) false].

(** A task as POST /api/tasks stores it, and one whose [completed] a
    PUT /api/tasks/:id with the body {"completed": null} has set to null. *)
Definition falseTask : Task := sampleTask "a" None None None false.
Definition nullTask : Task := mkTask "b" "b" None None None FNull None.

Definition emptyDisk : Disk := mkDisk ∅ ∅ ∅ ∅.

Definition noStatistics : json -> json -> string -> Exn + json :=
  fun tasks preferences now => inr (JObj [("totalTasks", JNum 0%Q)]).

Definition sampleDate : Z -> string := fun instant => "Wed Jan 01 2025".

Definition sampleResponder : string -> string := fun text => "Noted.".

(** Ten messages, a cleared history, and one more message, all at one instant. *)
Definition clearedSession : list Action :=
  repeat (SendMessage "hello" 0 true) 10 ++ [ClearChat true true; SendMessage "hello" 0 true].

(** One message from submission to the server's answer, nothing in between. *)
Definition oneByOne (call : nat) : list Event :=
  [Submit "hello" 0; ResponderAnswers call 0; ServerAnswers call true].

(** Ten messages sent one after the other, then one more submission. *)
Definition elevenInTurn : list Event :=
  flat_map oneByOne (seq 0 10) ++ [Submit "hello" 0].

(** Twelve messages submitted before the responder has answered the first;
    then the twelve answers of the responder and of the server. *)
Definition overlappingSends : list Event :=
  repeat (Submit "hello" 0) 12
  ++ map (fun call => ResponderAnswers call 0) (seq 0 12)
  ++ map (fun call => ServerAnswers call true) (seq 0 12).

(** ** The scripted responder of AIService (services/ai.js)

    A message is ASCII text.  A template literal prints the length of an
    array in decimal ([pretty]). *)

(** [s.includes(keyword)] *)
Fixpoint includes (s keyword : string) : bool :=
  String.prefix keyword s ||
  match s with
  | EmptyString => false
  | String _ s' => includes s' keyword
  end.

(** The double quote character. *)
Definition dquote : string := String (Ascii.ascii_of_nat 34) EmptyString.

(** The preferences the responder reads; a field is [None] when the object
    does not have it.  Durations are whole minutes. *)
Record Preferences : Type := mkPreferences {
  energyPeaks : option (list string);
  preferredBreakDuration : option Z;
  focusBlockLength : option Z
}.

Record Context : Type := mkContext {
  context_tasks : list Task;
  context_preferences : Preferences;
  context_currentTime : Z;
  context_energyLevel : string
}.

(** [['high', 'urgent'].includes(task.priority)] *)
Definition isHighPriority (task : Task) : bool :=
  match priority task with
  | Some p => String.eqb p "high" || String.eqb p "urgent"
  | None => false
  end.

(** [${task.priority}] *)
Definition priorityText (task : Task) : string :=
  match priority task with
  | Some p => p
  | None => "undefined"
  end.

Definition getFocusResponse (activeTasks : list Task) (energyLevel : string) : string :=
  match activeTasks with
  | [] =>
      "You don't have any active tasks right now! Consider adding some tasks to your list."
  | firstTask :: _ =>
      match filter isHighPriority activeTasks with
      | nextTask :: _ =>
          "Based on your current " +:+ energyLevel
          +:+ " energy level, I recommend focusing on " +:+ dquote +:+ title nextTask
          +:+ dquote +:+ " - it's marked as " +:+ priorityText nextTask +:+ " priority."
      | [] =>
          "I suggest working on " +:+ dquote +:+ title firstTask +:+ dquote
          +:+ " next. Your " +:+ energyLevel
          +:+ " energy level is good for this type of task."
      end
  end.

(** [text || fallback] for a string that may be undefined. *)
Definition orText (text : option string) (fallback : string) : string :=
  match text with
  | Some s => if String.eqb s EmptyString then fallback else s
  | None => fallback
  end.

(** [minutes || fallback] for a number that may be undefined. *)
Definition orMinutes (minutes : option Z) (fallback : Z) : Z :=
  match minutes with
  | Some n => if (n =? 0)%Z then fallback else n
  | None => fallback
  end.

Definition getProductivityResponse (completedTasks : list Task)
    (preferences : Preferences) : string :=
  String.concat " "
    [ "You've completed " +:+ pretty (length completedTasks)
      +:+ " tasks so far - great progress!";
      "Your peak energy times are "
      +:+ orText (option_map (String.concat ", ") (energyPeaks preferences)) "not set yet"
      +:+ ".";
      "Take " +:+ pretty (orMinutes (preferredBreakDuration preferences) 15)
      +:+ "-minute breaks every "
      +:+ pretty (orMinutes (focusBlockLength preferences) 60) +:+ " minutes.";
      "Batch similar tasks together to reduce context switching." ].

(** The filter of getScheduleResponse: a deadline at most 24 hours ahead and
    not yet passed. *)
Definition dueWithin24Hours (currentTime : Z) (task : Task) : bool :=
  match deadline task with
  | None => false
  | Some d =>
      let hoursUntil := (inject_Z (d - currentTime) / inject_Z (1000 * 60 * 60))%Q in
      Qle_bool hoursUntil 24%Q && ltNumber 0%Q hoursUntil
  end.

Definition getScheduleResponse (activeTasks : list Task) (currentTime : Z) : string :=
  if (length activeTasks =? 0)%nat then
    "Your schedule is clear! Add some tasks and I'll help you organize them optimally."
  else
    let urgentTasks := filter (dueWithin24Hours currentTime) activeTasks in
    if (0 <? length urgentTasks)%nat then
      "You have " +:+ pretty (length urgentTasks) +:+ " task"
      +:+ (if (1 <? length urgentTasks)%nat then "s" else EmptyString)
      +:+ " due within 24 hours. I recommend prioritizing these first."
    else
      "Your schedule looks manageable! You have " +:+ pretty (length activeTasks)
      +:+ " active tasks.".

Definition getTasksResponse (activeTasks completedTasks : list Task) : string :=
  if (length activeTasks =? 0)%nat && (length completedTasks =? 0)%nat then
    "You haven't added any tasks yet! Start by creating your first task."
  else
    "You currently have " +:+ pretty (length activeTasks)
    +:+ " active tasks and have completed " +:+ pretty (length completedTasks)
    +:+ " tasks.".

Definition getDefaultResponse (activeTasks completedTasks : list Task) : string :=
  if (length activeTasks =? 0)%nat && (length completedTasks =? 0)%nat then
    "Welcome to Zyntrain AI! I'm here to help optimize your productivity. Start by adding some tasks."
  else
    "I'm here to help optimize your schedule! You currently have "
    +:+ pretty (length activeTasks) +:+ " active tasks. What would you like to improve?".

(** The keyword groups in the order generateResponse tries them, each with
    the answer of its handler. *)
Definition responsePatterns (activeTasks completedTasks : list Task)
    (context : Context) : list (list string * string) :=
  [ (["focus"; "concentrate"],
     getFocusResponse activeTasks (context_energyLevel context));
    (["productivity"; "productive"],
     getProductivityResponse completedTasks (context_preferences context));
    (["schedule"; "calendar"],
     getScheduleResponse activeTasks (context_currentTime context));
    (["task"; "tasks"],
     getTasksResponse activeTasks completedTasks) ].

Definition generateResponse (message : string) (context : Context) : string :=
  let lowerMessage := toLowerCase message in
  let activeTasks := filter (fun task => negb (completed task)) (context_tasks context) in
  let completedTasks := filter (fun task => completed task) (context_tasks context) in
  match find (fun pattern => existsb (includes lowerMessage) (fst pattern))
          (responsePatterns activeTasks completedTasks context) with
  | Some pattern => snd pattern
  | None => getDefaultResponse activeTasks completedTasks
  end.

(** *** AIChatManager.getCurrentEnergyLevel and AIChatManager.buildContext *)

Definition getCurrentEnergyLevel (hour : Z) : string :=
  if (9 <=? hour)%Z && (hour <=? 11)%Z then "high"
  else if (14 <=? hour)%Z && (hour <=? 16)%Z then "medium"
  else if (20 <=? hour)%Z || (hour <=? 6)%Z then "low"
  else "medium".

(** [tasks] is the task list of the dashboard; the preferences handed to the
    responder are the empty object. *)
Definition buildContext (tasks : list Task) (now hour : Z) : Context :=
  mkContext tasks (mkPreferences None None None) now (getCurrentEnergyLevel hour).

(** ** More of the dashboard (Utils, Dashboard, TaskManager) *)

(** Utils.getTimeAgo; [now] and [past] are instants in milliseconds. *)
Definition getTimeAgo (now past : Z) : string :=
  let diffInMinutes := ((now - past) / (1000 * 60))%Z in
  if (diffInMinutes <? 1)%Z then "Just now"
  else if (diffInMinutes <? 60)%Z then pretty diffInMinutes +:+ " minutes ago"
  else
    let diffInHours := (diffInMinutes / 60)%Z in
    if (diffInHours <? 24)%Z then pretty diffInHours +:+ " hours ago"
    else
      let diffInDays := (diffInHours / 24)%Z in
      pretty diffInDays +:+ " days ago".

Record Recommendation : Type := mkRecommendation {
  icon : string;
  text : string
}.

(** [new Date(task.deadline) < new Date()] for a task that has a deadline. *)
Definition isOverdue (now : Z) (task : Task) : bool :=
  match deadline task with
  | None => false
  | Some d => (d <? now)%Z
  end.

(** [task.energyRequired === 'high'] *)
Definition needsHighEnergy (task : Task) : bool :=
  match energyRequired task with
  | Some e => String.eqb e "high"
  | None => false
  end.

(** The recommendations before [slice(0, 3)]. *)
Definition collectRecommendations (activeTasks : list Task) (now currentHour : Z)
    : list Recommendation :=
  let highPriorityTasks := filter isHighPriority activeTasks in
  let overdueTasks := filter (isOverdue now) activeTasks in
  let highEnergyTasks := filter needsHighEnergy activeTasks in
  let recommendations :=
    match highPriorityTasks with
    | nextTask :: _ =>
        [mkRecommendation "exclamation-triangle"
           ("Focus on " +:+ dquote +:+ title nextTask +:+ dquote
            +:+ " - it's marked as " +:+ priorityText nextTask +:+ " priority.")]
    | [] => []
    end
    ++ (if (0 <? length overdueTasks)%nat then
          [mkRecommendation "clock"
             ("You have " +:+ pretty (length overdueTasks) +:+ " overdue task"
              +:+ (if (1 <? length overdueTasks)%nat then "s" else EmptyString)
              +:+ ". Consider rescheduling or breaking them into smaller parts.")]
        else [])
    ++ (if (9 <=? currentHour)%Z && (currentHour <=? 11)%Z
           && (0 <? length highEnergyTasks)%nat then
          [mkRecommendation "bolt"
             "Morning energy is high! Perfect time for demanding tasks like coding or creative work."]
        else []) in
  if (length recommendations =? 0)%nat then
    [mkRecommendation "lightbulb"
       "Your schedule looks balanced. Consider time-blocking your tasks for better focus."]
  else recommendations.

Definition generateAIRecommendations (tasks : list Task) (now currentHour : Z)
    : list Recommendation :=
  let activeTasks := filter (fun task => negb (completed task)) tasks in
  if (length activeTasks =? 0)%nat then
    [mkRecommendation "check-circle"
       "Great job! All tasks completed. Consider adding new goals for tomorrow."]
  else firstn 3 (collectRecommendations activeTasks now currentHour).

Section TaskList.
Variable toDateString : Z -> string.

(** [isToday(new Date(task.deadline))] for a task that has a deadline. *)
Definition dueToday (now : Z) (task : Task) : bool :=
  match deadline task with
  | None => false
  | Some d => String.eqb (toDateString d) (toDateString now)
  end.

(** The filters of getFilteredTasks by the name of the tab. *)
Definition filters (now : Z) : gmap string (list Task -> list Task) :=
  {[ "today" := filter (dueToday now);
     "high" := filter isHighPriority;
     "completed" := filter (fun task => completed task) ]}.

(** TaskManager.getFilteredTasks: the tasks the list shows, in their order. *)
Definition getFilteredTasks (sort : SortRoutine) (tasks : list Task)
    (currentFilter : string) (now : Z) : list Task :=
  let filtered :=
    match filters now !! currentFilter with
    | Some filter => filter tasks
    | None => tasks
    end in
  sortTasks sort filtered.

End TaskList.

(** ** More routes of server.js *)

Section MoreRoutes.
Variable statistics : json -> json -> string -> Exn + json.

(** GET /api/tasks *)
Definition getTasks (userId now : string) : Disk -> Response * Disk :=
  route
    (await tasks := readUserFile now userId "tasks.json" in
     ret (respond 200 [("success", JBool true); ("tasks", tasks)]))
    "Failed to get tasks".

(** GET /api/ai/chats *)
Definition getChats (userId now : string) : Disk -> Response * Disk :=
  route
    (await chats := readUserFile now userId "aichat.json" in
     ret (respond 200 [("success", JBool true); ("chats", chats)]))
    "Failed to get chats".

(** DELETE /api/ai/chats *)
Definition deleteChats (userId : string) : Disk -> Response * Disk :=
  route
    (await written := writeUserFile userId "aichat.json" (JArr []) in
     ret (respond 200 [("success", JBool true)]))
    "Failed to clear chats".

(** GET /api/preferences *)
Definition getPreferences (userId now : string) : Disk -> Response * Disk :=
  route
    (await preferences := readUserFile now userId "preferences.json" in
     ret (mkResponse 200 preferences))
    "Failed to get preferences".

(** POST /api/preferences *)
Definition postPreferences (userId : string) (preferences : json)
    : Disk -> Response * Disk :=
  route
    (await written := writeUserFile userId "preferences.json" preferences in
     ret (respond 200 [("success", JBool true); ("preferences", preferences)]))
    "Failed to save preferences".

(** GET /api/schedule *)
Definition getSchedule (userId now : string) : Disk -> Response * Disk :=
  route
    (await schedule := readUserFile now userId "schedule.json" in
     ret (mkResponse 200 schedule))
    "Failed to get schedule".

(** POST /api/schedule *)
Definition postSchedule (userId : string) (schedule : json)
    : Disk -> Response * Disk :=
  route
    (await written := writeUserFile userId "schedule.json" schedule in
     ret (respond 200 [("success", JBool true); ("schedule", schedule)]))
    "Failed to save schedule".

(** GET /api/analytics *)
Definition getAnalytics (userId now : string) : Disk -> Response * Disk :=
  route
    (await analytics := calculateAnalytics statistics now userId in
     ret (mkResponse 200 analytics))
    "Failed to get analytics".

End MoreRoutes.

(** ** TaskManager.handleSubmit and TaskManager.deleteTask (dashboard), with
    the requests they send

    ApiService throws unless the answer is a 2xx one; the manager's list is
    changed when the answer says [success]. *)

Definition succeeded (res : Response) : bool :=
  (status res =? 200)%Z
  && match body res with
     | JObj fields => truthy (getField "success" fields)
     | _ => false
     end.

Module TaskManager.
Section WithServer.
Variable statistics : json -> json -> string -> Exn + json.

(** [taskData] is the object built from the form; the task pushed is the
    [task] of the answer, which a 200 answer of POST /api/tasks carries.  The
    calendar sync that follows reads the profile only and is left out. *)
Definition handleSubmit (userId : string) (tasks : list jobject)
    (taskData : jobject) (uuid now : string) (disk : Disk) : list jobject * Disk :=
  if negb (truthy (getField "title" taskData)) then (tasks, disk)
  else
    let '(res, disk') := postTask statistics userId taskData uuid now disk in
    if succeeded res then
      match body res with
      | JObj fields =>
          match getField "task" fields with
          | Some (JObj task) => (tasks ++ [task], disk')
          | _ => (tasks, disk')
          end
      | _ => (tasks, disk')
      end
    else (tasks, disk').

Definition deleteTask (userId : string) (tasks : list jobject)
    (taskId : string) (confirmed : bool) (now : string) (disk : Disk)
    : list jobject * Disk :=
  match find (hasId taskId) tasks with
  | None => (tasks, disk)
  | Some task =>
      if confirmed then
        let '(res, disk') := deleteTask statistics userId taskId now disk in
        if succeeded res then
          (filter (fun t => negb (hasId taskId t)) tasks, disk')
        else (tasks, disk')
      else (tasks, disk)
  end.

End WithServer.
End TaskManager.

(** An outcome for which the responder was asked. *)
Definition answered (o : Outcome) : bool :=
  match o with
  | Sent | NotSaved => true
  | Ignored | LimitReached => false
  end.

(** * Properties *)

(** ** Signs *)

Lemma isNegative_lt (v : number) : isNegative v = true <-> (v < 0)%Q.
Proof.
  unfold isNegative, Qlt; simpl. rewrite Z.ltb_lt. lia.
Qed.

Lemma isZero_eq (v : number) : isZero v = true <-> (v == 0)%Q.
Proof.
  unfold isZero, Qeq; simpl. rewrite Z.eqb_eq. lia.
Qed.

Lemma isPositive_lt (v : number) : isPositive v = true <-> (0 < v)%Q.
Proof.
  unfold isPositive, Qlt; simpl. rewrite Z.ltb_lt. lia.
Qed.

Lemma sign_trichotomy (v : number) :
  (isNegative v = true /\ isZero v = false /\ isPositive v = false) \/
  (isNegative v = false /\ isZero v = true /\ isPositive v = false) \/
  (isNegative v = false /\ isZero v = false /\ isPositive v = true).
Proof.
  unfold isNegative, isZero, isPositive.
  destruct (Z.ltb_spec (Qnum v) 0), (Z.eqb_spec (Qnum v) 0),
    (Z.ltb_spec 0 (Qnum v)); try lia; tauto.
Qed.

(** ** Consistent comparison functions *)

Section ComparisonFacts.
Context {A : Type} (comparefn : A -> A -> number).

Local Notation "x <<? y" := (before comparefn x y) (at level 65, no associativity).
Local Notation "x ==? y" := (tied comparefn x y) (at level 65, no associativity).
Local Notation "x >>? y" := (after comparefn x y) (at level 65, no associativity).

Lemma compare_cases (x y : A) :
  ((x <<? y) = true /\ (x ==? y) = false /\ (x >>? y) = false) \/
  ((x <<? y) = false /\ (x ==? y) = true /\ (x >>? y) = false) \/
  ((x <<? y) = false /\ (x ==? y) = false /\ (x >>? y) = true).
Proof. apply sign_trichotomy. Qed.

Lemma consistentb_sound (vs : list A) :
  consistentb comparefn vs = true -> Consistent comparefn vs.
Proof.
  unfold consistentb. rewrite forallb_forall. intros H.
  assert (Ha : forall a, In a vs -> (a ==? a) = true /\
            forall b, In b vs -> ((a ==? b) = true -> (b ==? a) = true) /\
            forall c, In c vs ->
              ((a ==? b) = true -> (b ==? c) = true -> (a ==? c) = true) /\
              ((a <<? b) = true -> (b <<? c) = true -> (a <<? c) = true) /\
              ((a >>? b) = true -> (b >>? c) = true -> (a >>? c) = true)).
  { intros a Hin. specialize (H a Hin).
    apply andb_prop in H as [Hr Hb]. split; [exact Hr|].
    rewrite forallb_forall in Hb. intros b Hinb.
    specialize (Hb b Hinb). apply andb_prop in Hb as [Hs Hc].
    split.
    - intros Hab. rewrite Hab in Hs. exact Hs.
    - rewrite forallb_forall in Hc. intros c Hinc.
      specialize (Hc c Hinc).
      apply andb_prop in Hc as [Hc Hgt]. apply andb_prop in Hc as [Heq Hlt].
      repeat split; intros H1 H2; rewrite H1, H2 in *; simpl in *; try assumption. }
  constructor.
  - intros a Hin. exact (proj1 (Ha a Hin)).
  - intros a b Hia Hib. exact (proj1 (proj2 (Ha a Hia) b Hib)).
  - intros a b c Hia Hib Hic.
    exact (proj1 (proj2 (proj2 (Ha a Hia) b Hib) c Hic)).
  - intros a b c Hia Hib Hic.
    exact (proj1 (proj2 (proj2 (proj2 (Ha a Hia) b Hib) c Hic))).
  - intros a b c Hia Hib Hic.
    exact (proj2 (proj2 (proj2 (proj2 (Ha a Hia) b Hib) c Hic))).
Qed.

Section OnConsistentValues.
Variable vs : list A.
Hypothesis consistent : Consistent comparefn vs.

Lemma before_irrefl a : In a vs -> (a <<? a) = false.
Proof.
  intros Hin. pose proof (cf_refl _ _ consistent a Hin) as Hr.
  destruct (compare_cases a a) as [(?&?&?)|[(?&?&?)|(?&?&?)]]; congruence.
Qed.

Lemma before_after a b :
  In a vs -> In b vs -> (a <<? b) = true -> (b >>? a) = true.
Proof.
  intros Ha Hb Hab.
  destruct (compare_cases b a) as [(Hlt&_&_)|[(_&Heq&_)|(_&_&Hgt)]].
  - pose proof (cf_before_trans _ _ consistent a b a Ha Hb Ha Hab Hlt) as Haa.
    rewrite (before_irrefl a Ha) in Haa. discriminate.
  - pose proof (cf_sym _ _ consistent b a Hb Ha Heq) as Hsym.
    destruct (compare_cases a b) as [(?&?&?)|[(?&?&?)|(?&?&?)]]; congruence.
  - exact Hgt.
Qed.

Lemma after_before a b :
  In a vs -> In b vs -> (a >>? b) = true -> (b <<? a) = true.
Proof.
  intros Ha Hb Hab.
  destruct (compare_cases b a) as [(Hlt&_&_)|[(_&Heq&_)|(_&_&Hgt)]].
  - exact Hlt.
  - pose proof (cf_sym _ _ consistent b a Hb Ha Heq) as Hsym.
    destruct (compare_cases a b) as [(?&?&?)|[(?&?&?)|(?&?&?)]]; congruence.
  - pose proof (cf_after_trans _ _ consistent a b a Ha Hb Ha Hab Hgt) as Haa.
    pose proof (cf_refl _ _ consistent a Ha) as Hr.
    destruct (compare_cases a a) as [(?&?&?)|[(?&?&?)|(?&?&?)]]; congruence.
Qed.

Lemma before_asym a b :
  In a vs -> In b vs -> (a <<? b) = true -> (b <<? a) = false.
Proof.
  intros Ha Hb Hab. pose proof (before_after a b Ha Hb Hab) as Hgt.
  destruct (compare_cases b a) as [(?&?&?)|[(?&?&?)|(?&?&?)]]; congruence.
Qed.

Lemma tied_not_before a b : (a ==? b) = true -> (a <<? b) = false.
Proof.
  intros Ht. destruct (compare_cases a b) as [(?&?&?)|[(?&?&?)|(?&?&?)]]; congruence.
Qed.

(** "Not behind" is transitive: if b is not (a <<? and) c is not before b,
    then c is not before a. *)
Lemma not_before_trans a b c :
  In a vs -> In b vs -> In c vs ->
  (b <<? a) = false -> (c <<? b) = false -> (c <<? a) = false.
Proof.
  intros Ha Hb Hc Hba Hcb.
  destruct ((c <<? a)) eqn:Hca; [exfalso|reflexivity].
  destruct (compare_cases b a) as [(?&?&?)|[(_&Hba0&_)|(_&_&Hba1)]]; [congruence| |];
  destruct (compare_cases c b) as [(?&?&?)|[(_&Hcb0&_)|(_&_&Hcb1)]]; try congruence.
  - pose proof (cf_tied_trans _ _ consistent c b a Hc Hb Ha Hcb0 Hba0) as Ht.
    apply tied_not_before in Ht. congruence.
  - apply after_before in Hcb1; [|assumption..].
    pose proof (cf_before_trans _ _ consistent b c a Hb Hc Ha Hcb1 Hca) as Hlt.
    apply tied_not_before in Hba0. congruence.
  - apply after_before in Hba1; [|assumption..].
    pose proof (cf_before_trans _ _ consistent c a b Hc Ha Hb Hca Hba1) as Hlt.
    apply tied_not_before in Hcb0. congruence.
  - pose proof (cf_after_trans _ _ consistent c b a Hc Hb Ha Hcb1 Hba1) as Hgt.
    destruct (compare_cases c a) as [(?&?&?)|[(?&?&?)|(?&?&?)]]; congruence.
Qed.

(** Values that are not (one <<? another) are tied. *)
Lemma not_before_tied a b :
  In a vs -> In b vs -> (a <<? b) = false -> (b <<? a) = false -> (a ==? b) = true.
Proof.
  intros Ha Hb Hab Hba.
  destruct (compare_cases a b) as [(?&?&?)|[(?&?&?)|(_&_&Hgt)]]; try congruence.
  apply after_before in Hgt; [congruence|assumption..].
Qed.

(** A value (with ==? a) is (with ==? exactly) the values a is tied with. *)
Lemma tied_class a b c :
  In a vs -> In b vs -> In c vs -> (a ==? b) = true -> (c ==? a) = (c ==? b).
Proof.
  intros Ha Hb Hc Hab.
  destruct ((c ==? a)) eqn:Hca, ((c ==? b)) eqn:Hcb; try reflexivity.
  - rewrite <- Hcb. symmetry.
    apply (cf_tied_trans _ _ consistent c a b); assumption.
  - rewrite <- Hca.
    apply (cf_tied_trans _ _ consistent c b a); try assumption.
    apply (cf_sym _ _ consistent a b); assumption.
Qed.

End OnConsistentValues.
End ComparisonFacts.

(** ** The two sort routines meet the ECMAScript contract *)

Lemma list_pair_ind {T : Type} (P : list T -> Prop) :
  P [] -> (forall r, P [r]) ->
  (forall r1 r2 rest, P rest -> P (r1 :: r2 :: rest)) ->
  forall l, P l.
Proof.
  intros H0 H1 H2.
  assert (Hboth : forall l, P l /\ forall r, P (r :: l)).
  { induction l as [|r l [IH IHr]]; split; auto. }
  intros l. apply Hboth.
Qed.

Section SortFacts.
Context {A : Type} (comparefn : A -> A -> number).

Local Notation "x <<? y" := (before comparefn x y) (at level 65, no associativity).
Local Notation "x ==? y" := (tied comparefn x y) (at level 65, no associativity).

Lemma insert_perm x l : Permutation (x :: l) (insert comparefn x l).
Proof.
  induction l as [|y l IH]; simpl; [reflexivity|].
  destruct (y <<? x); [|reflexivity].
  rewrite perm_swap. apply perm_skip, IH.
Qed.

Lemma insertion_sort_perm l : Permutation l (insertion_sort comparefn l).
Proof.
  induction l as [|x l IH]; simpl; [constructor|].
  rewrite <- insert_perm. apply perm_skip, IH.
Qed.

Lemma merge_nil_l l2 : merge comparefn [] l2 = l2.
Proof. destruct l2; reflexivity. Qed.

Lemma merge_nil_r l1 : merge comparefn l1 [] = l1.
Proof. destruct l1; reflexivity. Qed.

Lemma merge_cons a l1 b l2 :
  merge comparefn (a :: l1) (b :: l2) =
  if b <<? a then b :: merge comparefn (a :: l1) l2 else a :: merge comparefn l1 (b :: l2).
Proof. reflexivity. Qed.

Lemma merge_perm l1 l2 : Permutation (l1 ++ l2) (merge comparefn l1 l2).
Proof.
  revert l2. induction l1 as [|a l1 IH1]; intros l2.
  - rewrite merge_nil_l. reflexivity.
  - induction l2 as [|b l2 IH2].
    + rewrite merge_nil_r, app_nil_r. reflexivity.
    + rewrite merge_cons. destruct (b <<? a).
      * rewrite <- IH2. symmetry. apply Permutation_middle.
      * simpl. apply perm_skip, IH1.
Qed.

Lemma merge_pairs_perm (runs : list (list A)) :
  Permutation (concat runs) (concat (merge_pairs comparefn runs)).
Proof.
  induction runs as [| |r1 r2 rest IH] using list_pair_ind; simpl; try reflexivity.
  rewrite app_assoc. apply Permutation_app; [apply merge_perm|exact IH].
Qed.

Lemma merge_pairs_length (runs : list (list A)) :
  (2 * length (merge_pairs comparefn runs) <= length runs + 1)%nat.
Proof.
  induction runs as [| |r1 r2 rest IH] using list_pair_ind; simpl in *; lia.
Qed.

Lemma merge_passes_perm fuel (runs : list (list A)) :
  Permutation (concat runs) (merge_passes comparefn fuel runs).
Proof.
  revert runs. induction fuel as [|fuel IH]; intros runs.
  - destruct runs as [|r [|r' rest]]; simpl; try reflexivity.
    rewrite app_nil_r. reflexivity.
  - destruct runs as [|r [|r' rest]]; simpl; try reflexivity.
    + rewrite app_nil_r. reflexivity.
    + rewrite <- IH. simpl.
      rewrite app_assoc. apply Permutation_app; [apply merge_perm|].
      apply merge_pairs_perm.
Qed.

(** The passes of [merge_sort] never run out of fuel: one more unit of fuel
    changes nothing once the fuel covers the number of runs. *)
Lemma merge_passes_fuel fuel (runs : list (list A)) :
  (length runs <= S fuel)%nat ->
  merge_passes comparefn (S fuel) runs = merge_passes comparefn fuel runs.
Proof.
  revert runs. induction fuel as [|fuel IH]; intros runs Hlen.
  - destruct runs as [|r [|r' rest]]; simpl in *; try reflexivity; lia.
  - destruct runs as [|r [|r' rest]]; try reflexivity.
    change (merge_passes comparefn (S (S fuel)) (r :: r' :: rest))
      with (merge_passes comparefn (S fuel) (merge_pairs comparefn (r :: r' :: rest))).
    change (merge_passes comparefn (S fuel) (r :: r' :: rest))
      with (merge_passes comparefn fuel (merge_pairs comparefn (r :: r' :: rest))).
    apply IH. pose proof (merge_pairs_length (r :: r' :: rest)). simpl in *. lia.
Qed.

Lemma concat_singletons (l : list A) : concat (map (fun x => [x]) l) = l.
Proof. induction l as [|x l IH]; simpl; congruence. Qed.

Lemma merge_sort_perm l : Permutation l (merge_sort comparefn l).
Proof.
  unfold merge_sort. rewrite <- merge_passes_perm, concat_singletons. reflexivity.
Qed.

Section OnConsistentValues.
Variable vs : list A.
Hypothesis consistent : Consistent comparefn vs.

Lemma ordered_cons x l :
  Ordered comparefn (x :: l) <-> Ordered comparefn l /\ Forall (fun y => y <<? x = false) l.
Proof.
  split.
  - intros H. inversion H; subst. split; assumption.
  - intros [H1 H2]. constructor; assumption.
Qed.

Lemma insert_ordered x l :
  In x vs -> incl l vs -> Ordered comparefn l -> Ordered comparefn (insert comparefn x l).
Proof.
  intros Hx. induction l as [|y l IH]; intros Hl Hord; simpl.
  - constructor; constructor.
  - assert (Hy : In y vs) by (apply Hl; left; reflexivity).
    assert (Hl' : incl l vs) by (intros z Hz; apply Hl; right; exact Hz).
    apply ordered_cons in Hord as [Hord Hall].
    destruct (y <<? x) eqn:Hyx.
    + apply ordered_cons. split; [apply IH; assumption|].
      apply (Permutation_Forall (insert_perm x l)).
      constructor; [|exact Hall].
      apply (before_asym comparefn vs consistent y x); assumption.
    + apply ordered_cons. split; [apply ordered_cons; split; assumption|].
      constructor; [exact Hyx|].
      rewrite Forall_forall in Hall |- *. intros z Hz.
      apply (not_before_trans comparefn vs consistent x y z); auto.
Qed.

Lemma insertion_sort_ordered l :
  incl l vs -> Ordered comparefn (insertion_sort comparefn l).
Proof.
  induction l as [|x l IH]; intros Hl; simpl.
  - constructor.
  - apply insert_ordered.
    + apply Hl. left. reflexivity.
    + intros z Hz. apply Hl. right.
      apply (Permutation_in z (Permutation_sym (insertion_sort_perm l))). exact Hz.
    + apply IH. intros z Hz. apply Hl. right. exact Hz.
Qed.

Lemma insert_filter a x l :
  In a vs -> In x vs -> incl l vs ->
  filter (fun y => a ==? y) (insert comparefn x l) = filter (fun y => a ==? y) (x :: l).
Proof.
  intros Ha Hx. induction l as [|y l IH]; intros Hl; [reflexivity|].
  assert (Hy : In y vs) by (apply Hl; left; reflexivity).
  assert (Hl' : incl l vs) by (intros z Hz; apply Hl; right; exact Hz).
  simpl. destruct (y <<? x) eqn:Hyx; [|reflexivity].
  simpl. rewrite (IH Hl'). simpl.
  destruct (a ==? x) eqn:Hax, (a ==? y) eqn:Hay; try reflexivity.
  exfalso.
  assert (Hya : y ==? a = true) by (apply (cf_sym _ _ consistent a y); assumption).
  pose proof (cf_tied_trans _ _ consistent y a x Hy Ha Hx Hya Hax) as Ht.
  apply tied_not_before in Ht. congruence.
Qed.

Lemma insertion_sort_filter a l :
  In a vs -> incl l vs ->
  filter (fun y => a ==? y) (insertion_sort comparefn l) = filter (fun y => a ==? y) l.
Proof.
  intros Ha. induction l as [|x l IH]; intros Hl; [reflexivity|].
  simpl insertion_sort. rewrite insert_filter.
  - simpl. rewrite IH; [reflexivity|].
    intros z Hz. apply Hl. right. exact Hz.
  - exact Ha.
  - apply Hl. left. reflexivity.
  - intros z Hz. apply Hl. right.
    apply (Permutation_in z (Permutation_sym (insertion_sort_perm l))). exact Hz.
Qed.

Lemma merge_ordered l1 l2 :
  incl l1 vs -> incl l2 vs -> Ordered comparefn l1 -> Ordered comparefn l2 ->
  Ordered comparefn (merge comparefn l1 l2).
Proof.
  revert l2. induction l1 as [|a l1 IH1]; intros l2 H1 H2 O1 O2.
  - rewrite merge_nil_l. exact O2.
  - induction l2 as [|b l2 IH2].
    + rewrite merge_nil_r. exact O1.
    + assert (Ha : In a vs) by (apply H1; left; reflexivity).
      assert (Hb : In b vs) by (apply H2; left; reflexivity).
      assert (H1' : incl l1 vs) by (intros z Hz; apply H1; right; exact Hz).
      assert (H2' : incl l2 vs) by (intros z Hz; apply H2; right; exact Hz).
      pose proof O1 as O1c. pose proof O2 as O2c.
      apply ordered_cons in O1c as [O1' F1]. apply ordered_cons in O2c as [O2' F2].
      rewrite merge_cons. destruct (b <<? a) eqn:Hba.
      * apply ordered_cons. split; [apply IH2; assumption|].
        apply (Permutation_Forall (merge_perm (a :: l1) l2)).
        apply Forall_app. split; [|exact F2].
        assert (Hab : a <<? b = false)
          by (apply (before_asym comparefn vs consistent b a); assumption).
        constructor; [exact Hab|].
        rewrite Forall_forall in F1 |- *. intros z Hz.
        apply (not_before_trans comparefn vs consistent b a z); auto.
      * apply ordered_cons. split; [apply IH1; assumption|].
        apply (Permutation_Forall (merge_perm l1 (b :: l2))).
        apply Forall_app. split; [exact F1|].
        constructor; [exact Hba|].
        rewrite Forall_forall in F2 |- *. intros z Hz.
        apply (not_before_trans comparefn vs consistent a b z); auto.
Qed.

Lemma filter_head (f : A -> bool) x l :
  filter f (x :: l) = if f x then x :: filter f l else filter f l.
Proof. reflexivity. Qed.

Lemma merge_filter c l1 l2 :
  In c vs -> incl l1 vs -> incl l2 vs -> Ordered comparefn l1 ->
  filter (fun y => c ==? y) (merge comparefn l1 l2) =
  filter (fun y => c ==? y) l1 ++ filter (fun y => c ==? y) l2.
Proof.
  intros Hc. revert l2. induction l1 as [|a l1 IH1]; intros l2 H1 H2 O1.
  - rewrite merge_nil_l. reflexivity.
  - induction l2 as [|b l2 IH2].
    + rewrite merge_nil_r, app_nil_r. reflexivity.
    + assert (Ha : In a vs) by (apply H1; left; reflexivity).
      assert (Hb : In b vs) by (apply H2; left; reflexivity).
      assert (H1' : incl l1 vs) by (intros z Hz; apply H1; right; exact Hz).
      assert (H2' : incl l2 vs) by (intros z Hz; apply H2; right; exact Hz).
      rewrite merge_cons. destruct (b <<? a) eqn:Hba.
      * rewrite (filter_head _ b (merge comparefn (a :: l1) l2)).
        rewrite (filter_head _ b l2), (IH2 H2').
        destruct (c ==? b) eqn:Hcb; [|reflexivity].
        assert (Hnone : filter (fun y => c ==? y) (a :: l1) = []).
        { apply ordered_cons in O1 as [_ F1]. rewrite Forall_forall in F1.
          assert (Hall : forall z, In z (a :: l1) -> c ==? z = false).
          { intros z Hz. destruct (c ==? z) eqn:Hcz; [exfalso|reflexivity].
            assert (Hzv : In z vs) by (apply H1; exact Hz).
            assert (Hza : z <<? a = false).
            { destruct Hz as [<-|Hz];
                [apply (before_irrefl comparefn vs consistent); exact Ha
                |apply F1; exact Hz]. }
            assert (Hbc : b ==? c = true)
              by (apply (cf_sym _ _ consistent c b); assumption).
            pose proof (cf_tied_trans _ _ consistent b c z Hb Hc Hzv Hbc Hcz) as Hbz.
            apply tied_not_before in Hbz.
            pose proof (not_before_trans comparefn vs consistent a z b Ha Hzv Hb Hza Hbz).
            congruence. }
          clear -Hall. induction (a :: l1) as [|z l IH]; [reflexivity|].
          simpl. rewrite (Hall z) by (left; reflexivity).
          apply IH. intros y Hy. apply Hall. right. exact Hy. }
        rewrite Hnone. reflexivity.
      * apply ordered_cons in O1 as [O1' _].
        rewrite (filter_head _ a (merge comparefn l1 (b :: l2))).
        rewrite (filter_head _ a l1), (IH1 (b :: l2) H1' H2 O1').
        destruct (c ==? a); reflexivity.
Qed.

Lemma merge_pairs_ordered (runs : list (list A)) :
  Forall (fun r => incl r vs /\ Ordered comparefn r) runs ->
  Forall (fun r => incl r vs /\ Ordered comparefn r) (merge_pairs comparefn runs).
Proof.
  induction runs as [| |r1 r2 rest IH] using list_pair_ind; simpl; intros H; auto.
  inversion H as [|? ? [I1 O1] H']; subst.
  inversion H' as [|? ? [I2 O2] H'']; subst.
  constructor; [|apply IH; exact H''].
  split; [|apply merge_ordered; assumption].
  intros z Hz. apply (Permutation_in z (Permutation_sym (merge_perm r1 r2))) in Hz.
  apply in_app_or in Hz as [Hz|Hz]; auto.
Qed.

Lemma merge_pairs_filter c (runs : list (list A)) :
  In c vs -> Forall (fun r => incl r vs /\ Ordered comparefn r) runs ->
  filter (fun y => c ==? y) (concat (merge_pairs comparefn runs)) =
  filter (fun y => c ==? y) (concat runs).
Proof.
  intros Hc.
  induction runs as [| |r1 r2 rest IH] using list_pair_ind; simpl; intros H; auto.
  inversion H as [|? ? [I1 O1] H']; subst.
  inversion H' as [|? ? [I2 O2] H'']; subst.
  rewrite !filter_app, merge_filter, IH by assumption.
  rewrite app_assoc. reflexivity.
Qed.

Lemma merge_passes_sorted c fuel (runs : list (list A)) :
  In c vs -> Forall (fun r => incl r vs /\ Ordered comparefn r) runs ->
  (length runs <= S fuel)%nat ->
  Ordered comparefn (merge_passes comparefn fuel runs) /\
  filter (fun y => c ==? y) (merge_passes comparefn fuel runs) =
  filter (fun y => c ==? y) (concat runs).
Proof.
  intros Hc. revert runs. induction fuel as [|fuel IH]; intros runs Hruns Hlen.
  - destruct runs as [|r [|r' rest]]; simpl in *; try lia.
    + split; [constructor|reflexivity].
    + inversion Hruns as [|? ? [_ O] _]; subst. rewrite app_nil_r. split; auto.
  - destruct runs as [|r [|r' rest]].
    + split; [constructor|reflexivity].
    + inversion Hruns as [|? ? [_ O] _]; subst. simpl. rewrite app_nil_r. split; auto.
    + change (merge_passes comparefn (S fuel) (r :: r' :: rest))
        with (merge_passes comparefn fuel (merge_pairs comparefn (r :: r' :: rest))).
      destruct (IH (merge_pairs comparefn (r :: r' :: rest))) as [Ho Hf].
      * apply merge_pairs_ordered. exact Hruns.
      * pose proof (merge_pairs_length (r :: r' :: rest)). lia.
      * split; [exact Ho|]. rewrite Hf. apply merge_pairs_filter; assumption.
Qed.

(** A list has at most one Ordered comparefn rearrangement that keeps every class of
    tied values in its order. *)
Lemma stable_sorted_unique (l1 l2 : list A) :
  incl l1 vs -> Permutation l1 l2 -> Ordered comparefn l1 -> Ordered comparefn l2 ->
  (forall a, In a l1 -> filter (fun y => a ==? y) l1 = filter (fun y => a ==? y) l2) ->
  l1 = l2.
Proof.
  revert l2. induction l1 as [|x l1 IH]; intros l2 Hincl Hperm O1 O2 Hf.
  - apply Permutation_nil in Hperm. congruence.
  - destruct l2 as [|y l2].
    { apply Permutation_sym, Permutation_nil in Hperm. discriminate. }
    assert (Hx : In x vs) by (apply Hincl; left; reflexivity).
    assert (Hy1 : In y (x :: l1))
      by (apply (Permutation_in y (Permutation_sym Hperm)); left; reflexivity).
    assert (Hy : In y vs) by (apply Hincl; exact Hy1).
    assert (Hx2 : In x (y :: l2))
      by (apply (Permutation_in x Hperm); left; reflexivity).
    apply ordered_cons in O1 as [O1 F1]. apply ordered_cons in O2 as [O2 F2].
    rewrite Forall_forall in F1, F2.
    assert (Hyx : y <<? x = false).
    { destruct Hy1 as [<-|Hy1];
        [apply (before_irrefl comparefn vs consistent); exact Hx|apply F1; exact Hy1]. }
    assert (Hxy : x <<? y = false).
    { destruct Hx2 as [->|Hx2];
        [apply (before_irrefl comparefn vs consistent); exact Hx|apply F2; exact Hx2]. }
    pose proof (not_before_tied comparefn vs consistent x y Hx Hy Hxy Hyx) as Hxy0.
    pose proof (cf_refl _ _ consistent x Hx) as Hxx.
    pose proof (Hf x (or_introl eq_refl)) as Hfx. simpl in Hfx.
    rewrite Hxx, Hxy0 in Hfx. injection Hfx as Heq _. subst y.
    f_equal. apply IH.
    + intros z Hz. apply Hincl. right. exact Hz.
    + apply (Permutation_cons_inv Hperm).
    + exact O1.
    + exact O2.
    + intros a Ha. pose proof (Hf a (or_intror Ha)) as Hfa. simpl in Hfa.
      destruct (a ==? x); [injection Hfa as Hfa|]; exact Hfa.
Qed.

End OnConsistentValues.
End SortFacts.

Lemma Consistent_incl {A : Type} (comparefn : A -> A -> number) (l l' : list A) :
  incl l' l -> Consistent comparefn l -> Consistent comparefn l'.
Proof.
  intros Hincl [H1 H2 H3 H4 H5]. constructor.
  - intros a Ha. apply H1; auto.
  - intros a b Ha Hb. apply H2; auto.
  - intros a b c Ha Hb Hc. apply H3; auto.
  - intros a b c Ha Hb Hc. apply H4; auto.
  - intros a b c Ha Hb Hc. apply H5; auto.
Qed.

Lemma insertionSort_conforms : EcmaSort insertionSort.
Proof.
  intros A comparefn l. unfold insertionSort. split; [apply insertion_sort_perm|].
  intros Hc. split; [apply insertion_sort_perm|]. split.
  - apply (insertion_sort_ordered comparefn l Hc). apply incl_refl.
  - intros a Ha. apply (insertion_sort_filter comparefn l Hc); [exact Ha|apply incl_refl].
Qed.

Lemma mergeSort_conforms : EcmaSort mergeSort.
Proof.
  intros A comparefn l. unfold mergeSort. split; [apply merge_sort_perm|].
  intros Hc. split; [apply merge_sort_perm|].
  assert (Hruns : Forall (fun r => incl r l /\ Ordered comparefn r)
                    (map (fun x => [x]) l)).
  { rewrite Forall_forall. intros r Hr. apply in_map_iff in Hr as (x & <- & Hx).
    split.
    - intros z [<-|[]]. exact Hx.
    - constructor; constructor. }
  assert (Hlen : (length (map (fun x : A => [x]) l) <= S (length l))%nat)
    by (rewrite length_map; lia).
  split.
  - destruct l as [|x l']; [constructor|].
    apply (merge_passes_sorted comparefn (x :: l') Hc x (length (x :: l')) _
             (or_introl eq_refl) Hruns Hlen).
  - intros a Ha. unfold merge_sort.
    destruct (merge_passes_sorted comparefn l Hc a (length l) _ Ha Hruns Hlen) as [_ Hf].
    etransitivity; [exact Hf|]. rewrite concat_singletons. reflexivity.
Qed.

(** On a list for which the comparison function is consistent, all routines
    that meet the contract return the same array. *)
Lemma ecma_sort_unique (sort1 sort2 : SortRoutine) {A : Type}
    (comparefn : A -> A -> number) (l : list A) :
  EcmaSort sort1 -> EcmaSort sort2 -> Consistent comparefn l ->
  sort1 A comparefn l = sort2 A comparefn l.
Proof.
  intros H1 H2 Hc.
  destruct (H1 A comparefn l) as [_ S1]. destruct (S1 Hc) as (P1 & O1 & F1).
  destruct (H2 A comparefn l) as [_ S2]. destruct (S2 Hc) as (P2 & O2 & F2).
  apply (stable_sorted_unique comparefn l Hc); try assumption.
  - intros z Hz. apply (Permutation_in z (Permutation_sym P1)). exact Hz.
  - rewrite <- P1. exact P2.
  - intros a Ha.
    assert (Hal : In a l) by (apply (Permutation_in a (Permutation_sym P1)); exact Ha).
    etransitivity; [exact (F1 a Hal)|symmetry; exact (F2 a Hal)].
Qed.

Lemma ecma_sort_idempotent (sort : SortRoutine) {A : Type}
    (comparefn : A -> A -> number) (l : list A) :
  EcmaSort sort -> Consistent comparefn l ->
  sort A comparefn (sort A comparefn l) = sort A comparefn l.
Proof.
  intros Hs Hc.
  destruct (Hs A comparefn l) as [_ S1]. destruct (S1 Hc) as (P1 & O1 & F1).
  assert (Hc' : Consistent comparefn (sort A comparefn l)).
  { apply (Consistent_incl comparefn l); [|exact Hc].
    intros z Hz. apply (Permutation_in z (Permutation_sym P1)). exact Hz. }
  destruct (Hs A comparefn (sort A comparefn l)) as [_ S2].
  destruct (S2 Hc') as (P2 & O2 & F2).
  symmetry. apply (stable_sorted_unique comparefn _ Hc'); try assumption.
  - apply incl_refl.
  - intros a Ha. symmetry. exact (F2 a Ha).
Qed.

Lemma StronglySorted_impl {A : Type} (R R' : A -> A -> Prop) (l : list A) :
  (forall x y, In x l -> In y l -> R x y -> R' x y) ->
  StronglySorted R l -> StronglySorted R' l.
Proof.
  induction l as [|x l IH]; intros Himp Hs; [constructor|].
  inversion Hs as [|? ? Hs' Hall]; subst. constructor.
  - apply IH; [|exact Hs']. intros a b Ha Hb. apply Himp; right; assumption.
  - rewrite Forall_forall in Hall |- *. intros y Hy.
    apply Himp; [left; reflexivity|right; exact Hy|apply Hall; exact Hy].
Qed.

(** Sorting by descending key: [(a, b) => key(b) - key(a)] is consistent. *)
Lemma descending_consistent {A : Type} (key : A -> number) (l : list A) :
  Consistent (fun a b => (key b - key a)%Q) l.
Proof.
  constructor; unfold tied, before, after; intros.
  - apply isZero_eq. lra.
  - rewrite isZero_eq in *. lra.
  - rewrite isZero_eq in *. lra.
  - rewrite isNegative_lt in *. lra.
  - rewrite isPositive_lt in *. lra.
Qed.

Lemma filter_all {A : Type} (f : A -> bool) (l : list A) :
  (forall x, In x l -> f x = true) -> filter f l = l.
Proof.
  induction l as [|x l IH]; intros Hall; [reflexivity|].
  simpl. rewrite (Hall x) by (left; reflexivity).
  rewrite IH; [reflexivity|]. intros y Hy. apply Hall. right. exact Hy.
Qed.

Lemma filter_none {A : Type} (f : A -> bool) (l : list A) :
  (forall x, In x l -> f x = false) -> filter f l = [].
Proof.
  induction l as [|x l IH]; intros H; [reflexivity|].
  simpl. rewrite (H x) by (left; reflexivity).
  apply IH. intros y Hy. apply H. right. exact Hy.
Qed.

(** ** Comparison functions that agree on the values of a list *)

Section Agreeing.
Context {A : Type} (f g : A -> A -> number) (l : list A).
Hypothesis agree : forall x y, In x l -> In y l -> f x y = g x y.

Lemma Consistent_agree : Consistent f l -> Consistent g l.
Proof.
  intros [H1 H2 H3 H4 H5]. unfold tied, before, after in *.
  constructor; unfold tied, before, after.
  - intros a Ha. rewrite <- agree by assumption. auto.
  - intros a b Ha Hb. rewrite <- !agree by assumption. auto.
  - intros a b c Ha Hb Hc. rewrite <- !agree by assumption. eauto.
  - intros a b c Ha Hb Hc. rewrite <- !agree by assumption. eauto.
  - intros a b c Ha Hb Hc. rewrite <- !agree by assumption. eauto.
Qed.

Lemma StableSorted_agree (l' : list A) : StableSorted f l l' -> StableSorted g l l'.
Proof.
  intros (Hperm & Hord & Hties).
  assert (Hin : forall x, In x l' -> In x l)
    by (intros x Hx; apply (Permutation_in x (Permutation_sym Hperm)); exact Hx).
  split; [exact Hperm|]. split.
  - revert Hord. apply StronglySorted_impl. intros x y Hx Hy.
    unfold before. rewrite agree by auto. auto.
  - intros a Ha.
    rewrite (filter_ext_in (tied g a) (tied f a) l')
      by (intros x Hx; unfold tied; rewrite agree by auto; reflexivity).
    rewrite (filter_ext_in (tied g a) (tied f a) l)
      by (intros x Hx; unfold tied; rewrite agree by auto; reflexivity).
    apply Hties. exact Ha.
Qed.

End Agreeing.

(** A routine that meets the contract cannot tell two comparison functions
    apart that agree on the array, when they are consistent on it. *)
Lemma ecma_sort_agree (sort : SortRoutine) {A : Type}
    (f g : A -> A -> number) (l : list A) :
  EcmaSort sort ->
  (forall x y, In x l -> In y l -> f x y = g x y) ->
  Consistent g l ->
  sort A f l = sort A g l.
Proof.
  intros Hsort Hagree Hg.
  assert (Hf : Consistent f l).
  { apply (Consistent_agree g f l); [|exact Hg].
    intros x y Hx Hy. symmetry. apply Hagree; assumption. }
  destruct (proj2 (Hsort A f l) Hf) as (P1 & O1 & F1).
  destruct (StableSorted_agree f g l Hagree _ (conj P1 (conj O1 F1))) as (_ & O1' & F1').
  destruct (proj2 (Hsort A g l) Hg) as (P2 & O2 & F2).
  apply (stable_sorted_unique g l Hg); try assumption.
  - intros z Hz. apply (Permutation_in z (Permutation_sym P1)). exact Hz.
  - rewrite <- P1. exact P2.
  - intros a Ha.
    assert (Hal : In a l) by (apply (Permutation_in a (Permutation_sym P1)); exact Ha).
    etransitivity; [exact (F1' a Hal)|symmetry; exact (F2 a Hal)].
Qed.

(** ** The sort of V8 *)

Lemma last_cases {T : Type} (l : list T) : l = [] \/ exists l' e, l = l' ++ [e].
Proof.
  destruct l as [|x l0]; [left; reflexivity|right].
  destruct (exists_last (l := x :: l0)) as (l' & e & Heq); [discriminate|].
  exists l', e. exact Heq.
Qed.

Section V8Facts.
Context {A : Type} (comparefn : A -> A -> number).

Local Notation "x <<? y" := (before comparefn x y) (at level 65, no associativity).

(** Where bisection puts the pivot: behind an element it is not [before],
    in front of an element it is [before]. *)
Lemma binaryInsert_split (fuel : nat) (pivot : A) (l : list A) :
  (length l <= fuel)%nat ->
  exists l1 l2,
    l = l1 ++ l2 /\
    binaryInsert comparefn fuel pivot l = l1 ++ pivot :: l2 /\
    (forall l1' e, l1 = l1' ++ [e] -> (pivot <<? e) = false) /\
    (forall e l2', l2 = e :: l2' -> (pivot <<? e) = true).
Proof.
  revert l. induction fuel as [|fuel IH]; intros l Hlen.
  - destruct l as [|x l0]; [|simpl in Hlen; lia].
    exists [], []. repeat split; try reflexivity.
    + intros l1' e H. destruct l1'; discriminate H.
    + intros e l2' H. discriminate H.
  - destruct l as [|x l0].
    { exists [], []. repeat split; try reflexivity.
      + intros l1' e H. destruct l1'; discriminate H.
      + intros e l2' H. discriminate H. }
    cbn [binaryInsert]. remember (x :: l0) as window eqn:Hwin.
    set (mid := Nat.div2 (length window)).
    assert (Hmid : (mid < length window)%nat).
    { apply Nat.lt_div2. rewrite Hwin. simpl. lia. }
    pose proof (length_skipn mid window) as Hskiplen.
    destruct (skipn mid window) as [|middle upper] eqn:Hskip;
      [simpl in Hskiplen; lia|].
    assert (Hw : window = firstn mid window ++ middle :: upper)
      by (rewrite <- Hskip; symmetry; apply firstn_skipn).
    simpl in Hskiplen.
    destruct (pivot <<? middle) eqn:Hb.
    + destruct (IH (firstn mid window)) as (l1 & l2 & E & R & H1 & H2).
      { rewrite length_firstn. lia. }
      exists l1, (l2 ++ middle :: upper).
      split; [rewrite Hw at 1; rewrite E, <- app_assoc; reflexivity|].
      split; [rewrite R, <- app_assoc; reflexivity|].
      split; [exact H1|].
      intros e l2' Heq. destruct l2 as [|e2 l2'']; simpl in Heq.
      * injection Heq as <- _. exact Hb.
      * injection Heq as <- _. apply (H2 e2 l2''). reflexivity.
    + destruct (IH upper) as (r1 & r2 & E & R & H1 & H2); [lia|].
      exists (firstn mid window ++ middle :: r1), r2.
      split; [rewrite Hw at 1; rewrite E, <- app_assoc; reflexivity|].
      split; [rewrite R, <- app_assoc; reflexivity|].
      split; [|exact H2].
      intros l1' e Heq.
      destruct (last_cases r1) as [->|(r1' & e' & ->)].
      * change (firstn mid window ++ [middle] = l1' ++ [e]) in Heq.
        apply app_inj_tail in Heq as [_ <-]. exact Hb.
      * change (firstn mid window ++ middle :: r1' ++ [e'])
          with (firstn mid window ++ (middle :: r1') ++ [e']) in Heq.
        rewrite app_assoc in Heq.
        apply app_inj_tail in Heq as [_ <-]. apply (H1 r1' e'). reflexivity.
Qed.

Lemma binaryInsert_perm (fuel : nat) (pivot : A) (l : list A) :
  (length l <= fuel)%nat -> Permutation (pivot :: l) (binaryInsert comparefn fuel pivot l).
Proof.
  intros Hlen. destruct (binaryInsert_split fuel pivot l Hlen) as (l1 & l2 & -> & -> & _).
  apply Permutation_middle.
Qed.

Lemma noDescent_tail (x : A) (l : list A) :
  noDescent comparefn (x :: l) = true -> noDescent comparefn l = true.
Proof.
  destruct l as [|y l']; [reflexivity|]. cbn [noDescent].
  intros H. apply andb_prop in H as [_ H]. exact H.
Qed.

Lemma noDescent_insert (l1 l2 : list A) (p : A) :
  noDescent comparefn (l1 ++ l2) = true ->
  (forall l1' e, l1 = l1' ++ [e] -> (p <<? e) = false) ->
  (forall e l2', l2 = e :: l2' -> (e <<? p) = false) ->
  noDescent comparefn (l1 ++ p :: l2) = true.
Proof.
  induction l1 as [|x l1 IH]; intros Hnd H1 H2.
  - simpl in *. destruct l2 as [|e l2']; [reflexivity|].
    cbn [noDescent]. rewrite (H2 e l2' eq_refl). exact Hnd.
  - destruct l1 as [|y l1'].
    + cbn [app] in *. change (noDescent comparefn (x :: p :: l2) = true).
      cbn [noDescent]. rewrite (H1 [] x eq_refl). cbn [negb andb].
      destruct l2 as [|e l2']; [reflexivity|].
      rewrite (H2 e l2' eq_refl). cbn [negb andb].
      apply (noDescent_tail x). exact Hnd.
    + change (noDescent comparefn (x :: y :: (l1' ++ p :: l2)) = true).
      change (noDescent comparefn (x :: y :: (l1' ++ l2)) = true) in Hnd.
      cbn [noDescent] in Hnd |- *.
      apply andb_prop in Hnd as [Hxy Hnd]. rewrite Hxy. cbn [andb].
      apply IH; [exact Hnd| |exact H2].
      intros l1'' e Heq. apply (H1 (x :: l1'') e). rewrite Heq. reflexivity.
Qed.

Lemma binaryInsert_noDescent (fuel : nat) (pivot : A) (l : list A) :
  (length l <= fuel)%nat ->
  (forall e, In e l -> (pivot <<? e) = true -> (e <<? pivot) = false) ->
  noDescent comparefn l = true ->
  noDescent comparefn (binaryInsert comparefn fuel pivot l) = true.
Proof.
  intros Hlen Hasym Hnd.
  destruct (binaryInsert_split fuel pivot l Hlen) as (l1 & l2 & -> & -> & H1 & H2).
  apply noDescent_insert; [exact Hnd|exact H1|].
  intros e l2' ->. apply Hasym; [|apply (H2 e l2'); reflexivity].
  apply in_or_app. right. left. reflexivity.
Qed.

Lemma binaryInsertionSort_perm (rest sorted : list A) :
  Permutation (sorted ++ rest) (binaryInsertionSort comparefn sorted rest).
Proof.
  revert sorted. induction rest as [|pivot rest IH]; intros sorted.
  - rewrite app_nil_r. reflexivity.
  - unfold binaryInsertionSort. cbn [fold_left].
    etransitivity; [|apply IH].
    etransitivity; [symmetry; apply Permutation_middle|].
    change (Permutation ((pivot :: sorted) ++ rest)
              (binaryInsert comparefn (length sorted) pivot sorted ++ rest)).
    apply Permutation_app_tail. apply binaryInsert_perm. lia.
Qed.

Lemma binaryInsertionSort_noDescent (rest sorted : list A) :
  (forall x y, In x (sorted ++ rest) -> In y (sorted ++ rest) ->
     (x <<? y) = true -> (y <<? x) = false) ->
  noDescent comparefn sorted = true ->
  noDescent comparefn (binaryInsertionSort comparefn sorted rest) = true.
Proof.
  revert sorted. induction rest as [|pivot rest IH]; intros sorted Hasym Hnd.
  - exact Hnd.
  - unfold binaryInsertionSort. cbn [fold_left]. apply IH.
    + intros x y Hx Hy. apply Hasym.
      * apply in_app_or in Hx as [Hx|Hx].
        -- apply (Permutation_in x (Permutation_sym (binaryInsert_perm _ pivot sorted (le_n _)))) in Hx.
           destruct Hx as [<-|Hx]; apply in_or_app; [right; left; reflexivity|left; exact Hx].
        -- apply in_or_app. right. right. exact Hx.
      * apply in_app_or in Hy as [Hy|Hy].
        -- apply (Permutation_in y (Permutation_sym (binaryInsert_perm _ pivot sorted (le_n _)))) in Hy.
           destruct Hy as [<-|Hy]; apply in_or_app; [right; left; reflexivity|left; exact Hy].
        -- apply in_or_app. right. right. exact Hy.
    + apply binaryInsert_noDescent; [lia| |exact Hnd].
      intros e He. apply Hasym; apply in_or_app; [right; left; reflexivity|left; exact He].
Qed.

Lemma runFrom_spec (isDescending : bool) (previous : A) (l : list A) :
  l = fst (runFrom comparefn isDescending previous l)
      ++ snd (runFrom comparefn isDescending previous l) /\
  (if isDescending
   then allDescents comparefn (previous :: fst (runFrom comparefn isDescending previous l))
   else noDescent comparefn (previous :: fst (runFrom comparefn isDescending previous l)))
  = true.
Proof.
  revert previous. induction l as [|current l IH]; intros previous.
  - simpl. destruct isDescending; split; reflexivity.
  - cbn [runFrom].
    destruct (Bool.eqb (current <<? previous) isDescending) eqn:Hdir.
    + specialize (IH current).
      destruct (runFrom comparefn isDescending current l) as [run rest].
      cbn [fst snd] in *. destruct IH as [IH1 IH2].
      split; [simpl; rewrite <- IH1; reflexivity|].
      apply eqb_prop in Hdir. destruct isDescending.
      * cbn [allDescents]. rewrite Hdir. exact IH2.
      * cbn [noDescent]. rewrite Hdir. exact IH2.
    + cbn [fst snd]. split; [reflexivity|]. destruct isDescending; reflexivity.
Qed.

Lemma runFrom_ascending (previous : A) (l : list A) :
  noDescent comparefn (previous :: l) = true ->
  runFrom comparefn false previous l = (l, []).
Proof.
  revert previous. induction l as [|current l IH]; intros previous Hnd; [reflexivity|].
  cbn [noDescent] in Hnd. apply andb_prop in Hnd as [Hstep Hnd].
  cbn [runFrom]. apply negb_true_iff in Hstep. rewrite Hstep. cbn [Bool.eqb].
  rewrite (IH current Hnd). reflexivity.
Qed.

Lemma allDescents_rev (l : list A) :
  (forall x y, In x l -> In y l -> (x <<? y) = true -> (y <<? x) = false) ->
  allDescents comparefn l = true ->
  noDescent comparefn (rev l) = true.
Proof.
  induction l as [|x l IH]; intros Hasym Hd; [reflexivity|].
  cbn [rev].
  assert (Hrest : noDescent comparefn (rev l) = true).
  { apply IH.
    - intros a b Ha Hb. apply Hasym; right; assumption.
    - destruct l as [|y l']; [reflexivity|].
      cbn [allDescents] in Hd. apply andb_prop in Hd as [_ Hd]. exact Hd. }
  apply noDescent_insert.
  - rewrite app_nil_r. exact Hrest.
  - intros l1' e Heq. destruct l as [|y l']; [destruct l1'; discriminate Heq|].
    cbn [rev] in Heq. apply app_inj_tail in Heq as [_ <-].
    cbn [allDescents] in Hd. apply andb_prop in Hd as [Hyx _].
    apply Hasym; [right; left; reflexivity|left; reflexivity|exact Hyx].
  - intros e l2' Heq. discriminate Heq.
Qed.

Lemma countAndMakeRun_perm (l : list A) :
  Permutation l (fst (countAndMakeRun comparefn l) ++ snd (countAndMakeRun comparefn l)).
Proof.
  destruct l as [|x0 [|x1 l']]; try (simpl; reflexivity).
  cbn [countAndMakeRun].
  destruct (runFrom_spec (x1 <<? x0) x1 l') as [Hsplit _].
  destruct (runFrom comparefn (x1 <<? x0) x1 l') as [run rest].
  cbn [fst snd] in *. rewrite Hsplit at 1.
  change (x0 :: x1 :: run ++ rest) with ((x0 :: x1 :: run) ++ rest).
  apply Permutation_app_tail.
  destruct (x1 <<? x0); [apply Permutation_rev|reflexivity].
Qed.

Lemma countAndMakeRun_noDescent (l : list A) :
  (forall x y, In x l -> In y l -> (x <<? y) = true -> (y <<? x) = false) ->
  noDescent comparefn (fst (countAndMakeRun comparefn l)) = true.
Proof.
  intros Hasym. destruct l as [|x0 [|x1 l']]; try reflexivity.
  cbn [countAndMakeRun].
  destruct (runFrom_spec (x1 <<? x0) x1 l') as [Hsplit Hrun].
  destruct (runFrom comparefn (x1 <<? x0) x1 l') as [run rest].
  cbn [fst snd] in *.
  destruct (x1 <<? x0) eqn:Hfirst.
  - apply allDescents_rev.
    + intros a b Ha Hb. apply Hasym; rewrite Hsplit.
      * destruct Ha as [<-|[<-|Ha]]; [left; reflexivity|right; left; reflexivity|].
        right. right. apply in_or_app. left. exact Ha.
      * destruct Hb as [<-|[<-|Hb]]; [left; reflexivity|right; left; reflexivity|].
        right. right. apply in_or_app. left. exact Hb.
    + cbn [allDescents]. rewrite Hfirst. exact Hrun.
  - cbn [noDescent]. rewrite Hfirst. exact Hrun.
Qed.

Lemma v8_sort_perm (l : list A) : Permutation l (v8_sort comparefn l).
Proof.
  unfold v8_sort. pose proof (countAndMakeRun_perm l) as Hrun.
  destruct (countAndMakeRun comparefn l) as [run rest]. cbn [fst snd] in Hrun.
  etransitivity; [exact Hrun|apply binaryInsertionSort_perm].
Qed.

(** With a comparison function that never says [before] both ways, what V8
    returns has no descent. *)
Lemma v8_sort_noDescent (l : list A) :
  (forall x y, In x l -> In y l -> (x <<? y) = true -> (y <<? x) = false) ->
  noDescent comparefn (v8_sort comparefn l) = true.
Proof.
  intros Hasym. unfold v8_sort.
  pose proof (countAndMakeRun_perm l) as Hperm.
  pose proof (countAndMakeRun_noDescent l Hasym) as Hrun.
  destruct (countAndMakeRun comparefn l) as [run rest]. cbn [fst snd] in *.
  apply binaryInsertionSort_noDescent; [|exact Hrun].
  intros x y Hx Hy. apply Hasym.
  - apply (Permutation_in x (Permutation_sym Hperm)). exact Hx.
  - apply (Permutation_in y (Permutation_sym Hperm)). exact Hy.
Qed.

(** An array without a descent is one run, and V8 returns it as it is. *)
Lemma v8_sort_fixed (l : list A) :
  noDescent comparefn l = true -> v8_sort comparefn l = l.
Proof.
  intros Hnd. unfold v8_sort.
  destruct l as [|x0 [|x1 l']]; try reflexivity.
  cbn [countAndMakeRun].
  pose proof Hnd as Hnd'. cbn [noDescent] in Hnd'.
  apply andb_prop in Hnd' as [Hfirst Hrest]. apply negb_true_iff in Hfirst.
  rewrite Hfirst, (runFrom_ascending x1 l' Hrest). reflexivity.
Qed.

Lemma v8_sort_idempotent (l : list A) :
  (forall x y, In x l -> In y l -> (x <<? y) = true -> (y <<? x) = false) ->
  v8_sort comparefn (v8_sort comparefn l) = v8_sort comparefn l.
Proof.
  intros Hasym. apply v8_sort_fixed. apply v8_sort_noDescent. exact Hasym.
Qed.

(** In an array without a descent the elements are in the order of any
    transitive relation that holds whenever the second of two elements is
    not [before] the first. *)
Lemma noDescent_StronglySorted (R : A -> A -> Prop) (l : list A) :
  (forall x y z, R x y -> R y z -> R x z) ->
  (forall x y, In x l -> In y l -> (y <<? x) = false -> R x y) ->
  noDescent comparefn l = true ->
  StronglySorted R l.
Proof.
  intros Htrans. induction l as [|x l IH]; intros HR Hnd; [constructor|].
  assert (Hl : StronglySorted R l).
  { apply IH; [|apply (noDescent_tail x); exact Hnd].
    intros a b Ha Hb. apply HR; right; assumption. }
  constructor; [exact Hl|].
  destruct l as [|y l']; [constructor|].
  cbn [noDescent] in Hnd. apply andb_prop in Hnd as [Hxy _].
  apply negb_true_iff in Hxy.
  assert (Rxy : R x y) by (apply HR; [left; reflexivity|right; left; reflexivity|exact Hxy]).
  constructor; [exact Rxy|].
  inversion Hl as [|? ? _ Hall]; subst.
  rewrite Forall_forall in Hall |- *. intros z Hz.
  apply (Htrans x y z Rxy). apply Hall. exact Hz.
Qed.

End V8Facts.

(** ** V8 meets the ECMAScript contract *)

Section V8Conforms.
Context {A : Type} (comparefn : A -> A -> number).
Variable vs : list A.
Hypothesis consistent : Consistent comparefn vs.

Local Notation "x <<? y" := (before comparefn x y) (at level 65, no associativity).
Local Notation "x ==? y" := (tied comparefn x y) (at level 65, no associativity).

Lemma ordered_noDescent (l : list A) :
  Ordered comparefn l -> noDescent comparefn l = true.
Proof.
  induction l as [|x l IH]; intros Hord; [reflexivity|].
  inversion Hord as [|? ? Hl Hall]; subst.
  destruct l as [|y l']; [reflexivity|].
  cbn [noDescent]. inversion Hall as [|? ? Hxy _]; subst.
  rewrite Hxy. apply IH. exact Hl.
Qed.

Lemma noDescent_ordered (l : list A) :
  incl l vs -> noDescent comparefn l = true -> Ordered comparefn l.
Proof.
  intros Hincl Hnd.
  apply (StronglySorted_impl (fun x y => In x vs /\ In y vs /\ (y <<? x) = false)).
  { intros x y _ _ (_ & _ & H). exact H. }
  apply (noDescent_StronglySorted comparefn); [| |exact Hnd].
  - intros x y z (Hx & Hy & Hxy) (_ & Hz & Hyz).
    split; [exact Hx|]. split; [exact Hz|].
    apply (not_before_trans comparefn vs consistent x y z); assumption.
  - intros x y Hx Hy Hxy. auto.
Qed.

Lemma ordered_suffix (l1 l2 : list A) :
  Ordered comparefn (l1 ++ l2) -> Ordered comparefn l2.
Proof.
  induction l1 as [|x l1 IH]; intros H; [exact H|].
  inversion H; subst. apply IH. assumption.
Qed.

Lemma binaryInsert_ordered (fuel : nat) (pivot : A) (l : list A) :
  In pivot vs -> incl l vs -> (length l <= fuel)%nat ->
  Ordered comparefn l -> Ordered comparefn (binaryInsert comparefn fuel pivot l).
Proof.
  intros Hp Hl Hlen Hord. apply noDescent_ordered.
  - intros z Hz.
    apply (Permutation_in z (Permutation_sym (binaryInsert_perm comparefn fuel pivot l Hlen)))
      in Hz.
    destruct Hz as [<-|Hz]; auto.
  - apply binaryInsert_noDescent; [exact Hlen| |apply ordered_noDescent; exact Hord].
    intros e He. apply (before_asym comparefn vs consistent); auto.
Qed.

(** The pivot comes to stand behind every element it is tied with. *)
Lemma binaryInsert_filter (a : A) (fuel : nat) (pivot : A) (l : list A) :
  In a vs -> In pivot vs -> incl l vs -> (length l <= fuel)%nat ->
  Ordered comparefn l ->
  filter (fun y => a ==? y) (binaryInsert comparefn fuel pivot l)
  = filter (fun y => a ==? y) (l ++ [pivot]).
Proof.
  intros Ha Hp Hl Hlen Hord.
  destruct (binaryInsert_split comparefn fuel pivot l Hlen) as (l1 & l2 & -> & -> & _ & H2).
  rewrite !filter_app. cbn [filter].
  destruct (a ==? pivot) eqn:Hap; [|rewrite app_nil_r; reflexivity].
  rewrite <- app_assoc. f_equal.
  assert (Hnone : filter (fun y => a ==? y) l2 = []).
  { apply filter_none. intros e He.
    assert (Hpe : (pivot <<? e) = true).
    { destruct l2 as [|h l2']; [destruct He|].
      pose proof (H2 h l2' eq_refl) as Hph.
      destruct He as [<-|He]; [exact Hph|].
      apply ordered_suffix in Hord. inversion Hord as [|? ? _ Hall]; subst.
      rewrite Forall_forall in Hall. specialize (Hall e He).
      destruct (pivot <<? e) eqn:Hpe; [reflexivity|exfalso].
      assert (Hh : In h vs) by (apply Hl, in_or_app; right; left; reflexivity).
      assert (Hein : In e vs) by (apply Hl, in_or_app; right; right; exact He).
      pose proof (not_before_trans comparefn vs consistent h e pivot Hh Hein Hp Hall Hpe).
      congruence. }
    destruct (a ==? e) eqn:Hae; [exfalso|reflexivity].
    assert (Hein : In e vs) by (apply Hl, in_or_app; right; exact He).
    pose proof (cf_sym _ _ consistent a e Ha Hein Hae) as Hea.
    rewrite (tied_class comparefn vs consistent a pivot e Ha Hp Hein Hap) in Hea.
    pose proof (cf_sym _ _ consistent e pivot Hein Hp Hea) as Hpe'.
    apply (tied_not_before comparefn) in Hpe'. congruence. }
  rewrite Hnone. reflexivity.
Qed.

Lemma binaryInsertionSort_ordered (rest sorted : list A) :
  incl (sorted ++ rest) vs -> Ordered comparefn sorted ->
  Ordered comparefn (binaryInsertionSort comparefn sorted rest).
Proof.
  revert sorted. induction rest as [|pivot rest IH]; intros sorted Hincl Hord.
  - exact Hord.
  - unfold binaryInsertionSort. cbn [fold_left].
    assert (Hp : In pivot vs) by (apply Hincl, in_or_app; right; left; reflexivity).
    assert (Hs : incl sorted vs) by (intros z Hz; apply Hincl, in_or_app; left; exact Hz).
    assert (Hr : incl rest vs)
      by (intros z Hz; apply Hincl, in_or_app; right; right; exact Hz).
    apply IH; [|apply binaryInsert_ordered; auto].
    intros z Hz. apply in_app_or in Hz as [Hz|Hz]; [|apply Hr; exact Hz].
    apply (Permutation_in z (Permutation_sym
             (binaryInsert_perm comparefn _ pivot sorted (le_n _)))) in Hz.
    destruct Hz as [<-|Hz]; auto.
Qed.

Lemma binaryInsertionSort_filter (a : A) (rest sorted : list A) :
  In a vs -> incl (sorted ++ rest) vs -> Ordered comparefn sorted ->
  filter (fun y => a ==? y) (binaryInsertionSort comparefn sorted rest)
  = filter (fun y => a ==? y) (sorted ++ rest).
Proof.
  intros Ha. revert sorted. induction rest as [|pivot rest IH]; intros sorted Hincl Hord.
  - rewrite app_nil_r. reflexivity.
  - unfold binaryInsertionSort. cbn [fold_left].
    assert (Hp : In pivot vs) by (apply Hincl, in_or_app; right; left; reflexivity).
    assert (Hs : incl sorted vs) by (intros z Hz; apply Hincl, in_or_app; left; exact Hz).
    assert (Hr : incl rest vs)
      by (intros z Hz; apply Hincl, in_or_app; right; right; exact Hz).
    etransitivity.
    + apply IH; [|apply binaryInsert_ordered; auto].
      intros z Hz. apply in_app_or in Hz as [Hz|Hz]; [|apply Hr; exact Hz].
      apply (Permutation_in z (Permutation_sym
               (binaryInsert_perm comparefn _ pivot sorted (le_n _)))) in Hz.
      destruct Hz as [<-|Hz]; auto.
    + rewrite filter_app, (binaryInsert_filter a _ pivot sorted) by auto.
      rewrite <- filter_app, <- app_assoc. reflexivity.
Qed.

Lemma allDescents_head (x : A) (l : list A) :
  incl (x :: l) vs -> allDescents comparefn (x :: l) = true ->
  Forall (fun e => (e <<? x) = true) l.
Proof.
  revert x. induction l as [|y l IH]; intros x Hincl Hd; [constructor|].
  cbn [allDescents] in Hd. apply andb_prop in Hd as [Hyx Hd].
  assert (Hx : In x vs) by (apply Hincl; left; reflexivity).
  assert (Hy : In y vs) by (apply Hincl; right; left; reflexivity).
  constructor; [exact Hyx|].
  assert (Hl : incl (y :: l) vs) by (intros z Hz; apply Hincl; right; exact Hz).
  specialize (IH y Hl Hd). rewrite Forall_forall in IH |- *.
  intros e He.
  apply (cf_before_trans _ _ consistent e y x); auto.
  apply Hl. right. exact He.
Qed.

(** Of a strictly descending run at most one element is tied with a given
    value, so reversing the run moves no two tied elements past each other. *)
Lemma allDescents_filter_rev (a : A) (l : list A) :
  In a vs -> incl l vs -> allDescents comparefn l = true ->
  filter (fun y => a ==? y) (rev l) = filter (fun y => a ==? y) l.
Proof.
  intros Ha. induction l as [|x l IH]; intros Hincl Hd; [reflexivity|].
  assert (Hx : In x vs) by (apply Hincl; left; reflexivity).
  assert (Hl : incl l vs) by (intros z Hz; apply Hincl; right; exact Hz).
  cbn [rev]. rewrite filter_app, IH; [|exact Hl|].
  2:{ destruct l as [|y l']; [reflexivity|].
      cbn [allDescents] in Hd. apply andb_prop in Hd as [_ Hd]. exact Hd. }
  cbn [filter]. destruct (a ==? x) eqn:Hax; [|apply app_nil_r].
  assert (Hnone : filter (fun y => a ==? y) l = []).
  { apply filter_none. intros e He.
    pose proof (allDescents_head x l Hincl Hd) as Hall.
    rewrite Forall_forall in Hall. specialize (Hall e He).
    destruct (a ==? e) eqn:Hae; [exfalso|reflexivity].
    assert (Hein : In e vs) by (apply Hl; exact He).
    pose proof (cf_sym _ _ consistent a e Ha Hein Hae) as Hea.
    rewrite (tied_class comparefn vs consistent a x e Ha Hx Hein Hax) in Hea.
    apply (tied_not_before comparefn) in Hea. congruence. }
  rewrite Hnone. reflexivity.
Qed.

Lemma v8_sort_stable (l : list A) :
  incl l vs -> StableSorted comparefn l (v8_sort comparefn l).
Proof.
  intros Hincl. split; [apply v8_sort_perm|].
  assert (Hasym : forall x y, In x l -> In y l -> (x <<? y) = true -> (y <<? x) = false)
    by (intros x y Hx Hy; apply (before_asym comparefn vs consistent); auto).
  pose proof (countAndMakeRun_perm comparefn l) as Hperm.
  pose proof (countAndMakeRun_noDescent comparefn l Hasym) as Hrun.
  assert (Hties : forall a, In a vs ->
            filter (fun y => a ==? y)
              (fst (countAndMakeRun comparefn l) ++ snd (countAndMakeRun comparefn l))
            = filter (fun y => a ==? y) l).
  { intros a Ha. destruct l as [|x0 [|x1 l']]; try reflexivity.
    cbn [countAndMakeRun].
    destruct (runFrom_spec comparefn (x1 <<? x0) x1 l') as [Hsplit Hchain].
    destruct (runFrom comparefn (x1 <<? x0) x1 l') as [run rest].
    cbn [fst snd] in *. rewrite Hsplit at 1.
    change (x0 :: x1 :: run ++ rest) with ((x0 :: x1 :: run) ++ rest).
    rewrite !filter_app. f_equal.
    destruct (x1 <<? x0) eqn:Hfirst; [|reflexivity].
    apply allDescents_filter_rev; [exact Ha| |].
    - intros z Hz. apply Hincl. rewrite Hsplit.
      destruct Hz as [<-|[<-|Hz]]; [left; reflexivity|right; left; reflexivity|].
      right. right. apply in_or_app. left. exact Hz.
    - cbn [allDescents]. rewrite Hfirst. exact Hchain. }
  unfold v8_sort.
  destruct (countAndMakeRun comparefn l) as [run rest]. cbn [fst snd] in *.
  assert (Hall : incl (run ++ rest) vs).
  { intros z Hz. apply Hincl. apply (Permutation_in z (Permutation_sym Hperm)). exact Hz. }
  assert (Hord : Ordered comparefn run).
  { apply noDescent_ordered; [|exact Hrun].
    intros z Hz. apply Hall, in_or_app. left. exact Hz. }
  split.
  - apply binaryInsertionSort_ordered; assumption.
  - intros a Ha.
    etransitivity; [apply binaryInsertionSort_filter; auto|].
    apply Hties. apply Hincl. exact Ha.
Qed.

End V8Conforms.

Lemma v8Sort_conforms : EcmaSort v8Sort.
Proof.
  intros A comparefn l. unfold v8Sort. split; [apply v8_sort_perm|].
  intros Hc. apply (v8_sort_stable comparefn l Hc). apply incl_refl.
Qed.

(** ** AIService.suggestTaskReorder *)

(** A comparison function that returns 0, or NaN, for every pair of the
    array leaves the array as it is. *)
Lemma sort_all_tied (sort : SortRoutine) {A : Type}
    (comparefn : A -> A -> number) (l : list A) :
  EcmaSort sort ->
  (forall x y, In x l -> In y l -> tied comparefn x y = true) ->
  sort A comparefn l = l.
Proof.
  intros Hsort Hzero.
  assert (Hnot : forall x y, In x l -> In y l ->
            before comparefn x y = false /\ after comparefn x y = false).
  { intros x y Hx Hy. specialize (Hzero x y Hx Hy).
    destruct (compare_cases comparefn x y) as [(_ & E & _)|[(B & _ & F)|(_ & E & _)]];
      try congruence. split; assumption. }
  assert (Hc : Consistent comparefn l).
  { constructor; intros; auto.
    - destruct (Hnot a b) as [Hb _]; auto. congruence.
    - destruct (Hnot a b) as [_ Hb]; auto. congruence. }
  destruct (proj2 (Hsort A comparefn l) Hc) as (Hperm & _ & Hties).
  destruct l as [|a l'].
  - apply Permutation_nil in Hperm. exact Hperm.
  - specialize (Hties a (or_introl eq_refl)).
    rewrite (filter_all (tied comparefn a) (a :: l')) in Hties
      by (intros x Hx; apply Hzero; [left; reflexivity|exact Hx]).
    rewrite filter_all in Hties; [exact Hties|].
    intros x Hx. apply Hzero; [left; reflexivity|].
    apply (Permutation_in x (Permutation_sym Hperm)). exact Hx.
Qed.

Lemma inherited_cases (k : string) :
  inherited k = true -> In k objectPrototype.
Proof.
  unfold inherited. intros H. apply existsb_exists in H as (name & Hin & Heq).
  apply String.eqb_eq in Heq. subst name. exact Hin.
Qed.

(** A name of Object.prototype is in neither table, so the lookup finds the
    member, which is truthy: the fallback of [||] is not taken. *)
Lemma priorityWeights_inherited (k : string) :
  inherited k = true ->
  orElse (lookupKey priorityWeights (Some k)) 2%Q = Builtin [k].
Proof.
  intros H. pose proof (inherited_cases k H) as Hin.
  unfold objectPrototype in Hin. simpl in Hin.
  repeat (destruct Hin as [<-|Hin]; [reflexivity|]). contradiction.
Qed.

Lemma priorityWeights_lookup (p : option string) :
  plainKey p = true ->
  orElse (lookupKey priorityWeights p) 2%Q = Num (spec_priorityWeight p).
Proof.
  intros Hplain. destruct p as [s|]; [|reflexivity].
  unfold priorityWeights, spec_priorityWeight, lookupKey.
  destruct (String.eqb_spec s "urgent") as [->|H1]; [reflexivity|].
  destruct (String.eqb_spec s "high") as [->|H2]; [reflexivity|].
  destruct (String.eqb_spec s "low") as [->|H3]; [reflexivity|].
  destruct (String.eqb_spec s "medium") as [->|H4]; [reflexivity|].
  rewrite !lookup_insert_ne by congruence.
  rewrite lookup_singleton_ne by congruence.
  simpl in Hplain. apply negb_true_iff in Hplain. rewrite Hplain. reflexivity.
Qed.

Lemma priorityOrder_lookup (p : option string) :
  plainKey p = true ->
  orElse (lookupKey priorityOrder p) 2%Q = Num (spec_priorityWeight p).
Proof. exact (priorityWeights_lookup p). Qed.

Lemma energyRow_lookup (high medium low : number) (e : option string) :
  isZero high = false -> isZero medium = false -> isZero low = false ->
  plainKey e = true ->
  orElse (lookupKey ({[ "high" := high; "medium" := medium; "low" := low ]}
                       : gmap string number) e) 1%Q
  = Num (spec_energyRow high medium low e).
Proof.
  intros Hh Hm Hl Hplain. destruct e as [s|]; [|reflexivity].
  unfold spec_energyRow, lookupKey, orElse.
  destruct (String.eqb_spec s "high") as [->|H1].
  { rewrite lookup_insert_eq. simpl. rewrite Hh. reflexivity. }
  rewrite lookup_insert_ne by congruence.
  destruct (String.eqb_spec s "medium") as [->|H2].
  { rewrite lookup_insert_eq. simpl. rewrite Hm. reflexivity. }
  rewrite lookup_insert_ne by congruence.
  destruct (String.eqb_spec s "low") as [->|H3].
  { rewrite lookup_singleton_eq. simpl. rewrite Hl. reflexivity. }
  rewrite lookup_singleton_ne by congruence.
  simpl in Hplain. apply negb_true_iff in Hplain. rewrite Hplain. reflexivity.
Qed.

Lemma getEnergyMatchScore_spec (task : Task) (userEnergy : string) :
  inherited userEnergy = false ->
  plainKey (energyRequired task) = true ->
  getEnergyMatchScore task userEnergy
  = Returns (Num (spec_energyMatchScore userEnergy (energyRequired task))).
Proof.
  intros Huser Hplain.
  unfold getEnergyMatchScore, spec_energyMatchScore, energyMap.
  destruct (String.eqb_spec userEnergy "high") as [->|H1].
  { rewrite lookup_insert_eq. f_equal. apply energyRow_lookup; auto. }
  rewrite lookup_insert_ne by congruence.
  destruct (String.eqb_spec userEnergy "medium") as [->|H2].
  { rewrite lookup_insert_eq. f_equal. apply energyRow_lookup; auto. }
  rewrite lookup_insert_ne by congruence.
  destruct (String.eqb_spec userEnergy "low") as [->|H3].
  { rewrite lookup_singleton_eq. f_equal. apply energyRow_lookup; auto. }
  rewrite lookup_singleton_ne by congruence. rewrite Huser. reflexivity.
Qed.

Lemma ltNumber_hours (ms hours : Z) :
  ltNumber (inject_Z ms / inject_Z (1000 * 60 * 60))%Q (inject_Z hours)
  = (ms <? hours * 3600000)%Z.
Proof.
  unfold ltNumber, Qle_bool, Qdiv, Qinv, Qmult, inject_Z; simpl.
  change (Z.pos (1 * (1000 * 60 * 60))) with 3600000%Z.
  destruct (Z.ltb_spec ms (hours * 3600000)),
    (Z.leb_spec (hours * 3600000) (ms * 1 * 1)); try reflexivity; lia.
Qed.

Lemma getDeadlineUrgencyScore_spec (task : Task) (currentTime : Z) :
  getDeadlineUrgencyScore task currentTime
  = spec_deadlineUrgencyScore currentTime (deadline task).
Proof.
  unfold getDeadlineUrgencyScore, spec_deadlineUrgencyScore.
  destruct (deadline task) as [d|]; [|reflexivity].
  change 2%Q with (inject_Z 2). change 24%Q with (inject_Z 24).
  rewrite !ltNumber_hours. reflexivity.
Qed.

Lemma calculateScore_spec (currentTime : Z) (userEnergy : string) (task : Task) :
  inherited userEnergy = false ->
  plainTask task = true ->
  calculateScore currentTime userEnergy task
  = Returns (Num (spec_score currentTime userEnergy task)).
Proof.
  intros Huser Hplain. apply andb_prop in Hplain as [Hp He].
  unfold calculateScore, spec_score.
  rewrite (priorityWeights_lookup _ Hp), (getEnergyMatchScore_spec _ _ Huser He),
    getDeadlineUrgencyScore_spec.
  reflexivity.
Qed.

(** The score of a task whose priority names a member of Object.prototype
    is NaN. *)
Lemma calculateScore_inherited (currentTime : Z) (userEnergy : string) (task : Task)
    (k : string) :
  inherited userEnergy = false ->
  priority task = Some k -> inherited k = true ->
  plainKey (energyRequired task) = true ->
  calculateScore currentTime userEnergy task = Returns NaN.
Proof.
  intros Huser Hk Hin He. unfold calculateScore.
  rewrite Hk, (priorityWeights_inherited k Hin), (getEnergyMatchScore_spec _ _ Huser He).
  reflexivity.
Qed.

Lemma scoreDifference_spec (currentTime : Z) (userEnergy : string) (a b : Task) :
  inherited userEnergy = false ->
  plainTask a = true -> plainTask b = true ->
  sortCompare (scoreDifference currentTime userEnergy) a b
  = (spec_score currentTime userEnergy b - spec_score currentTime userEnergy a)%Q.
Proof.
  intros Huser Ha Hb. unfold sortCompare, scoreDifference.
  rewrite (calculateScore_spec _ _ a Huser Ha), (calculateScore_spec _ _ b Huser Hb).
  reflexivity.
Qed.

Lemma suggestTaskReorder_spec (sort : SortRoutine)
    (tasks : list Task) (currentTime : Z) (userEnergy : string) :
  EcmaSort sort ->
  inherited userEnergy = false ->
  Forall (fun task => plainTask task = true) tasks ->
  suggestTaskReorder sort tasks currentTime userEnergy
  = sort Task (fun a b => (spec_score currentTime userEnergy b
                           - spec_score currentTime userEnergy a)%Q) tasks.
Proof.
  intros Hsort Huser Hplain. unfold suggestTaskReorder.
  rewrite Forall_forall in Hplain.
  apply ecma_sort_agree; [exact Hsort| |apply descending_consistent].
  intros x y Hx Hy. apply scoreDifference_spec; auto.
Qed.

(** Sorting by [(a, b) => key(b) - key(a)] with a routine that meets the
    contract: descending keys, equal keys in their original order. *)
Lemma sort_descending (sort : SortRoutine) {A : Type} (key : A -> number) (l : list A) :
  EcmaSort sort ->
  let result := sort A (fun a b => (key b - key a)%Q) l in
  Permutation l result /\
  StronglySorted (fun x y => (key y <= key x)%Q) result /\
  (forall s : number,
      filter (fun t => Qeq_bool (key t) s) result
      = filter (fun t => Qeq_bool (key t) s) l).
Proof.
  intros Hsort result.
  destruct (Hsort A (fun a b => (key b - key a)%Q) l) as [_ Hstable].
  destruct (Hstable (descending_consistent key l)) as (Hperm & Hord & Hties).
  split; [exact Hperm|]. split.
  - revert Hord. apply StronglySorted_impl. intros x y _ _ Hxy.
    unfold before in Hxy.
    destruct (Qlt_le_dec (key x) (key y)) as [Hlt|Hle]; [|exact Hle].
    assert (Hneg : isNegative (key x - key y)%Q = true) by (apply isNegative_lt; lra).
    congruence.
  - intros s.
    destruct (existsb (fun a => Qeq_bool (key a) s) l) eqn:Hex.
    + apply existsb_exists in Hex as (a & Ha & Has). apply Qeq_bool_iff in Has.
      assert (Hsame : forall t, Qeq_bool (key t) s
                                = tied (fun a b => (key b - key a)%Q) a t).
      { intros t. unfold tied. apply eq_true_iff_eq.
        rewrite Qeq_bool_iff, isZero_eq. split; intros H; lra. }
      rewrite (filter_ext _ _ Hsame result), (filter_ext _ _ Hsame l).
      exact (Hties a Ha).
    + assert (Hno : forall x, In x l -> Qeq_bool (key x) s = false).
      { intros x Hx. destruct (Qeq_bool (key x) s) eqn:Hxs; [|reflexivity].
        assert (existsb (fun a => Qeq_bool (key a) s) l = true)
          by (apply existsb_exists; exists x; auto).
        congruence. }
      rewrite (filter_none _ l Hno). apply filter_none.
      intros x Hx. apply Hno.
      apply (Permutation_in x (Permutation_sym Hperm)). exact Hx.
Qed.

Lemma spec_energyMatchScore_none (userEnergy : string) :
  spec_energyMatchScore userEnergy None = 1%Q.
Proof.
  unfold spec_energyMatchScore.
  destruct (String.eqb userEnergy "high"); [reflexivity|].
  destruct (String.eqb userEnergy "medium"); [reflexivity|].
  destruct (String.eqb userEnergy "low"); reflexivity.
Qed.

(** C1. For tasks whose priority and required energy name no member of
    Object.prototype, and such a user energy, AIService.suggestTaskReorder
    returns the tasks in descending order of
    score = priorityWeight x energyMatchScore x deadlineUrgencyScore, the
    three factors as the specification tabulates them, tasks of equal score in
    their original order, and with user energy "high", task energy "low" and
    a deadline 30 minutes away the score is priorityWeight x 0.5 x 3.  A
    priority that names a member of Object.prototype, such as constructor, is
    not weighted 2: the lookup finds the member, the score is NaN, and a low
    task that stands before such a task stays before it, although its score
    is 1 and the other's should be 2. *)
Theorem suggestTaskReorder_orders_by_score
    (sort : SortRoutine) (tasks : list Task) (currentTime : Z) (userEnergy : string) :
  EcmaSort sort ->
  inherited userEnergy = false ->
  Forall (fun task => plainTask task = true) tasks ->
  let score := spec_score currentTime userEnergy in
  let result := suggestTaskReorder sort tasks currentTime userEnergy in
  (Permutation tasks result /\
   StronglySorted (fun x y => (score y <= score x)%Q) result /\
   (forall s : number,
       filter (fun t => Qeq_bool (score t) s) result
       = filter (fun t => Qeq_bool (score t) s) tasks) /\
   suggestTaskReorderRejects tasks currentTime userEnergy = false /\
   (forall task, plainTask task = true ->
      calculateScore currentTime userEnergy task = Returns (Num (score task))) /\
   (forall task, plainTask task = true ->
      energyRequired task = Some "low" ->
      deadline task = Some (currentTime + 30 * 60 * 1000)%Z ->
      calculateScore currentTime "high" task
      = Returns (Num (spec_priorityWeight (priority task) * (1 # 2) * 3)%Q))) /\
  (forall name, inherited name = true ->
     let odd := sampleTask name (Some name) None None false in
     calculateScore currentTime userEnergy odd = Returns NaN /\
     (score taskA == 1)%Q /\ (score odd == 2)%Q /\
     suggestTaskReorder sort [taskA; odd] currentTime userEnergy = [taskA; odd]).
Proof.
  intros Hsort Huser Hplain score result.
  assert (Hcalc : forall task, plainTask task = true ->
            calculateScore currentTime userEnergy task = Returns (Num (score task)))
    by (intros task Ht; apply calculateScore_spec; assumption).
  split.
  - unfold result. rewrite (suggestTaskReorder_spec sort tasks _ _ Hsort Huser Hplain).
    destruct (sort_descending sort score tasks Hsort) as (Hperm & Hord & Hties).
    split; [exact Hperm|]. split; [exact Hord|]. split; [exact Hties|].
    split; [|split; [exact Hcalc|]].
    + unfold suggestTaskReorderRejects. apply andb_false_iff. right.
      destruct (existsb _ tasks) eqn:Hex; [|reflexivity].
      apply existsb_exists in Hex as (task & Hin & Hthrows).
      rewrite Forall_forall in Hplain. rewrite (Hcalc task (Hplain task Hin)) in Hthrows.
      discriminate Hthrows.
    + intros task Ht He Hd. rewrite calculateScore_spec by (assumption || reflexivity).
      unfold spec_score. rewrite He, Hd. simpl spec_energyMatchScore.
      unfold spec_deadlineUrgencyScore.
      replace (currentTime + 30 * 60 * 1000 - currentTime)%Z with 1800000%Z by lia.
      reflexivity.
  - intros name Hname odd.
    assert (Hodd : calculateScore currentTime userEnergy odd = Returns NaN)
      by (apply (calculateScore_inherited _ _ odd name); auto).
    split; [exact Hodd|].
    assert (HsA : (score taskA == 1)%Q).
    { unfold score, spec_score. cbn [taskA sampleTask priority energyRequired deadline].
      rewrite spec_energyMatchScore_none. reflexivity. }
    assert (HsO : (score odd == 2)%Q).
    { unfold score, spec_score, odd. cbn [sampleTask priority energyRequired deadline].
      rewrite spec_energyMatchScore_none.
      pose proof (inherited_cases name Hname) as Hin.
      unfold objectPrototype in Hin. simpl in Hin.
      repeat (destruct Hin as [<-|Hin]; [reflexivity|]). contradiction. }
    split; [exact HsA|]. split; [exact HsO|].
    unfold suggestTaskReorder. apply sort_all_tied; [exact Hsort|].
    assert (HA : calculateScore currentTime userEnergy taskA
                 = Returns (Num (score taskA)))
      by (apply Hcalc; reflexivity).
    intros x y Hx Hy. unfold tied, sortCompare, scoreDifference.
    destruct Hx as [<-|[<-|[]]], Hy as [<-|[<-|[]]];
      rewrite ?HA, ?Hodd; cbn [minus toNumber]; try reflexivity.
    apply isZero_eq. lra.
Qed.

Lemma suggestTaskReorder_orders_by_score_witness :
  let tasks := [sampleTask "report" (Some "low") (Some "low") (Some 1800000%Z) false;
                sampleTask "call" (Some "urgent") (Some "high") None false] in
  EcmaSort insertionSort /\
  inherited "high" = false /\
  Forall (fun task => plainTask task = true) tasks /\
  Permutation tasks (suggestTaskReorder insertionSort tasks 0 "high") /\
  map title (suggestTaskReorder insertionSort tasks 0 "high") = ["call"; "report"] /\
  suggestTaskReorder insertionSort
    [taskA; sampleTask "constructor" (Some "constructor") None None false] 0 "high"
  = [taskA; sampleTask "constructor" (Some "constructor") None None false].
Proof.
  intros tasks.
  assert (Hplain : Forall (fun task => plainTask task = true) tasks)
    by (repeat constructor).
  split; [exact insertionSort_conforms|]. split; [reflexivity|]. split; [exact Hplain|].
  pose proof (suggestTaskReorder_orders_by_score insertionSort tasks 0%Z "high"
                insertionSort_conforms eq_refl Hplain) as H.
  split; [exact (proj1 (proj1 H))|]. split; [vm_compute; reflexivity|].
  exact (proj2 (proj2 (proj2 (proj2 H "constructor" eq_refl)))).
Defined.

(** ** TaskManager.sortTasks *)

Lemma spec_priorityWeight_cases (p : option string) :
  spec_priorityWeight p = 4%Q \/ spec_priorityWeight p = 3%Q \/
  spec_priorityWeight p = 1%Q \/ spec_priorityWeight p = 2%Q.
Proof.
  destruct p as [s|]; [|tauto]. unfold spec_priorityWeight.
  destruct (String.eqb s "urgent"); [tauto|].
  destruct (String.eqb s "high"); [tauto|].
  destruct (String.eqb s "low"); tauto.
Qed.

Lemma Qeq_bool_weights (p q : option string) :
  Qeq_bool (spec_priorityWeight p) (spec_priorityWeight q) = true ->
  spec_priorityWeight p = spec_priorityWeight q.
Proof.
  destruct (spec_priorityWeight_cases p) as [-> | [-> | [-> | ->]]],
    (spec_priorityWeight_cases q) as [-> | [-> | [-> | ->]]];
    intros H; try reflexivity; discriminate H.
Qed.

(** On ordinary tasks the comparator of the code is the comparator of the
    specification. *)
Lemma compareTasks_spec (a b : Task) :
  ordinaryTask a = true -> ordinaryTask b = true ->
  compareTasks a b = Num (spec_compare a b).
Proof.
  intros Ha Hb. apply andb_prop in Ha as [Fa Pa]. apply andb_prop in Hb as [Fb Pb].
  unfold compareTasks, spec_compare, completed, booleanFlag in *.
  destruct (completedValue a) as [| |ca| | |]; try discriminate Fa.
  destruct (completedValue b) as [| |cb| | |]; try discriminate Fb.
  cbn [sameFlag]. destruct (negb (Bool.eqb ca cb)); [reflexivity|].
  cbv zeta. rewrite (priorityOrder_lookup _ Pa), (priorityOrder_lookup _ Pb).
  cbn [strictEquals].
  destruct (negb (Qeq_bool _ _)); [reflexivity|].
  destruct (deadline a), (deadline b); reflexivity.
Qed.

Lemma sortCompare_spec (a b : Task) :
  ordinaryTask a = true -> ordinaryTask b = true ->
  sortCompare compareTasks a b = spec_compare a b.
Proof.
  intros Ha Hb. unfold sortCompare. rewrite (compareTasks_spec a b Ha Hb). reflexivity.
Qed.

Lemma spec_compare_signs (a b : Task) :
  ((rankOf a < rankOf b)%Z /\ before spec_compare a b = true /\
   tied spec_compare a b = false /\ after spec_compare a b = false) \/
  ((rankOf b < rankOf a)%Z /\ before spec_compare a b = false /\
   tied spec_compare a b = false /\ after spec_compare a b = true) \/
  (rankOf a = rankOf b /\ completed a = completed b /\
   spec_priorityWeight (priority a) = spec_priorityWeight (priority b) /\
   ((exists da db, deadline a = Some da /\ deadline b = Some db /\
       before spec_compare a b = (da <? db)%Z /\
       tied spec_compare a b = (da =? db)%Z /\
       after spec_compare a b = (db <? da)%Z) \/
    ((deadline a = None \/ deadline b = None) /\
     before spec_compare a b = false /\ tied spec_compare a b = true /\
     after spec_compare a b = false))).
Proof.
  unfold before, tied, after, rankOf, spec_compare.
  destruct (completed a), (completed b),
    (spec_priorityWeight_cases (priority a)) as [-> | [-> | [-> | ->]]],
    (spec_priorityWeight_cases (priority b)) as [-> | [-> | [-> | ->]]];
    simpl;
    try (left; repeat split; (reflexivity || lia));
    try (right; left; repeat split; (reflexivity || lia));
    right; right; (split; [reflexivity|]); (split; [reflexivity|]);
    (split; [reflexivity|]);
    (destruct (deadline a) as [da|], (deadline b) as [db|];
     [left; exists da, db; unfold isNegative, isZero, isPositive; simpl;
      repeat split;
      [destruct (Z.ltb_spec (da - db) 0), (Z.ltb_spec da db); try reflexivity; lia
      |destruct (Z.eqb_spec (da - db) 0), (Z.eqb_spec da db); try reflexivity; lia
      |destruct (Z.ltb_spec 0 (da - db)), (Z.ltb_spec db da); try reflexivity; lia]
     |right; repeat split; auto..]).
Qed.

(** On a list with uniform deadlines the comparator orders by rank, then by
    deadline. *)
Lemma uniform_signs (tasks : list Task) (a b : Task) :
  deadlineUniform tasks -> In a tasks -> In b tasks ->
  (before spec_compare a b = true <->
   (rankOf a < rankOf b \/ (rankOf a = rankOf b /\ deadlineOf a < deadlineOf b))%Z) /\
  (tied spec_compare a b = true <->
   (rankOf a = rankOf b /\ deadlineOf a = deadlineOf b)%Z) /\
  (after spec_compare a b = true <->
   (rankOf b < rankOf a \/ (rankOf a = rankOf b /\ deadlineOf b < deadlineOf a))%Z).
Proof.
  intros Huni Ha Hb.
  destruct (spec_compare_signs a b)
    as [(Hr & -> & -> & ->)
       |[(Hr & -> & -> & ->)
        |(Hr & Hc & Hw & Hd)]].
  - repeat split; intros; try lia; try discriminate; auto.
  - repeat split; intros; try lia; try discriminate; auto.
  - destruct Hd as [(da & db & Hda & Hdb & -> & -> & ->)|(Hnone & -> & -> & ->)].
    + unfold deadlineOf. rewrite Hda, Hdb.
      rewrite !Z.ltb_lt, Z.eqb_eq. repeat split; intros; lia.
    + assert (Hboth : deadline a = None /\ deadline b = None).
      { destruct (Huni a b Ha Hb Hc Hw) as [H1 H2].
        destruct Hnone as [Hn|Hn]; auto. }
      unfold deadlineOf. destruct Hboth as [-> ->].
      repeat split; intros; try lia; try discriminate; auto.
Qed.

Lemma spec_compare_consistent (tasks : list Task) :
  deadlineUniform tasks -> Consistent spec_compare tasks.
Proof.
  intros Huni. constructor.
  - intros a Ha. apply (uniform_signs tasks a a Huni Ha Ha). lia.
  - intros a b Ha Hb Hab.
    apply (uniform_signs tasks a b Huni Ha Hb) in Hab.
    apply (uniform_signs tasks b a Huni Hb Ha). lia.
  - intros a b c Ha Hb Hc Hab Hbc.
    apply (uniform_signs tasks a b Huni Ha Hb) in Hab.
    apply (uniform_signs tasks b c Huni Hb Hc) in Hbc.
    apply (uniform_signs tasks a c Huni Ha Hc). lia.
  - intros a b c Ha Hb Hc Hab Hbc.
    apply (uniform_signs tasks a b Huni Ha Hb) in Hab.
    apply (uniform_signs tasks b c Huni Hb Hc) in Hbc.
    apply (uniform_signs tasks a c Huni Ha Hc). lia.
  - intros a b c Ha Hb Hc Hab Hbc.
    apply (uniform_signs tasks a b Huni Ha Hb) in Hab.
    apply (uniform_signs tasks b c Huni Hb Hc) in Hbc.
    apply (uniform_signs tasks a c Huni Ha Hc). lia.
Qed.

(** On ordinary tasks with uniform deadlines the comparator of the code is a
    consistent comparison function. *)
Lemma deadlineUniform_consistent (tasks : list Task) :
  Forall (fun task => ordinaryTask task = true) tasks ->
  deadlineUniform tasks -> Consistent (sortCompare compareTasks) tasks.
Proof.
  intros Hord Huni. rewrite Forall_forall in Hord.
  apply (Consistent_agree spec_compare); [|apply spec_compare_consistent; exact Huni].
  intros x y Hx Hy. symmetry. apply sortCompare_spec; auto.
Qed.

Lemma sameFlag_sym (x y : Flag) : sameFlag x y = sameFlag y x.
Proof.
  destruct x, y; cbn [sameFlag]; try reflexivity.
  - destruct b, b0; reflexivity.
  - apply eq_true_iff_eq. rewrite !Qeq_bool_iff. split; intros H; symmetry; exact H.
  - apply String.eqb_sym.
  - apply Nat.eqb_sym.
Qed.

Lemma samePath_sym (p q : list string) : samePath p q = samePath q p.
Proof.
  revert q. induction p as [|x p IH]; intros [|y q]; try reflexivity.
  cbn [samePath]. rewrite (String.eqb_sym x y), IH. reflexivity.
Qed.

Lemma strictEquals_sym (x y : jsvalue) : strictEquals x y = strictEquals y x.
Proof.
  destruct x, y; cbn [strictEquals]; try reflexivity.
  - apply eq_true_iff_eq. rewrite !Qeq_bool_iff. split; intros H; symmetry; exact H.
  - apply samePath_sym.
Qed.

Lemma minus_asymmetric (x y : jsvalue) :
  isNegative (match toNumber (minus x y) with Some v => v | None => 0%Q end) = true ->
  isNegative (match toNumber (minus y x) with Some v => v | None => 0%Q end) = false.
Proof.
  unfold minus. destruct (toNumber x) as [a|], (toNumber y) as [b|];
    cbn [toNumber]; try (intros H; discriminate H).
  intros H. apply isNegative_lt in H.
  destruct (isNegative (b - a)%Q) eqn:Hba; [|reflexivity].
  apply isNegative_lt in Hba. lra.
Qed.

(** Whatever the priorities, the comparator says [before] both ways only
    for two tasks that are both not completed and carry different values in
    [completed]. *)
Lemma compareTasks_asymmetric (a b : Task) :
  (completed a = false -> completed b = false ->
   sameFlag (completedValue a) (completedValue b) = true) ->
  before (sortCompare compareTasks) a b = true ->
  before (sortCompare compareTasks) b a = false.
Proof.
  intros Hagree. unfold before, sortCompare, compareTasks.
  rewrite (sameFlag_sym (completedValue b) (completedValue a)).
  destruct (sameFlag (completedValue a) (completedValue b)) eqn:Hsame; cbn [negb].
  - cbv zeta.
    rewrite (strictEquals_sym (orElse (lookupKey priorityOrder (priority b)) 2%Q)).
    destruct (strictEquals _ _); cbn [negb].
    + destruct (deadline a) as [da|], (deadline b) as [db|]; cbn [toNumber];
        try (intros H; discriminate H).
      unfold isNegative. simpl.
      intros H. apply Z.ltb_lt in H. apply Z.ltb_ge. lia.
    + apply minus_asymmetric.
  - cbn [toNumber]. destruct (completed a) eqn:Ca; [intros H; discriminate H|].
    destruct (completed b) eqn:Cb; [reflexivity|].
    specialize (Hagree eq_refl eq_refl). discriminate Hagree.
Qed.

Lemma falsyFlagsAgree_asymmetric (tasks : list Task) :
  falsyFlagsAgree tasks ->
  forall x y, In x tasks -> In y tasks ->
    before (sortCompare compareTasks) x y = true ->
    before (sortCompare compareTasks) y x = false.
Proof.
  intros Hagree x y Hx Hy. apply compareTasks_asymmetric.
  intros Cx Cy. apply Hagree; assumption.
Qed.

Lemma ordinary_falsyFlagsAgree (tasks : list Task) :
  Forall (fun task => ordinaryTask task = true) tasks -> falsyFlagsAgree tasks.
Proof.
  intros Hord a b Ha Hb. rewrite Forall_forall in Hord.
  pose proof (Hord a Ha) as Oa. pose proof (Hord b Hb) as Ob.
  apply andb_prop in Oa as [Fa _]. apply andb_prop in Ob as [Fb _].
  unfold booleanFlag, completed in *.
  destruct (completedValue a) as [| |ca| | |]; try discriminate Fa.
  destruct (completedValue b) as [| |cb| | |]; try discriminate Fb.
  intros -> ->. reflexivity.
Qed.

(** Between ordinary tasks, a task that is not [before] another has at
    least its rank. *)
Lemma not_before_rank (x y : Task) :
  ordinaryTask x = true -> ordinaryTask y = true ->
  before (sortCompare compareTasks) y x = false -> (rankOf x <= rankOf y)%Z.
Proof.
  intros Hx Hy. unfold before. rewrite (sortCompare_spec y x Hy Hx).
  fold (before spec_compare y x). intros Hb.
  destruct (spec_compare_signs y x)
    as [(_ & Hb' & _)|[(Hr & _)|(Hr & _)]]; [congruence|lia|lia].
Qed.

(** C2 as stated fails.  Of three incomplete tasks of equal priority, d3 due
    at 3, n2 without a deadline and d1 due at 1, the comparator puts d1 before
    d3 and ties n2 with both.  V8 leaves [d3, n2, d1] as it is, the later
    deadline first; and no order at all is a stable sort of that list by this
    comparator. *)
Lemma sortTasks_later_deadline_stays_first :
  Forall (fun task => ordinaryTask task = true) laterFirst /\
  map title laterFirst = ["d3"; "n2"; "d1"] /\
  map (fun task => map (compareTasks task) laterFirst) laterFirst
  = [[Num 0%Q; Num 0%Q; Num 2%Q];
     [Num 0%Q; Num 0%Q; Num 0%Q];
     [Num (-2)%Q; Num 0%Q; Num 0%Q]] /\
  sortTasks v8Sort laterFirst = laterFirst /\
  (forall result, ~ StableSorted (sortCompare compareTasks) laterFirst result).
Proof.
  split; [repeat constructor|]. split; [reflexivity|].
  split; [vm_compute; reflexivity|]. split; [vm_compute; reflexivity|].
  intros result (Hperm & Hord & Hties).
  pose proof (Permutation_length Hperm) as Hlen.
  specialize (Hties (sampleTask "n2" None None None false)
                (or_intror (or_introl eq_refl))).
  assert (Hrhs : filter (tied (sortCompare compareTasks)
                           (sampleTask "n2" None None None false)) laterFirst
                 = laterFirst) by (vm_compute; reflexivity).
  rewrite Hrhs in Hties. clear Hrhs.
  destruct result as [|x [|y [|z [|w result]]]]; try discriminate Hlen.
  cbn [filter] in Hties. unfold laterFirst in Hties.
  destruct (tied _ _ x), (tied _ _ y), (tied _ _ z); try discriminate Hties.
  injection Hties as -> -> ->.
  inversion Hord as [|? ? _ Hall]; subst.
  inversion Hall as [|? ? _ Hall']; subst.
  inversion Hall' as [|? ? Hlast _]; subst.
  vm_compute in Hlast. discriminate Hlast.
Qed.

(** C2, amended. Between tasks whose completed is a boolean and whose
    priority names no member of Object.prototype the comparator of
    TaskManager.sortTasks is the one the specification describes: completed
    after incomplete, then higher priority first (urgent 4, high 3, medium and
    anything else 2, low 1), then the earlier deadline first, and a tie
    whenever a deadline is missing.  sortTasks hands it to the engine's sort.
    The result always holds the same tasks.  It is the stable sort by the
    comparator whenever the comparator is consistent on the list, as it is
    when tasks of equal completion and priority either all have a deadline or
    all have none; earlier deadlines then come first.  With V8, for fewer than
    64 such tasks, completed tasks come after all others and higher priorities
    first in every case, and no task stands directly behind one it should
    precede.  The list [A low, B urgent, C medium completed] sorts to
    [B, A, C]. *)
Theorem sortTasks_comparator (sort : SortRoutine) (tasks : list Task) :
  EcmaSort sort ->
  let weight := fun task => spec_priorityWeight (priority task) in
  let comparefn := sortCompare compareTasks in
  (forall a b, ordinaryTask a = true -> ordinaryTask b = true ->
     (completed a = true -> completed b = false ->
      compareTasks a b = Num 1%Q /\ compareTasks b a = Num (-1)%Q /\
      after comparefn a b = true /\ before comparefn b a = true) /\
     (completed a = completed b -> weight a <> weight b ->
      compareTasks a b = Num (weight b - weight a)%Q /\
      before comparefn a b = ltNumber (weight b) (weight a)) /\
     (forall da db, completed a = completed b -> weight a = weight b ->
        deadline a = Some da -> deadline b = Some db ->
        compareTasks a b = Num (inject_Z (da - db)) /\
        before comparefn a b = (da <? db)%Z /\
        tied comparefn a b = (da =? db)%Z) /\
     (completed a = completed b -> weight a = weight b ->
      deadline a = None \/ deadline b = None ->
      compareTasks a b = Num 0%Q /\ tied comparefn a b = true)) /\
  Permutation tasks (sortTasks sort tasks) /\
  Permutation tasks (sortTasks v8Sort tasks) /\
  (Consistent comparefn tasks -> StableSorted comparefn tasks (sortTasks sort tasks)) /\
  (Forall (fun task => ordinaryTask task = true) tasks -> deadlineUniform tasks ->
     StableSorted comparefn tasks (sortTasks sort tasks) /\
     StronglySorted
       (fun x y => (rankOf x < rankOf y \/
                    (rankOf x = rankOf y /\ deadlineOf x <= deadlineOf y))%Z)
       (sortTasks sort tasks)) /\
  (Forall (fun task => ordinaryTask task = true) tasks -> (length tasks < 64)%nat ->
     StronglySorted (fun x y => (rankOf x <= rankOf y)%Z) (sortTasks v8Sort tasks) /\
     noDescent comparefn (sortTasks v8Sort tasks) = true) /\
  sortTasks sort [taskA; taskB; taskC] = [taskB; taskA; taskC] /\
  sortTasks v8Sort [taskA; taskB; taskC] = [taskB; taskA; taskC].
Proof.
  intros Hsort weight comparefn.
  split; [|split; [|split; [|split; [|split; [|split; [|split]]]]]].
  - intros a b Oa Ob. unfold comparefn, after, before, tied, sortCompare.
    rewrite (compareTasks_spec a b Oa Ob), (compareTasks_spec b a Ob Oa).
    cbn [toNumber]. unfold spec_compare, weight.
    split; [|split; [|split]].
    + intros Ha Hb. rewrite Ha, Hb. repeat split; reflexivity.
    + intros Hc Hw. rewrite Hc, eqb_reflx. simpl.
      destruct (Qeq_bool _ _) eqn:Heq; [apply Qeq_bool_weights in Heq; contradiction|].
      simpl. split; [reflexivity|].
      destruct (spec_priorityWeight_cases (priority a)) as [-> | [-> | [-> | ->]]],
        (spec_priorityWeight_cases (priority b)) as [-> | [-> | [-> | ->]]]; reflexivity.
    + intros da db Hc Hw Hda Hdb. rewrite Hc, eqb_reflx, Hw, Hda, Hdb. simpl.
      rewrite (proj2 (Qeq_bool_iff _ _) (Qeq_refl _)). simpl.
      split; [reflexivity|]. unfold isNegative, isZero. simpl. split.
      * destruct (Z.ltb_spec (da - db) 0), (Z.ltb_spec da db); try reflexivity; lia.
      * destruct (Z.eqb_spec (da - db) 0), (Z.eqb_spec da db); try reflexivity; lia.
    + intros Hc Hw Hd. rewrite Hc, eqb_reflx, Hw. simpl.
      rewrite (proj2 (Qeq_bool_iff _ _) (Qeq_refl _)). simpl.
      destruct Hd as [-> | ->]; [split; reflexivity|].
      destruct (deadline a); split; reflexivity.
  - exact (proj1 (Hsort _ _ _)).
  - apply v8_sort_perm.
  - exact (proj2 (Hsort _ _ _)).
  - intros Hord Huni.
    pose proof (proj2 (Hsort _ comparefn tasks) (deadlineUniform_consistent tasks Hord Huni))
      as Hstable.
    split; [exact Hstable|].
    destruct Hstable as (Hperm & Hsorted & _).
    rewrite Forall_forall in Hord.
    assert (Hin : forall x, In x (sortTasks sort tasks) -> In x tasks)
      by (intros x Hx; apply (Permutation_in x (Permutation_sym Hperm)); exact Hx).
    revert Hsorted. apply StronglySorted_impl. intros x y Hx Hy.
    unfold comparefn, before. rewrite sortCompare_spec by auto.
    fold (before spec_compare y x). intros Hb.
    destruct (uniform_signs tasks y x Huni (Hin y Hy) (Hin x Hx)) as (Hbefore & _ & _).
    destruct (Z.lt_trichotomy (rankOf x) (rankOf y)) as [Hlt|[Heq|Hgt]];
      [left; exact Hlt| |].
    + right. split; [exact Heq|].
      destruct (Z.le_gt_cases (deadlineOf x) (deadlineOf y)) as [Hle|Hlater];
        [exact Hle|].
      assert (before spec_compare y x = true) by (apply Hbefore; lia). congruence.
    + assert (before spec_compare y x = true) by (apply Hbefore; lia). congruence.
  - intros Hord _.
    pose proof (v8_sort_perm comparefn tasks) as Hperm.
    pose proof (v8_sort_noDescent comparefn tasks
                  (falsyFlagsAgree_asymmetric tasks (ordinary_falsyFlagsAgree tasks Hord)))
      as Hnd.
    split; [|exact Hnd].
    rewrite Forall_forall in Hord.
    apply (noDescent_StronglySorted comparefn); [intros x y z; lia| |exact Hnd].
    intros x y Hx Hy. apply not_before_rank; apply Hord.
    + apply (Permutation_in x (Permutation_sym Hperm)). exact Hx.
    + apply (Permutation_in y (Permutation_sym Hperm)). exact Hy.
  - unfold sortTasks.
    rewrite (ecma_sort_unique sort insertionSort (sortCompare compareTasks) _ Hsort
               insertionSort_conforms).
    + vm_compute. reflexivity.
    + apply consistentb_sound. vm_compute. reflexivity.
  - vm_compute. reflexivity.
Qed.

Lemma sortTasks_comparator_witness :
  EcmaSort insertionSort /\
  Forall (fun task => ordinaryTask task = true) mixedDeadlines /\
  (length mixedDeadlines < 64)%nat /\
  StronglySorted (fun x y => (rankOf x <= rankOf y)%Z) (sortTasks v8Sort mixedDeadlines) /\
  sortTasks insertionSort [taskA; taskB; taskC] = [taskB; taskA; taskC].
Proof.
  assert (Hord : Forall (fun task => ordinaryTask task = true) mixedDeadlines)
    by (repeat constructor).
  assert (Hlen : (length mixedDeadlines < 64)%nat) by (simpl; lia).
  pose proof (sortTasks_comparator insertionSort mixedDeadlines insertionSort_conforms)
    as H. cbv zeta in H.
  split; [exact insertionSort_conforms|]. split; [exact Hord|]. split; [exact Hlen|].
  split.
  - exact (proj1 (proj1 (proj2 (proj2 (proj2 (proj2 (proj2 H))))) Hord Hlen)).
  - exact (proj1 (proj2 (proj2 (proj2 (proj2 (proj2 (proj2 H))))))).
Defined.

(** C6. Sorting twice gives the same order as sorting once: with every
    engine when the comparator is consistent on the list, and with V8, for
    fewer than 64 tasks, whenever the tasks that are not completed all carry
    the same value in completed, deadlines mixed or not; the five tasks of
    [mixedDeadlines] stay as they are.  Two tasks whose completed is false
    and null break it: the comparator puts each before the other, V8 swaps
    them, and swaps them back when the list is sorted again. *)
Theorem sortTasks_idempotent (sort : SortRoutine) (tasks : list Task) :
  EcmaSort sort ->
  (Consistent (sortCompare compareTasks) tasks ->
   sortTasks sort (sortTasks sort tasks) = sortTasks sort tasks) /\
  (Forall (fun task => ordinaryTask task = true) tasks -> deadlineUniform tasks ->
   sortTasks sort (sortTasks sort tasks) = sortTasks sort tasks) /\
  ((length tasks < 64)%nat -> falsyFlagsAgree tasks ->
   sortTasks v8Sort (sortTasks v8Sort tasks) = sortTasks v8Sort tasks) /\
  sortTasks v8Sort mixedDeadlines = mixedDeadlines /\
  compareTasks falseTask nullTask = Num (-1)%Q /\
  compareTasks nullTask falseTask = Num (-1)%Q /\
  sortTasks v8Sort [falseTask; nullTask] = [nullTask; falseTask] /\
  sortTasks v8Sort (sortTasks v8Sort [falseTask; nullTask]) = [falseTask; nullTask].
Proof.
  intros Hsort.
  split; [|split; [|split]].
  - intros Hc. unfold sortTasks. apply ecma_sort_idempotent; assumption.
  - intros Hord Huni. unfold sortTasks. apply ecma_sort_idempotent; [exact Hsort|].
    apply deadlineUniform_consistent; assumption.
  - intros _ Hagree. unfold sortTasks, v8Sort. apply v8_sort_idempotent.
    apply falsyFlagsAgree_asymmetric. exact Hagree.
  - repeat split; vm_compute; reflexivity.
Qed.

Lemma sortTasks_idempotent_witness :
  EcmaSort mergeSort /\
  Forall (fun task => ordinaryTask task = true) mixedDeadlines /\
  (length mixedDeadlines < 64)%nat /\
  sortTasks v8Sort (sortTasks v8Sort mixedDeadlines) = sortTasks v8Sort mixedDeadlines.
Proof.
  assert (Hord : Forall (fun task => ordinaryTask task = true) mixedDeadlines)
    by (repeat constructor).
  assert (Hlen : (length mixedDeadlines < 64)%nat) by (simpl; lia).
  split; [exact mergeSort_conforms|]. split; [exact Hord|]. split; [exact Hlen|].
  exact (proj1 (proj2 (proj2 (sortTasks_idempotent mergeSort mixedDeadlines
                                mergeSort_conforms)))
           Hlen (ordinary_falsyFlagsAgree mixedDeadlines Hord)).
Defined.

(** ** Dashboard.optimizeWithAI *)

Lemma filter_twice {A : Type} (f : A -> bool) (l : list A) :
  filter f (filter f l) = filter f l.
Proof.
  induction l as [|x l IH]; [reflexivity|].
  simpl. destruct (f x) eqn:Hx; [simpl; rewrite Hx, IH; reflexivity|exact IH].
Qed.

(** C7. optimizeWithAI scores and reorders the incomplete tasks only; the
    completed tasks follow the optimized list, each unchanged and in the
    order they had. *)
Theorem optimizeWithAI_keeps_completed
    (sort : SortRoutine) (tasks : list Task) (currentTime hour : Z) :
  EcmaSort sort ->
  let active := filter (fun task => negb (completed task)) tasks in
  let userEnergy := toLowerCase (fst (calculateEnergyLevel hour)) in
  let optimized := suggestTaskReorder sort active currentTime userEnergy in
  optimizeWithAI sort tasks currentTime hour
  = optimized ++ filter (fun task => completed task) tasks /\
  Permutation active optimized /\
  Forall (fun task => completed task = false) optimized /\
  filter (fun task => completed task) (optimizeWithAI sort tasks currentTime hour)
  = filter (fun task => completed task) tasks.
Proof.
  intros Hsort active userEnergy optimized.
  assert (Hperm : Permutation active optimized) by exact (proj1 (Hsort _ _ _)).
  assert (Hall : Forall (fun task => completed task = false) optimized).
  { rewrite Forall_forall. intros t Ht.
    apply (Permutation_in t (Permutation_sym Hperm)) in Ht.
    apply filter_In in Ht as [_ Ht]. destruct (completed t); [discriminate|reflexivity]. }
  assert (Heq : optimizeWithAI sort tasks currentTime hour
                = optimized ++ filter (fun task => completed task) tasks).
  { unfold optimizeWithAI. destruct tasks as [|t tasks']; [|reflexivity].
    simpl. subst optimized active. simpl in Hperm.
    apply Permutation_nil in Hperm. simpl. rewrite Hperm. reflexivity. }
  split; [exact Heq|]. split; [exact Hperm|]. split; [exact Hall|].
  rewrite Heq, filter_app.
  rewrite (filter_none _ optimized), filter_twice; [reflexivity|].
  rewrite Forall_forall in Hall. exact Hall.
Qed.

Lemma optimizeWithAI_keeps_completed_witness :
  EcmaSort insertionSort /\
  map title (optimizeWithAI insertionSort [taskC; taskA; taskB] 0 10) = ["B"; "A"; "C"] /\
  filter (fun task => completed task) (optimizeWithAI insertionSort [taskC; taskA; taskB] 0 10)
  = [taskC].
Proof.
  split; [exact insertionSort_conforms|]. split; [vm_compute; reflexivity|].
  exact (proj2 (proj2 (proj2
           (optimizeWithAI_keeps_completed insertionSort [taskC; taskA; taskB] 0 10
              insertionSort_conforms)))).
Defined.

(** ** The document store *)

Lemma readUserFile_run (now userId filename : string) (disk : Disk) :
  readUserFile now userId filename disk =
  match mkdirFault disk !! userId with
  | Some code =>
      if String.eqb code "ENOENT" then (inr (getDefaultData now filename), disk)
      else (inl (SystemError code), disk)
  | None =>
      match files disk !! (userId, filename) with
      | None => (inr (getDefaultData now filename), withDirectory userId disk)
      | Some (Unreadable code) =>
          if String.eqb code "ENOENT"
          then (inr (getDefaultData now filename), withDirectory userId disk)
          else (inl (SystemError code), withDirectory userId disk)
      | Some (Text (Json doc)) => (inr doc, withDirectory userId disk)
      | Some (Text Malformed) => (inl SyntaxError, withDirectory userId disk)
      end
  end.
Proof.
  unfold readUserFile, tryCatch, bind, ensureUserDirectory, tryCatch, mkdir, readFile,
    throw, ret, isENOENT.
  destruct (mkdirFault disk !! userId) as [code|]; simpl.
  - destruct (String.eqb code "ENOENT"); reflexivity.
  - destruct (files disk !! (userId, filename)) as [[[doc|]|code]|]; simpl; try reflexivity.
    destruct (String.eqb code "ENOENT"); reflexivity.
Qed.

Lemma writeUserFile_run (userId filename : string) (data : json) (disk : Disk) :
  writeUserFile userId filename data disk =
  match mkdirFault disk !! userId with
  | Some code => (inl (SystemError code), disk)
  | None =>
      match writeFault disk !! (userId, filename) with
      | Some (FailsOnOpen code) => (inl (SystemError code), withDirectory userId disk)
      | Some (FailsWhileWriting code reached) =>
          (inl (SystemError code),
           mkDisk (<[ (userId, filename) := Text reached ]> (files disk))
                  ({[ userId ]} ∪ directories disk) (mkdirFault disk) (writeFault disk))
      | None =>
          (inr true,
           mkDisk (<[ (userId, filename) := Text (Json data) ]> (files disk))
                  ({[ userId ]} ∪ directories disk) (mkdirFault disk) (writeFault disk))
      end
  end.
Proof.
  unfold writeUserFile, tryCatch, bind, ensureUserDirectory, tryCatch, mkdir, writeFile,
    throw, ret.
  destruct (mkdirFault disk !! userId) as [code|]; simpl; [reflexivity|].
  destruct (writeFault disk !! (userId, filename)) as [[code|code reached]|]; reflexivity.
Qed.

Lemma readUserFile_readsOnly now userId filename :
  readsOnly (readUserFile now userId filename).
Proof.
  intros disk. rewrite readUserFile_run.
  repeat case_match; simpl; auto.
Qed.

Lemma writeUserFile_touchesOnly userId filename data :
  touchesOnly userId filename (writeUserFile userId filename data).
Proof.
  intros disk. rewrite writeUserFile_run.
  repeat case_match; simpl; repeat split; auto;
    intros key Hkey; apply lookup_insert_ne; congruence.
Qed.

Lemma readsOnly_touchesOnly {T : Type} userId filename (c : IO T) :
  readsOnly c -> touchesOnly userId filename c.
Proof.
  intros H disk. destruct (H disk) as (H1 & H2 & H3). rewrite H3. auto.
Qed.

Lemma touchesOnly_bind {T U : Type} userId filename (c : IO T) (k : T -> IO U) :
  touchesOnly userId filename c -> (forall x, touchesOnly userId filename (k x)) ->
  touchesOnly userId filename (bind c k).
Proof.
  intros Hc Hk disk. unfold bind.
  destruct (Hc disk) as (H1 & H2 & H3).
  destruct (c disk) as [[e|x] disk']; simpl in *; [auto|].
  destruct (Hk x disk') as (K1 & K2 & K3).
  rewrite K1, K2. repeat split; auto.
  intros key Hkey. rewrite K3, H3; auto.
Qed.

Lemma touchesOnly_tryCatch {T : Type} userId filename (c : IO T) (h : Exn -> IO T) :
  touchesOnly userId filename c -> (forall e, touchesOnly userId filename (h e)) ->
  touchesOnly userId filename (tryCatch c h).
Proof.
  intros Hc Hh disk. unfold tryCatch.
  destruct (Hc disk) as (H1 & H2 & H3).
  destruct (c disk) as [[e|x] disk']; simpl in *; [|auto].
  destruct (Hh e disk') as (K1 & K2 & K3).
  rewrite K1, K2. repeat split; auto.
  intros key Hkey. rewrite K3, H3; auto.
Qed.

Lemma touchesOnly_ret {T : Type} userId filename (x : T) :
  touchesOnly userId filename (ret x).
Proof. intros disk. simpl. auto. Qed.

Lemma touchesOnly_liftExn {T : Type} userId filename (r : Exn + T) :
  touchesOnly userId filename (liftExn r).
Proof. intros disk. destruct r; simpl; auto. Qed.

Lemma calculateAnalytics_touchesOnly statistics now userId :
  touchesOnly userId "analytics.json" (calculateAnalytics statistics now userId).
Proof.
  unfold calculateAnalytics.
  apply touchesOnly_tryCatch; [|intros e; apply touchesOnly_ret].
  apply touchesOnly_bind;
    [apply readsOnly_touchesOnly, readUserFile_readsOnly|intros tasks].
  apply touchesOnly_bind;
    [apply readsOnly_touchesOnly, readUserFile_readsOnly|intros preferences].
  apply touchesOnly_bind; [apply touchesOnly_liftExn|intros analytics].
  apply touchesOnly_bind; [apply writeUserFile_touchesOnly|intros written].
  apply touchesOnly_ret.
Qed.

Lemma calculateAnalytics_returns statistics now userId disk :
  exists analytics, fst (calculateAnalytics statistics now userId disk) = inr analytics.
Proof.
  unfold calculateAnalytics, tryCatch.
  destruct (bind _ _ disk) as [[e|x] disk']; simpl; eauto.
Qed.

Lemma getField_setField_eq (key : string) (v : json) (o : jobject) :
  getField key (setField key v o) = Some v.
Proof.
  induction o as [|[k v'] o IH]; simpl.
  - rewrite String.eqb_refl. reflexivity.
  - destruct (String.eqb key k) eqn:Hk; simpl; rewrite Hk; [reflexivity|exact IH].
Qed.

Lemma getField_setField_ne (key key' : string) (v : json) (o : jobject) :
  key <> key' -> getField key (setField key' v o) = getField key o.
Proof.
  intros Hne. induction o as [|[k v'] o IH]; simpl.
  - destruct (String.eqb_spec key key'); [contradiction|reflexivity].
  - destruct (String.eqb_spec key' k) as [->|Hk]; simpl.
    + destruct (String.eqb_spec key k); [contradiction|reflexivity].
    + rewrite IH. reflexivity.
Qed.

Lemma getField_spread (key : string) (target source : jobject) :
  getField key source = None -> getField key (spread target source) = getField key target.
Proof.
  unfold spread. revert target.
  induction source as [|[k v] source IH]; intros target Hnone; [reflexivity|].
  simpl in *. destruct (String.eqb_spec key k) as [->|Hk]; [discriminate|].
  rewrite IH by exact Hnone. apply getField_setField_ne. exact Hk.
Qed.

(** C4. Reading a resource that has no backing file returns the default
    document of that resource (the empty list for tasks and chat, the zero
    state for schedule and analytics, the built-in preferences) and no
    error; any other failure of the read (creating the directory, reading
    the file, parsing it) reaches the caller as the error that occurred. *)
Theorem readUserFile_default_or_error (now userId filename : string) (disk : Disk) :
  (mkdirFault disk !! userId = None -> files disk !! (userId, filename) = None ->
   fst (readUserFile now userId filename disk) = inr (getDefaultData now filename)) /\
  getDefaultData now "tasks.json" = JArr [] /\
  getDefaultData now "aichat.json" = JArr [] /\
  getDefaultData now "schedule.json"
  = JObj [("events", JArr []); ("optimizedSchedule", JArr []); ("lastOptimized", JNull)] /\
  (exists fields,
     getDefaultData now "analytics.json" = JObj fields /\
     getField "totalTasks" fields = Some (JNum 0%Q) /\
     getField "completedToday" fields = Some (JNum 0%Q) /\
     getField "focusTime" fields = Some (JNum 0%Q) /\
     getField "weeklyData" fields = Some (JArr []) /\
     getField "lastCalculated" fields = Some (JStr now)) /\
  (exists fields,
     getDefaultData now "preferences.json" = JObj fields /\
     getField "workingHours" fields
     = Some (JObj [("start", JStr "09:00"); ("end", JStr "17:00")]) /\
     getField "energyPeaks" fields = Some (JArr [JStr "morning"]) /\
     getField "preferredBreakDuration" fields = Some (JNum 15%Q) /\
     getField "focusBlockLength" fields = Some (JNum 60%Q)) /\
  (forall code, code <> "ENOENT" -> mkdirFault disk !! userId = Some code ->
   fst (readUserFile now userId filename disk) = inl (SystemError code)) /\
  (forall code, code <> "ENOENT" -> mkdirFault disk !! userId = None ->
   files disk !! (userId, filename) = Some (Unreadable code) ->
   fst (readUserFile now userId filename disk) = inl (SystemError code)) /\
  (mkdirFault disk !! userId = None ->
   files disk !! (userId, filename) = Some (Text Malformed) ->
   fst (readUserFile now userId filename disk) = inl SyntaxError).
Proof.
  split; [|split; [|split; [|split; [|split; [|split; [|split; [|split]]]]]]].
  - intros Hdir Hfile. rewrite readUserFile_run, Hdir, Hfile. reflexivity.
  - reflexivity.
  - reflexivity.
  - reflexivity.
  - eexists. split; [reflexivity|]. repeat split; reflexivity.
  - eexists. split; [reflexivity|]. repeat split; reflexivity.
  - intros code Hcode Hdir. rewrite readUserFile_run, Hdir.
    destruct (String.eqb_spec code "ENOENT"); [contradiction|reflexivity].
  - intros code Hcode Hdir Hfile. rewrite readUserFile_run, Hdir, Hfile.
    destruct (String.eqb_spec code "ENOENT"); [contradiction|reflexivity].
  - intros Hdir Hfile. rewrite readUserFile_run, Hdir, Hfile. reflexivity.
Qed.

Lemma readUserFile_default_or_error_witness :
  mkdirFault emptyDisk !! "ada" = None /\
  files emptyDisk !! ("ada", "tasks.json") = None /\
  fst (readUserFile "2025-01-01T00:00:00.000Z" "ada" "tasks.json" emptyDisk) = inr (JArr []).
Proof.
  split; [reflexivity|]. split; [reflexivity|].
  exact (proj1 (readUserFile_default_or_error "2025-01-01T00:00:00.000Z" "ada"
                  "tasks.json" emptyDisk) eq_refl eq_refl).
Defined.

(** ** Task routes *)

Lemma readUserFile_stored (now userId filename : string) (disk : Disk) (items : list json) :
  mkdirFault disk !! userId = None ->
  getDefaultData now filename = JArr [] ->
  storedArray disk userId filename = Some items ->
  readUserFile now userId filename disk = (inr (JArr items), withDirectory userId disk).
Proof.
  intros Hdir Hdef Hstored. rewrite readUserFile_run, Hdir.
  unfold storedArray in Hstored.
  destruct (files disk !! (userId, filename)) as [[[doc|]|code]|]; try discriminate.
  - destruct doc; try discriminate. congruence.
  - rewrite Hdef. congruence.
Qed.

Lemma findIndex_absent (taskId : string) (tasks : list json) :
  Forall (fun task => idMatches taskId task = inr false) tasks ->
  findIndex taskId tasks = inr None.
Proof.
  induction 1 as [|task tasks Hno _ IH]; [reflexivity|].
  simpl. rewrite Hno, IH. reflexivity.
Qed.

Lemma filterOtherIds_absent (taskId : string) (tasks : list json) :
  Forall (fun task => idMatches taskId task = inr false) tasks ->
  filterOtherIds taskId tasks = inr tasks.
Proof.
  induction 1 as [|task tasks Hno _ IH]; [reflexivity|].
  simpl. rewrite Hno, IH. reflexivity.
Qed.

(** C9. Updating or deleting a task id that is not in the stored list is
    answered with 404 "Task not found", and no file is written. *)
Theorem unknown_task_id_not_found
    (statistics : json -> json -> string -> Exn + json)
    (userId taskId now : string) (updates : jobject) (disk : Disk) (tasks : list json) :
  mkdirFault disk !! userId = None ->
  storedArray disk userId "tasks.json" = Some tasks ->
  Forall (fun task => idMatches taskId task = inr false) tasks ->
  (fst (putTask statistics userId taskId updates now disk)
   = respond 404 [("error", JStr "Task not found")] /\
   files (snd (putTask statistics userId taskId updates now disk)) = files disk) /\
  (fst (deleteTask statistics userId taskId now disk)
   = respond 404 [("error", JStr "Task not found")] /\
   files (snd (deleteTask statistics userId taskId now disk)) = files disk).
Proof.
  intros Hdir Hstored Hno. split.
  - unfold putTask, route, bind.
    rewrite (readUserFile_stored now userId "tasks.json" disk tasks Hdir eq_refl Hstored).
    simpl. rewrite (findIndex_absent taskId tasks Hno). simpl. auto.
  - unfold deleteTask, route, bind.
    rewrite (readUserFile_stored now userId "tasks.json" disk tasks Hdir eq_refl Hstored).
    simpl. rewrite (filterOtherIds_absent taskId tasks Hno). simpl.
    rewrite Nat.eqb_refl. simpl. auto.
Qed.

Lemma unknown_task_id_not_found_witness :
  let disk := snd (postTask noStatistics "ada" [("title", JStr "Buy milk")]
                     "7c9e" "2025-01-01T00:00:00.000Z" emptyDisk) in
  mkdirFault disk !! "ada" = None /\
  status (fst (putTask noStatistics "ada" "0000" [("title", JStr "x")]
                 "2025-01-02T00:00:00.000Z" disk)) = 404%Z /\
  status (fst (deleteTask noStatistics "ada" "0000"
                 "2025-01-02T00:00:00.000Z" disk)) = 404%Z.
Proof.
  intros disk.
  assert (Hdir : mkdirFault disk !! "ada" = None) by reflexivity.
  assert (Hstored : storedArray disk "ada" "tasks.json"
                    = Some [JObj (newTaskEntry [("title", JStr "Buy milk")] "7c9e"
                                    "2025-01-01T00:00:00.000Z")])
    by (vm_compute; reflexivity).
  assert (Hno : Forall (fun task => idMatches "0000" task = inr false)
                  [JObj (newTaskEntry [("title", JStr "Buy milk")] "7c9e"
                           "2025-01-01T00:00:00.000Z")])
    by (constructor; [reflexivity|constructor]).
  pose proof (unknown_task_id_not_found noStatistics "ada" "0000"
                "2025-01-02T00:00:00.000Z" [("title", JStr "x")] disk _
                Hdir Hstored Hno) as [[Hput _] [Hdel _]].
  split; [exact Hdir|]. split.
  - exact (f_equal status Hput).
  - exact (f_equal status Hdel).
Defined.

Lemma storedArray_after_write (userId filename : string) (items : list json)
    (fs : gmap (string * string) Entry) dirs mk wr :
  storedArray (mkDisk (<[ (userId, filename) := Text (Json (JArr items)) ]> fs) dirs mk wr)
    userId filename = Some items.
Proof. unfold storedArray. simpl. rewrite lookup_insert_eq. reflexivity. Qed.

Lemma storedArray_files (disk disk' : Disk) (userId filename : string) :
  files disk' !! (userId, filename) = files disk !! (userId, filename) ->
  storedArray disk' userId filename = storedArray disk userId filename.
Proof. unfold storedArray. intros ->. reflexivity. Qed.

(** C10. The task POST /api/tasks stores has completed = false and the
    server's time as createdAt, whatever the payload says about these two. *)
Theorem postTask_overrides_payload
    (statistics : json -> json -> string -> Exn + json)
    (userId : string) (taskData : jobject) (uuid now : string)
    (disk : Disk) (tasks : list json) :
  mkdirFault disk !! userId = None ->
  writeFault disk !! (userId, "tasks.json") = None ->
  storedArray disk userId "tasks.json" = Some tasks ->
  let newTask := newTaskEntry taskData uuid now in
  getField "completed" newTask = Some (JBool false) /\
  getField "createdAt" newTask = Some (JStr now) /\
  fst (postTask statistics userId taskData uuid now disk)
  = respond 200 [("success", JBool true); ("task", JObj newTask)] /\
  storedArray (snd (postTask statistics userId taskData uuid now disk)) userId "tasks.json"
  = Some (tasks ++ [JObj newTask]).
Proof.
  intros Hdir Hwrite Hstored newTask.
  split; [|split].
  - unfold newTask, newTaskEntry.
    rewrite getField_setField_ne by discriminate. apply getField_setField_eq.
  - unfold newTask, newTaskEntry. apply getField_setField_eq.
  - unfold postTask, route, bind.
    rewrite (readUserFile_stored now userId "tasks.json" disk tasks Hdir eq_refl Hstored).
    simpl. rewrite writeUserFile_run. simpl. rewrite Hdir, Hwrite.
    fold newTask.
    set (disk1 := mkDisk _ _ _ _).
    destruct (calculateAnalytics_returns statistics now userId disk1) as [analytics Ha].
    destruct (calculateAnalytics_touchesOnly statistics now userId disk1) as (_ & _ & Hfiles).
    destruct (calculateAnalytics statistics now userId disk1) as [[e|a] disk2];
      simpl in *; [discriminate|].
    split; [reflexivity|].
    rewrite (storedArray_files disk1 disk2) by (apply Hfiles; discriminate).
    apply storedArray_after_write.
Qed.

Lemma postTask_overrides_payload_witness :
  let payload := [("title", JStr "Buy milk"); ("completed", JBool true);
                  ("createdAt", JStr "1999-12-31T23:59:59.000Z")] in
  mkdirFault emptyDisk !! "ada" = None /\
  storedArray (snd (postTask noStatistics "ada" payload "7c9e"
                      "2025-01-01T00:00:00.000Z" emptyDisk)) "ada" "tasks.json"
  = Some [JObj [("id", JStr "7c9e"); ("title", JStr "Buy milk");
                ("completed", JBool false);
                ("createdAt", JStr "2025-01-01T00:00:00.000Z")]].
Proof.
  intros payload. split; [reflexivity|].
  exact (proj2 (proj2 (proj2
           (postTask_overrides_payload noStatistics "ada" payload "7c9e"
              "2025-01-01T00:00:00.000Z" emptyDisk [] eq_refl eq_refl eq_refl)))).
Defined.

(** ** Chat log *)

Lemma keepLast100_lastN (chats : list json) : keepLast100 chats = lastN 100 chats.
Proof.
  unfold keepLast100, lastN.
  destruct (Nat.ltb_spec 100 (length chats)) as [H|H]; [reflexivity|].
  replace (length chats - 100)%nat with 0%nat by lia. reflexivity.
Qed.

Lemma lastN_length {T : Type} (n : nat) (l : list T) : (length (lastN n l) <= n)%nat.
Proof. unfold lastN. rewrite length_skipn. lia. Qed.

Lemma lastN_lastN_app {T : Type} (n : nat) (l m : list T) :
  lastN n (lastN n l ++ m) = lastN n (l ++ m).
Proof.
  unfold lastN. rewrite !length_app, length_skipn.
  rewrite !skipn_app, skipn_skipn, length_skipn.
  f_equal; f_equal; lia.
Qed.

Lemma postChat_run (userId : string) (reqBody : jobject) (uuid now : string)
    (disk : Disk) (chats : list json) :
  mkdirFault disk !! userId = None ->
  writeFault disk !! (userId, "aichat.json") = None ->
  storedArray disk userId "aichat.json" = Some chats ->
  let newChat := newChatEntry reqBody uuid now in
  let disk' := snd (postChat userId reqBody uuid now disk) in
  fst (postChat userId reqBody uuid now disk)
  = respond 200 [("success", JBool true); ("chat", JObj newChat)] /\
  storedArray disk' userId "aichat.json" = Some (lastN 100 (chats ++ [JObj newChat])) /\
  mkdirFault disk' = mkdirFault disk /\ writeFault disk' = writeFault disk.
Proof.
  intros Hdir Hwrite Hstored newChat.
  unfold postChat, route, bind.
  rewrite (readUserFile_stored now userId "aichat.json" disk chats Hdir eq_refl Hstored).
  simpl. rewrite writeUserFile_run. simpl. rewrite Hdir, Hwrite. simpl.
  split; [reflexivity|]. split; [|split; reflexivity].
  fold newChat. rewrite keepLast100_lastN. apply storedArray_after_write.
Qed.

Lemma postChats_run (userId : string) (requests : list ChatRequest) :
  forall (disk : Disk) (chats : list json),
  mkdirFault disk !! userId = None ->
  writeFault disk !! (userId, "aichat.json") = None ->
  storedArray disk userId "aichat.json" = Some chats ->
  requests <> [] ->
  Forall (fun res => status res = 200%Z) (fst (postChats userId requests disk)) /\
  storedArray (snd (postChats userId requests disk)) userId "aichat.json"
  = Some (lastN 100 (chats ++ map chatEntryOf requests)).
Proof.
  induction requests as [|r rest IH]; intros disk chats Hdir Hwrite Hstored Hne;
    [contradiction|].
  simpl.
  destruct (postChat_run userId (chatBody r) (chatUuid r) (chatNow r) disk chats
              Hdir Hwrite Hstored) as (Hres & Hst & Hmk & Hwr).
  destruct (postChat userId (chatBody r) (chatUuid r) (chatNow r) disk) as [res disk1].
  simpl in *.
  destruct rest as [|r' rest'].
  - simpl. split; [constructor; [rewrite Hres; reflexivity|constructor]|].
    exact Hst.
  - destruct (IH disk1 (lastN 100 (chats ++ [chatEntryOf r]))) as [Hall Hfinal].
    + rewrite Hmk. exact Hdir.
    + rewrite Hwr. exact Hwrite.
    + exact Hst.
    + discriminate.
    + destruct (postChats userId (r' :: rest') disk1) as [more disk2]. simpl in *.
      split; [constructor; [rewrite Hres; reflexivity|exact Hall]|].
      rewrite Hfinal. f_equal. rewrite lastN_lastN_app, <- app_assoc. reflexivity.
Qed.

(** C8. After any run of chat appends the stored log holds at most 100
    entries: the most recent 100 of the old log followed by the new entries,
    in their order. *)
Theorem chat_log_keeps_last_100
    (userId : string) (requests : list ChatRequest) (disk : Disk) (chats : list json) :
  mkdirFault disk !! userId = None ->
  writeFault disk !! (userId, "aichat.json") = None ->
  storedArray disk userId "aichat.json" = Some chats ->
  requests <> [] ->
  let appended := chats ++ map chatEntryOf requests in
  exists stored,
    storedArray (snd (postChats userId requests disk)) userId "aichat.json" = Some stored /\
    (length stored <= 100)%nat /\
    stored = lastN 100 appended /\
    firstn (length appended - 100) appended ++ stored = appended /\
    Forall (fun res => status res = 200%Z) (fst (postChats userId requests disk)).
Proof.
  intros Hdir Hwrite Hstored Hne appended.
  destruct (postChats_run userId requests disk chats Hdir Hwrite Hstored Hne)
    as [Hall Hfinal].
  exists (lastN 100 appended). split; [exact Hfinal|].
  split; [apply lastN_length|]. split; [reflexivity|].
  split; [apply firstn_skipn|exact Hall].
Qed.

Lemma chat_log_keeps_last_100_witness :
  let requests :=
    repeat (mkChatRequest [("message", JStr "hi"); ("response", JStr "hello")]
              "c0de" "2025-01-01T00:00:00.000Z") 101 in
  mkdirFault emptyDisk !! "ada" = None /\
  writeFault emptyDisk !! ("ada", "aichat.json") = None /\
  exists stored,
    storedArray (snd (postChats "ada" requests emptyDisk)) "ada" "aichat.json" = Some stored /\
    (length stored <= 100)%nat.
Proof.
  intros requests. split; [reflexivity|]. split; [reflexivity|].
  destruct (chat_log_keeps_last_100 "ada" requests emptyDisk [] eq_refl eq_refl eq_refl)
    as (stored & Hs & Hlen & _).
  - discriminate.
  - exists stored. split; [exact Hs|exact Hlen].
Defined.

(** ** completed and completedAt *)



Lemma idMatches_object (taskId : string) (task : jobject) :
  idMatches taskId (JObj task) = inr (hasId taskId task).
Proof. reflexivity. Qed.

Lemma findIndex_first (taskId : string) (updates : jobject)
    (tasks : list jobject) (task : jobject) :
  find (hasId taskId) tasks = Some task ->
  exists i,
    findIndex taskId (map JObj tasks) = inr (Some i) /\
    mergeTask (nth i (map JObj tasks) JNull) updates = JObj (spread task updates) /\
    <[ i := JObj (spread task updates) ]> (map JObj tasks)
    = map JObj (assignFirst taskId updates tasks).
Proof.
  induction tasks as [|t tasks IH]; intros Hfind; [discriminate|].
  cbn [find] in Hfind. cbn [findIndex map assignFirst]. rewrite idMatches_object.
  destruct (hasId taskId t).
  - injection Hfind as ->. exists 0%nat. repeat split; reflexivity.
  - destruct (IH Hfind) as (i & Hi & Hnth & Hins). exists (S i).
    rewrite Hi. split; [reflexivity|]. split; [exact Hnth|].
    cbn [map]. rewrite <- Hins. reflexivity.
Qed.


Lemma assignFirst_split (taskId : string) (updates : jobject)
    (pre post : list jobject) (task : jobject) :
  Forall (fun t => hasId taskId t = false) pre -> hasId taskId task = true ->
  find (hasId taskId) (pre ++ task :: post) = Some task /\
  assignFirst taskId updates (pre ++ task :: post)
  = pre ++ spread task updates :: post.
Proof.
  intros Hpre Hid. induction Hpre as [|t pre Ht _ IH].
  - simpl. rewrite Hid. split; reflexivity.
  - simpl. rewrite Ht. destruct IH as [-> ->]. split; reflexivity.
Qed.




(** ** The chat panel's daily limit *)

Section ChatPanelFacts.
Variable toDateString : Z -> string.
Variable generateResponse : string -> string.

Lemma isDailyLimitReached_count (now : Z) (mgr : AIChatManager) :
  isDailyLimitReached toDateString now mgr
  = (10 <=? length (todayChats toDateString now mgr))%nat.
Proof. reflexivity. Qed.

Lemma sendMessage_alone (mgr : AIChatManager) (text : string) (now : Z) (ok : bool) :
  run toDateString generateResponse (mkPanel mgr [])
    [Submit text now; ResponderAnswers 0 now; ServerAnswers 0 ok]
  = ([fst (sendMessage toDateString generateResponse mgr text now ok)],
     mkPanel (snd (sendMessage toDateString generateResponse mgr text now ok))
       (if String.eqb text EmptyString then []
        else if isDailyLimitReached toDateString now mgr then [] else [Finished])).
Proof.
  unfold sendMessage. cbn [run handle]. unfold submit. cbn [manager calls].
  destruct (String.eqb text EmptyString); [reflexivity|].
  destruct (isDailyLimitReached toDateString now mgr); [reflexivity|].
  destruct ok; reflexivity.
Qed.

End ChatPanelFacts.

(** C3. The panel refuses a message only when the chats it holds at the
    moment of submission include ten of today.  A message sent alone goes
    through [sendMessage] as one step, and the eleventh of eleven messages sent
    in turn is refused.  Two inputs break the limit of ten per day: twelve
    messages submitted before the first is answered are all answered and
    saved, since each passes the check before any chat is pushed; and after
    ten messages and a cleared history an eleventh is answered on the same
    day, although the notice says that the limit resets tomorrow.  The
    server's own limiter admits 50 requests per 24 hours. *)
Theorem chat_limit_bypassed :
  let empty := mkPanel (mkManager [] []) [] in
  let overlapping := run sampleDate sampleResponder empty overlappingSends in
  let cleared := session sampleDate sampleResponder (mkManager [] []) clearedSession in
  (forall toDateString generateResponse mgr text now ok,
     fst (run toDateString generateResponse (mkPanel mgr [])
            [Submit text now; ResponderAnswers 0 now; ServerAnswers 0 ok])
     = [fst (sendMessage toDateString generateResponse mgr text now ok)] /\
     manager (snd (run toDateString generateResponse (mkPanel mgr [])
                     [Submit text now; ResponderAnswers 0 now; ServerAnswers 0 ok]))
     = snd (sendMessage toDateString generateResponse mgr text now ok)) /\
  fst (run sampleDate sampleResponder empty elevenInTurn)
  = repeat Sent 10 ++ [LimitReached] /\
  fst overlapping = repeat Sent 12 /\
  length (todayChats sampleDate 0 (manager (snd overlapping))) = 12%nat /\
  length (responderCalls (manager (snd overlapping))) = 12%nat /\
  fst cleared = repeat Sent 11 /\
  length (responderCalls (snd cleared)) = 11%nat /\
  aiChatLimiterMax None = 50%Z.
Proof.
  intros empty overlapping cleared.
  split.
  { intros toDateString generateResponse mgr text now ok.
    rewrite sendMessage_alone. split; reflexivity. }
  repeat split; vm_compute; reflexivity.
Qed.

(** ** The factors of the score *)

Lemma spec_energyRow_cases (high medium low : number) (e : option string) :
  spec_energyRow high medium low e = high \/ spec_energyRow high medium low e = medium \/
  spec_energyRow high medium low e = low \/ spec_energyRow high medium low e = 1%Q.
Proof.
  unfold spec_energyRow. destruct e as [s|]; [|auto].
  destruct (String.eqb s "high"); [auto|].
  destruct (String.eqb s "medium"); [auto|].
  destruct (String.eqb s "low"); auto.
Qed.

Lemma spec_energyMatchScore_cases (userEnergy : string) (e : option string) :
  spec_energyMatchScore userEnergy e = 2%Q \/
  spec_energyMatchScore userEnergy e = (3 # 2)%Q \/
  spec_energyMatchScore userEnergy e = 1%Q \/
  spec_energyMatchScore userEnergy e = (1 # 2)%Q.
Proof.
  unfold spec_energyMatchScore.
  destruct (String.eqb userEnergy "high").
  { destruct (spec_energyRow_cases 2%Q 1%Q (1 # 2)%Q e) as [-> | [-> | [-> | ->]]]; auto. }
  destruct (String.eqb userEnergy "medium").
  { destruct (spec_energyRow_cases (3 # 2)%Q 2%Q 1%Q e) as [-> | [-> | [-> | ->]]]; auto. }
  destruct (String.eqb userEnergy "low").
  { destruct (spec_energyRow_cases (1 # 2)%Q 1%Q 2%Q e) as [-> | [-> | [-> | ->]]]; auto. }
  auto.
Qed.

Lemma spec_deadlineUrgencyScore_cases (currentTime : Z) (d : option Z) :
  spec_deadlineUrgencyScore currentTime d = 3%Q \/
  spec_deadlineUrgencyScore currentTime d = 2%Q \/
  spec_deadlineUrgencyScore currentTime d = 1%Q.
Proof.
  unfold spec_deadlineUrgencyScore. destruct d as [t|]; [|auto].
  destruct (t - currentTime <? 2 * 3600000)%Z; [auto|].
  destruct (t - currentTime <? 24 * 3600000)%Z; auto.
Qed.

(** X1. For a task whose priority and required energy name no member of
    Object.prototype, and such a user energy, the score suggestTaskReorder
    sorts by is a number between 1/2 and 24: never zero, negative or NaN.
    For a priority that names a member of Object.prototype it is NaN. *)
Theorem calculateScore_bounds (currentTime : Z) (userEnergy : string) (task : Task) :
  inherited userEnergy = false ->
  plainKey (energyRequired task) = true ->
  (plainKey (priority task) = true ->
   exists score,
     calculateScore currentTime userEnergy task = Returns (Num score) /\
     ((1 # 2) <= score)%Q /\ (score <= 24)%Q) /\
  (plainKey (priority task) = false ->
   calculateScore currentTime userEnergy task = Returns NaN).
Proof.
  intros Huser He. split.
  - intros Hp. exists (spec_score currentTime userEnergy task).
    split; [apply calculateScore_spec; [exact Huser|]; unfold plainTask; rewrite Hp, He;
            reflexivity|].
    unfold spec_score.
    destruct (spec_priorityWeight_cases (priority task)) as [-> | [-> | [-> | ->]]],
      (spec_energyMatchScore_cases userEnergy (energyRequired task))
        as [-> | [-> | [-> | ->]]],
      (spec_deadlineUrgencyScore_cases currentTime (deadline task)) as [-> | [-> | ->]];
      split; unfold Qle; simpl; lia.
  - intros Hp. destruct (priority task) as [k|] eqn:Hk; [|discriminate Hp].
    simpl in Hp. apply negb_false_iff in Hp.
    apply (calculateScore_inherited currentTime userEnergy task k); assumption.
Qed.

Lemma calculateScore_bounds_witness :
  inherited "high" = false /\
  plainKey (energyRequired taskB) = true /\
  plainKey (priority taskB) = true /\
  exists score,
    calculateScore 0 "high" taskB = Returns (Num score) /\
    ((1 # 2) <= score)%Q /\ (score <= 24)%Q.
Proof.
  split; [reflexivity|]. split; [reflexivity|]. split; [reflexivity|].
  exact (proj1 (calculateScore_bounds 0 "high" taskB eq_refl eq_refl) eq_refl).
Defined.

(** X2. Of two tasks with the same required energy and the same deadline the
    one whose priority weighs at least as much scores at least as much, when
    both weights and the energy factor are numbers. *)
Theorem calculateScore_monotone_in_priority
    (currentTime : Z) (userEnergy : string) (a b : Task) (weightA weightB : number) :
  inherited userEnergy = false ->
  plainKey (energyRequired a) = true ->
  energyRequired a = energyRequired b ->
  deadline a = deadline b ->
  orElse (lookupKey priorityWeights (priority a)) 2%Q = Num weightA ->
  orElse (lookupKey priorityWeights (priority b)) 2%Q = Num weightB ->
  (weightA <= weightB)%Q ->
  exists scoreA scoreB,
    calculateScore currentTime userEnergy a = Returns (Num scoreA) /\
    calculateScore currentTime userEnergy b = Returns (Num scoreB) /\
    (scoreA <= scoreB)%Q.
Proof.
  intros Huser Hplain He Hd Ha Hb Hw.
  assert (Hplainb : plainKey (energyRequired b) = true) by (rewrite <- He; exact Hplain).
  unfold calculateScore. rewrite Ha, Hb.
  rewrite (getEnergyMatchScore_spec a _ Huser Hplain),
    (getEnergyMatchScore_spec b _ Huser Hplainb), !getDeadlineUrgencyScore_spec,
    <- He, <- Hd.
  cbn [times toNumber]. eexists. eexists. split; [reflexivity|]. split; [reflexivity|].
  destruct (spec_energyMatchScore_cases userEnergy (energyRequired a))
    as [-> | [-> | [-> | ->]]],
    (spec_deadlineUrgencyScore_cases currentTime (deadline a)) as [-> | [-> | ->]];
    lra.
Qed.

Lemma calculateScore_monotone_in_priority_witness :
  inherited "high" = false /\
  plainKey (energyRequired taskA) = true /\
  energyRequired taskA = energyRequired taskB /\
  deadline taskA = deadline taskB /\
  orElse (lookupKey priorityWeights (priority taskA)) 2%Q = Num 1%Q /\
  orElse (lookupKey priorityWeights (priority taskB)) 2%Q = Num 4%Q /\
  (1 <= 4)%Q /\
  exists scoreA scoreB,
    calculateScore 0 "high" taskA = Returns (Num scoreA) /\
    calculateScore 0 "high" taskB = Returns (Num scoreB) /\
    (scoreA <= scoreB)%Q.
Proof.
  assert (Hw : (1 <= 4)%Q) by (unfold Qle; simpl; lia).
  repeat (split; [first [reflexivity | exact Hw]|]).
  exact (calculateScore_monotone_in_priority 0 "high" taskA taskB 1%Q 4%Q
           eq_refl eq_refl eq_refl eq_refl eq_refl eq_refl Hw).
Defined.

(** X3. The urgency factor never grows with the deadline: of two tasks with
    deadlines the one due earlier (overdue included) has at least the factor
    of the other, and no deadline gives the smallest factor, 1. *)
Theorem getDeadlineUrgencyScore_antitone (currentTime : Z) (a b : Task) (da db : Z) :
  deadline a = Some da -> deadline b = Some db -> (da <= db)%Z ->
  (getDeadlineUrgencyScore b currentTime <= getDeadlineUrgencyScore a currentTime)%Q /\
  (forall c : Task, deadline c = None ->
     getDeadlineUrgencyScore c currentTime = 1%Q /\
     (getDeadlineUrgencyScore c currentTime <= getDeadlineUrgencyScore b currentTime)%Q).
Proof.
  intros Ha Hb Hle. rewrite !getDeadlineUrgencyScore_spec, Ha, Hb.
  unfold spec_deadlineUrgencyScore. split.
  - destruct (Z.ltb_spec (da - currentTime) (2 * 3600000)),
      (Z.ltb_spec (db - currentTime) (2 * 3600000)),
      (Z.ltb_spec (da - currentTime) (24 * 3600000)),
      (Z.ltb_spec (db - currentTime) (24 * 3600000)); try lia;
      unfold Qle; simpl; lia.
  - intros c Hc. rewrite getDeadlineUrgencyScore_spec, Hc. simpl.
    split; [reflexivity|].
    destruct (db - currentTime <? 2 * 3600000)%Z; [unfold Qle; simpl; lia|].
    destruct (db - currentTime <? 24 * 3600000)%Z; unfold Qle; simpl; lia.
Qed.

Lemma getDeadlineUrgencyScore_antitone_witness :
  let early := sampleTask "early" None None (Some 1800000%Z) false in
  let late := sampleTask "late" None None (Some 36000000%Z) false in
  deadline early = Some 1800000%Z /\ deadline late = Some 36000000%Z /\
  (1800000 <= 36000000)%Z /\
  (getDeadlineUrgencyScore late 0 <= getDeadlineUrgencyScore early 0)%Q.
Proof.
  intros early late.
  split; [reflexivity|]. split; [reflexivity|]. split; [lia|].
  exact (proj1 (getDeadlineUrgencyScore_antitone 0 early late 1800000 36000000
                  eq_refl eq_refl ltac:(lia))).
Defined.

Lemma Forall_permuted {T : Type} (P : T -> Prop) (l l' : list T) :
  Permutation l l' -> Forall P l -> Forall P l'.
Proof. intros Hperm H. exact (Permutation_Forall Hperm H). Qed.

Lemma Forall_filtered {T : Type} (P : T -> Prop) (f : T -> bool) (l : list T) :
  Forall P l -> Forall P (filter f l).
Proof.
  rewrite !Forall_forall. intros H x Hx. apply filter_In in Hx as [Hx _]. auto.
Qed.

(** X4. For tasks whose priority and required energy name no member of
    Object.prototype, and such a user energy, the order suggestTaskReorder
    returns does not depend on the engine's sort algorithm, and reordering
    its result again changes nothing. *)
Theorem suggestTaskReorder_engine_independent
    (sort1 sort2 : SortRoutine) (tasks : list Task) (currentTime : Z) (userEnergy : string) :
  EcmaSort sort1 -> EcmaSort sort2 ->
  inherited userEnergy = false ->
  Forall (fun task => plainTask task = true) tasks ->
  suggestTaskReorder sort1 tasks currentTime userEnergy
  = suggestTaskReorder sort2 tasks currentTime userEnergy /\
  suggestTaskReorder sort1
    (suggestTaskReorder sort1 tasks currentTime userEnergy) currentTime userEnergy
  = suggestTaskReorder sort1 tasks currentTime userEnergy.
Proof.
  intros H1 H2 Huser Hplain.
  assert (Hresult : Forall (fun task => plainTask task = true)
                      (suggestTaskReorder sort1 tasks currentTime userEnergy))
    by (apply (Forall_permuted _ tasks); [exact (proj1 (H1 _ _ _))|exact Hplain]).
  rewrite (suggestTaskReorder_spec sort1 _ _ _ H1 Huser Hresult).
  rewrite (suggestTaskReorder_spec sort1 tasks _ _ H1 Huser Hplain).
  rewrite (suggestTaskReorder_spec sort2 tasks _ _ H2 Huser Hplain).
  split.
  - apply ecma_sort_unique; [exact H1|exact H2|].
    apply (descending_consistent (spec_score currentTime userEnergy)).
  - apply ecma_sort_idempotent; [exact H1|].
    apply (descending_consistent (spec_score currentTime userEnergy)).
Qed.

Lemma suggestTaskReorder_engine_independent_witness :
  EcmaSort v8Sort /\ EcmaSort mergeSort /\
  inherited "high" = false /\
  Forall (fun task => plainTask task = true) mixedDeadlines /\
  suggestTaskReorder v8Sort mixedDeadlines 0 "high"
  = suggestTaskReorder mergeSort mixedDeadlines 0 "high".
Proof.
  assert (Hplain : Forall (fun task => plainTask task = true) mixedDeadlines)
    by (repeat constructor).
  split; [exact v8Sort_conforms|]. split; [exact mergeSort_conforms|].
  split; [reflexivity|]. split; [exact Hplain|].
  exact (proj1 (suggestTaskReorder_engine_independent v8Sort mergeSort
                  mixedDeadlines 0 "high" v8Sort_conforms mergeSort_conforms
                  eq_refl Hplain)).
Defined.

(** X5. For a user energy of the table (high, medium, low) a task that asks
    for exactly that energy gets the largest factor, 2, and no task whose
    required energy names no member of Object.prototype gets more; for a user
    energy that is neither in the table nor a member of Object.prototype
    every task gets 1.  A required energy that names a member of
    Object.prototype gets that member, a function, as its factor; and for a
    user energy that names such a member the factor is read from a built-in
    object: 1 where Object has its length, the name of Object where it has its
    name, and a TypeError where a built-in function has caller. *)
Theorem getEnergyMatchScore_best_when_matching (task : Task) (userEnergy : string) :
  (is_Some (energyMap !! userEnergy) -> energyRequired task = Some userEnergy ->
   getEnergyMatchScore task userEnergy = Returns (Num 2%Q)) /\
  (inherited userEnergy = false -> plainKey (energyRequired task) = true ->
   exists factor,
     getEnergyMatchScore task userEnergy = Returns (Num factor) /\ (factor <= 2)%Q) /\
  (energyMap !! userEnergy = None -> inherited userEnergy = false ->
   getEnergyMatchScore task userEnergy = Returns (Num 1%Q)) /\
  (forall name, inherited name = true -> energyRequired task = Some name ->
   is_Some (energyMap !! userEnergy) ->
   getEnergyMatchScore task userEnergy = Returns (Builtin [name])) /\
  map (fun key => getEnergyMatchScore (sampleTask "t" None (Some key) None false) "constructor")
    ["length"; "name"; "keys"; "caller"; "high"]
  = [Returns (Num 1%Q); Returns (Builtin ["constructor"; "name"]);
     Returns (Builtin ["constructor"; "keys"]); Throws "TypeError"; Returns (Num 1%Q)].
Proof.
  assert (Hrows : is_Some (energyMap !! userEnergy) ->
            userEnergy = "high" \/ userEnergy = "medium" \/ userEnergy = "low").
  { unfold energyMap. intros Hrow.
    destruct (String.eqb_spec userEnergy "high") as [->|H1]; [auto|].
    destruct (String.eqb_spec userEnergy "medium") as [->|H2]; [auto|].
    destruct (String.eqb_spec userEnergy "low") as [->|H3]; [auto|].
    rewrite !lookup_insert_ne, lookup_singleton_ne in Hrow by congruence.
    destruct Hrow as [row Hrow]. discriminate. }
  split; [|split; [|split; [|split]]].
  - intros Hrow Htask. unfold getEnergyMatchScore. rewrite Htask.
    destruct (Hrows Hrow) as [-> | [-> | ->]]; reflexivity.
  - intros Huser Hplain. rewrite (getEnergyMatchScore_spec _ _ Huser Hplain).
    eexists. split; [reflexivity|].
    destruct (spec_energyMatchScore_cases userEnergy (energyRequired task))
      as [-> | [-> | [-> | ->]]]; unfold Qle; simpl; lia.
  - intros Hnone Huser. unfold getEnergyMatchScore. rewrite Hnone, Huser. reflexivity.
  - intros name Hname Htask Hrow. unfold getEnergyMatchScore. rewrite Htask.
    pose proof (inherited_cases name Hname) as Hin.
    unfold objectPrototype in Hin. simpl in Hin.
    destruct (Hrows Hrow) as [-> | [-> | ->]];
      repeat (destruct Hin as [<-|Hin]; [reflexivity|]); contradiction.
  - vm_compute. reflexivity.
Qed.

Lemma getEnergyMatchScore_best_when_matching_witness :
  let task := sampleTask "deep work" None (Some "low") None false in
  is_Some (energyMap !! "low") /\ energyRequired task = Some "low" /\
  getEnergyMatchScore task "low" = Returns (Num 2%Q).
Proof.
  intros task.
  assert (Hrow : is_Some (energyMap !! "low")) by (eexists; reflexivity).
  split; [exact Hrow|]. split; [reflexivity|].
  exact (proj1 (getEnergyMatchScore_best_when_matching task "low") Hrow eq_refl).
Defined.

(** ** Energy levels *)

(** X6. The dashboard and the chat panel compute the same energy level for
    every hour: the panel's level is the dashboard's in lower case, and it is
    always a row of the energy table, so optimizeWithAI never scores with the
    fallback factor for an unknown user energy. *)
Theorem energy_levels_agree (hour : Z) :
  toLowerCase (fst (calculateEnergyLevel hour)) = getCurrentEnergyLevel hour /\
  is_Some (energyMap !! getCurrentEnergyLevel hour).
Proof.
  unfold calculateEnergyLevel, getCurrentEnergyLevel.
  destruct ((9 <=? hour)%Z && (hour <=? 11)%Z);
    [split; [reflexivity|eexists; reflexivity]|].
  destruct ((14 <=? hour)%Z && (hour <=? 16)%Z);
    [split; [reflexivity|eexists; reflexivity]|].
  destruct ((20 <=? hour)%Z || (hour <=? 6)%Z);
    split; (reflexivity || (eexists; reflexivity)).
Qed.

(** ** Dashboard.optimizeWithAI, again *)

Lemma calculateEnergyLevel_plain (hour : Z) :
  inherited (toLowerCase (fst (calculateEnergyLevel hour))) = false.
Proof.
  unfold calculateEnergyLevel.
  destruct ((9 <=? hour)%Z && (hour <=? 11)%Z); [reflexivity|].
  destruct ((14 <=? hour)%Z && (hour <=? 16)%Z); [reflexivity|].
  destruct ((20 <=? hour)%Z || (hour <=? 6)%Z); reflexivity.
Qed.

(** The comparison by score never says [before] both ways. *)
Lemma scoreDifference_asymmetric (currentTime : Z) (userEnergy : string) (a b : Task) :
  before (sortCompare (scoreDifference currentTime userEnergy)) a b = true ->
  before (sortCompare (scoreDifference currentTime userEnergy)) b a = false.
Proof.
  unfold before, sortCompare, scoreDifference.
  destruct (calculateScore currentTime userEnergy a) as [sa|],
    (calculateScore currentTime userEnergy b) as [sb|];
    try (intros H; discriminate H).
  apply minus_asymmetric.
Qed.

Lemma suggestTaskReorder_twice
    (sort : SortRoutine) (tasks : list Task) (currentTime : Z) (userEnergy : string) :
  EcmaSort sort ->
  inherited userEnergy = false ->
  Forall (fun task => plainTask task = true) tasks ->
  suggestTaskReorder sort
    (suggestTaskReorder sort tasks currentTime userEnergy) currentTime userEnergy
  = suggestTaskReorder sort tasks currentTime userEnergy.
Proof.
  intros Hsort Huser Hplain.
  assert (Hresult : Forall (fun task => plainTask task = true)
                      (suggestTaskReorder sort tasks currentTime userEnergy))
    by (apply (Forall_permuted _ tasks); [exact (proj1 (Hsort _ _ _))|exact Hplain]).
  rewrite (suggestTaskReorder_spec sort _ _ _ Hsort Huser Hresult).
  rewrite (suggestTaskReorder_spec sort tasks _ _ Hsort Huser Hplain).
  apply ecma_sort_idempotent; [exact Hsort|].
  apply (descending_consistent (spec_score currentTime userEnergy)).
Qed.

Lemma optimizeWithAI_twice
    (sort : SortRoutine) (tasks : list Task) (currentTime hour : Z) :
  let userEnergy := toLowerCase (fst (calculateEnergyLevel hour)) in
  let active := filter (fun task => negb (completed task)) tasks in
  let optimized := suggestTaskReorder sort active currentTime userEnergy in
  Permutation active optimized ->
  suggestTaskReorder sort optimized currentTime userEnergy = optimized ->
  optimizeWithAI sort (optimizeWithAI sort tasks currentTime hour) currentTime hour
  = optimizeWithAI sort tasks currentTime hour.
Proof.
  intros userEnergy active optimized Hperm Hfixed.
  destruct tasks as [|t0 tasks0]; [reflexivity|].
  set (tasks := t0 :: tasks0) in *.
  set (done := filter (fun task => completed task) tasks).
  assert (Hfirst : optimizeWithAI sort tasks currentTime hour = optimized ++ done)
    by reflexivity.
  assert (Hactive : forall x, In x optimized -> completed x = false).
  { intros x Hx. apply (Permutation_in x (Permutation_sym Hperm)) in Hx.
    apply filter_In in Hx as [_ Hx]. destruct (completed x); [discriminate|reflexivity]. }
  assert (Hdone : forall x, In x done -> completed x = true).
  { intros x Hx. apply filter_In in Hx as [_ Hx]. exact Hx. }
  rewrite Hfirst. unfold optimizeWithAI.
  destruct (optimized ++ done) as [|r rest] eqn:Hres; [reflexivity|].
  cbn [length Nat.eqb]. rewrite <- Hres.
  rewrite !filter_app.
  rewrite (filter_all _ optimized)
    by (intros x Hx; rewrite (Hactive x Hx); reflexivity).
  rewrite (filter_none _ done)
    by (intros x Hx; rewrite (Hdone x Hx); reflexivity).
  rewrite (filter_none _ optimized) by exact Hactive.
  rewrite (filter_all _ done) by exact Hdone.
  rewrite app_nil_r. cbn [app]. f_equal.
  exact Hfixed.
Qed.

(** X7. Optimizing an already optimized task list, at the same instant,
    changes nothing: with any engine when priority and required energy of
    the tasks name no member of Object.prototype, and with V8 for every list
    of fewer than 64 tasks. *)
Theorem optimizeWithAI_idempotent
    (sort : SortRoutine) (tasks : list Task) (currentTime hour : Z) :
  EcmaSort sort ->
  (Forall (fun task => plainTask task = true) tasks ->
   optimizeWithAI sort (optimizeWithAI sort tasks currentTime hour) currentTime hour
   = optimizeWithAI sort tasks currentTime hour) /\
  ((length tasks < 64)%nat ->
   optimizeWithAI v8Sort (optimizeWithAI v8Sort tasks currentTime hour) currentTime hour
   = optimizeWithAI v8Sort tasks currentTime hour).
Proof.
  intros Hsort. split.
  - intros Hplain. apply optimizeWithAI_twice; [exact (proj1 (Hsort _ _ _))|].
    apply suggestTaskReorder_twice;
      [exact Hsort|apply calculateEnergyLevel_plain|].
    apply Forall_filtered. exact Hplain.
  - intros _. apply optimizeWithAI_twice; [apply v8_sort_perm|].
    unfold suggestTaskReorder, v8Sort. apply v8_sort_idempotent.
    intros x y _ _. apply scoreDifference_asymmetric.
Qed.

Lemma optimizeWithAI_idempotent_witness :
  EcmaSort mergeSort /\
  Forall (fun task => plainTask task = true) [taskC; taskA; taskB] /\
  optimizeWithAI mergeSort (optimizeWithAI mergeSort [taskC; taskA; taskB] 0 10) 0 10
  = optimizeWithAI mergeSort [taskC; taskA; taskB] 0 10.
Proof.
  assert (Hplain : Forall (fun task => plainTask task = true) [taskC; taskA; taskB])
    by (repeat constructor).
  split; [exact mergeSort_conforms|]. split; [exact Hplain|].
  exact (proj1 (optimizeWithAI_idempotent mergeSort [taskC; taskA; taskB] 0 10
                  mergeSort_conforms) Hplain).
Defined.

(** ** TaskManager.getFilteredTasks *)

Section TaskListFacts.
Variable toDateString : Z -> string.

Lemma filters_today (now : Z) :
  filters toDateString now !! "today" = Some (filter (dueToday toDateString now)).
Proof. unfold filters. apply lookup_insert_eq. Qed.

Lemma filters_high (now : Z) :
  filters toDateString now !! "high" = Some (filter isHighPriority).
Proof.
  unfold filters. rewrite lookup_insert_ne by discriminate. apply lookup_insert_eq.
Qed.

Lemma filters_completed (now : Z) :
  filters toDateString now !! "completed" = Some (filter (fun task => completed task)).
Proof.
  unfold filters. rewrite !lookup_insert_ne by discriminate. apply lookup_singleton_eq.
Qed.

Lemma filters_other (now : Z) (name : string) :
  name <> "today" -> name <> "high" -> name <> "completed" ->
  filters toDateString now !! name = None.
Proof.
  intros H1 H2 H3. unfold filters.
  rewrite !lookup_insert_ne by congruence. apply lookup_singleton_ne. congruence.
Qed.

Lemma dueToday_uniform (now : Z) (tasks : list Task) :
  deadlineUniform (filter (dueToday toDateString now) tasks).
Proof.
  intros a b Ha Hb _ _.
  apply filter_In in Ha as [_ Ha]. apply filter_In in Hb as [_ Hb].
  unfold dueToday in Ha, Hb.
  destruct (deadline a), (deadline b); try discriminate. split; discriminate.
Qed.

End TaskListFacts.

(** X8. Each tab of the task list shows exactly the tasks that pass its
    filter, each as often as it is in the list: Today those whose deadline is
    dated today, High those of priority high or urgent, Completed the
    completed ones; any other tab name, such as all, shows every task. *)
Theorem getFilteredTasks_shows_matching
    (toDateString : Z -> string) (sort : SortRoutine) (tasks : list Task) (now : Z) :
  EcmaSort sort ->
  Permutation (filter (dueToday toDateString now) tasks)
    (getFilteredTasks toDateString sort tasks "today" now) /\
  Permutation (filter isHighPriority tasks)
    (getFilteredTasks toDateString sort tasks "high" now) /\
  Permutation (filter (fun task => completed task) tasks)
    (getFilteredTasks toDateString sort tasks "completed" now) /\
  (forall name, name <> "today" -> name <> "high" -> name <> "completed" ->
     Permutation tasks (getFilteredTasks toDateString sort tasks name now)).
Proof.
  intros Hsort. unfold getFilteredTasks, sortTasks.
  rewrite filters_today, filters_high, filters_completed.
  split; [exact (proj1 (Hsort _ _ _))|].
  split; [exact (proj1 (Hsort _ _ _))|].
  split; [exact (proj1 (Hsort _ _ _))|].
  intros name H1 H2 H3. rewrite (filters_other toDateString now name H1 H2 H3).
  exact (proj1 (Hsort _ _ _)).
Qed.

Lemma getFilteredTasks_shows_matching_witness :
  EcmaSort insertionSort /\
  Permutation (filter (fun task => completed task) [taskA; taskB; taskC])
    (getFilteredTasks sampleDate insertionSort [taskA; taskB; taskC] "completed" 0).
Proof.
  split; [exact insertionSort_conforms|].
  exact (proj1 (proj2 (proj2
           (getFilteredTasks_shows_matching sampleDate insertionSort
              [taskA; taskB; taskC] 0 insertionSort_conforms)))).
Defined.

(** X9. On the Today tab every task has a deadline, so for tasks whose
    completed is a boolean and whose priority names no member of
    Object.prototype the list comparator is a consistent comparison function
    there: the order shown does not depend on the engine's sort algorithm, it
    is the stable sort of the filtered tasks, and sorting it again changes
    nothing. *)
Theorem getFilteredTasks_today_engine_independent
    (toDateString : Z -> string) (sort1 sort2 : SortRoutine) (tasks : list Task) (now : Z) :
  EcmaSort sort1 -> EcmaSort sort2 ->
  Forall (fun task => ordinaryTask task = true) tasks ->
  let shown := getFilteredTasks toDateString sort1 tasks "today" now in
  shown = getFilteredTasks toDateString sort2 tasks "today" now /\
  StableSorted (sortCompare compareTasks) (filter (dueToday toDateString now) tasks) shown /\
  sortTasks sort1 shown = shown.
Proof.
  intros H1 H2 Hord shown. unfold shown, getFilteredTasks, sortTasks.
  rewrite filters_today.
  pose proof (deadlineUniform_consistent _
                (Forall_filtered _ (dueToday toDateString now) tasks Hord)
                (dueToday_uniform toDateString now tasks))
    as Hc.
  split; [apply ecma_sort_unique; assumption|].
  split; [exact (proj2 (H1 _ _ _) Hc)|].
  apply ecma_sort_idempotent; assumption.
Qed.

Lemma getFilteredTasks_today_engine_independent_witness :
  EcmaSort v8Sort /\ EcmaSort mergeSort /\
  Forall (fun task => ordinaryTask task = true) mixedDeadlines /\
  getFilteredTasks sampleDate v8Sort mixedDeadlines "today" 0
  = getFilteredTasks sampleDate mergeSort mixedDeadlines "today" 0.
Proof.
  assert (Hord : Forall (fun task => ordinaryTask task = true) mixedDeadlines)
    by (repeat constructor).
  split; [exact v8Sort_conforms|]. split; [exact mergeSort_conforms|].
  split; [exact Hord|].
  exact (proj1 (getFilteredTasks_today_engine_independent sampleDate
                  v8Sort mergeSort mixedDeadlines 0
                  v8Sort_conforms mergeSort_conforms Hord)).
Defined.

(** ** Dashboard.generateAIRecommendations *)

Lemma collectRecommendations_length (activeTasks : list Task) (now currentHour : Z) :
  (1 <= length (collectRecommendations activeTasks now currentHour) <= 3)%nat.
Proof.
  unfold collectRecommendations.
  destruct (filter isHighPriority activeTasks) as [|nextTask rest];
    destruct (0 <? length (filter (isOverdue now) activeTasks))%nat;
    destruct ((9 <=? currentHour)%Z && (currentHour <=? 11)%Z
              && (0 <? length (filter needsHighEnergy activeTasks))%nat);
    cbn [app length Nat.eqb]; lia.
Qed.

(** X10. The dashboard always shows between one and three recommendations;
    [slice(0, 3)] never cuts one off; and the two fallback cards (all tasks
    completed, schedule looks balanced) are only ever shown alone. *)
Theorem generateAIRecommendations_count (tasks : list Task) (now currentHour : Z) :
  let shown := generateAIRecommendations tasks now currentHour in
  let activeTasks := filter (fun task => negb (completed task)) tasks in
  (1 <= length shown <= 3)%nat /\
  (activeTasks <> [] -> shown = collectRecommendations activeTasks now currentHour) /\
  (forall r, In r shown -> icon r = "check-circle" \/ icon r = "lightbulb" ->
     shown = [r]).
Proof.
  intros shown activeTasks. unfold shown, generateAIRecommendations. fold activeTasks.
  pose proof (collectRecommendations_length activeTasks now currentHour) as Hlen.
  destruct activeTasks as [|t rest] eqn:Hactive.
  - cbn [length Nat.eqb]. split; [simpl; lia|]. split; [congruence|].
    intros r [<-|[]] _. reflexivity.
  - cbn [length Nat.eqb].
    rewrite firstn_all2 by lia.
    split; [exact Hlen|]. split; [reflexivity|].
    intros r Hr Hicon. revert Hr. clear Hlen. unfold collectRecommendations.
    destruct (filter isHighPriority (t :: rest)) as [|nextTask others];
      destruct (0 <? length (filter (isOverdue now) (t :: rest)))%nat;
      destruct ((9 <=? currentHour)%Z && (currentHour <=? 11)%Z
                && (0 <? length (filter needsHighEnergy (t :: rest)))%nat);
      cbn [app length Nat.eqb In]; intros Hr;
      repeat (destruct Hr as [<-|Hr]; [cbn [icon] in Hicon;
                destruct Hicon as [Hi|Hi]; try discriminate Hi; try reflexivity|]);
      try contradiction.
Qed.

(** ** The scripted responder *)

Lemma prefix_append (s t : string) : String.prefix s (s +:+ t) = true.
Proof.
  induction s as [|c s IH]; [destruct t; reflexivity|].
  simpl. destruct (Ascii.ascii_dec c c); [exact IH|contradiction].
Qed.

Lemma includes_prefix (s keyword : string) :
  String.prefix keyword s = true -> includes s keyword = true.
Proof.
  intros Hprefix. destruct s; cbn -[String.prefix]; rewrite Hprefix; reflexivity.
Qed.

Lemma includes_later (c : Ascii.ascii) (s keyword : string) :
  includes s keyword = true -> includes (String c s) keyword = true.
Proof.
  intros Hlater. cbn -[String.prefix]. rewrite Hlater. apply orb_true_r.
Qed.

Lemma includes_append (pre word post : string) :
  includes (pre +:+ word +:+ post) word = true.
Proof.
  induction pre as [|c pre IH].
  - apply includes_prefix. exact (prefix_append word post).
  - apply (includes_later c (pre +:+ word +:+ post) word IH).
Qed.

Lemma append_cons (c : Ascii.ascii) (s t : string) :
  String c s +:+ t = String c (s +:+ t).
Proof. reflexivity. Qed.

Lemma append_assoc (s t u : string) : (s +:+ t) +:+ u = s +:+ (t +:+ u).
Proof.
  induction s as [|c s IH]; [reflexivity|].
  rewrite !append_cons, IH. reflexivity.
Qed.

Lemma toLowerCase_append (s t : string) :
  toLowerCase (s +:+ t) = toLowerCase s +:+ toLowerCase t.
Proof.
  induction s as [|c s IH]; [reflexivity|].
  rewrite append_cons. cbn [toLowerCase]. rewrite append_cons, IH. reflexivity.
Qed.

Lemma generateResponse_patterns (message : string) (context : Context) :
  let lower := toLowerCase message in
  let activeTasks := filter (fun task => negb (completed task)) (context_tasks context) in
  let completedTasks := filter (fun task => completed task) (context_tasks context) in
  generateResponse message context =
  if includes lower "focus" || includes lower "concentrate" then
    getFocusResponse activeTasks (context_energyLevel context)
  else if includes lower "productivity" || includes lower "productive" then
    getProductivityResponse completedTasks (context_preferences context)
  else if includes lower "schedule" || includes lower "calendar" then
    getScheduleResponse activeTasks (context_currentTime context)
  else if includes lower "task" || includes lower "tasks" then
    getTasksResponse activeTasks completedTasks
  else getDefaultResponse activeTasks completedTasks.
Proof.
  intros lower activeTasks completedTasks.
  unfold generateResponse, responsePatterns. fold lower activeTasks completedTasks.
  cbn [find fst snd existsb]. rewrite !orb_false_r.
  destruct (includes lower "focus" || includes lower "concentrate"); [reflexivity|].
  destruct (includes lower "productivity" || includes lower "productive"); [reflexivity|].
  destruct (includes lower "schedule" || includes lower "calendar"); [reflexivity|].
  destruct (includes lower "task" || includes lower "tasks"); reflexivity.
Qed.

(** X11. A message that mentions focus or concentrate anywhere, in any
    letter case, gets the focus answer, whatever else it mentions. *)
Theorem generateResponse_mentions_focus
    (pre word post : string) (context : Context) :
  toLowerCase word = "focus" \/ toLowerCase word = "concentrate" ->
  generateResponse (pre +:+ word +:+ post) context
  = getFocusResponse
      (filter (fun task => negb (completed task)) (context_tasks context))
      (context_energyLevel context).
Proof.
  intros Hword. rewrite generateResponse_patterns. cbv zeta.
  rewrite !toLowerCase_append.
  destruct Hword as [-> | ->]; rewrite includes_append;
    [reflexivity|rewrite orb_true_r; reflexivity].
Qed.

Lemma generateResponse_mentions_focus_witness :
  (toLowerCase "FOCUS" = "focus" \/ toLowerCase "FOCUS" = "concentrate") /\
  generateResponse ("Which task should I " +:+ "FOCUS" +:+ " on today?")
    (buildContext [] 0 10)
  = "You don't have any active tasks right now! Consider adding some tasks to your list.".
Proof.
  split; [left; reflexivity|].
  exact (generateResponse_mentions_focus "Which task should I " "FOCUS" " on today?"
           (buildContext [] 0 10) (or_introl eq_refl)).
Defined.

Lemma getFocusResponse_high (activeTasks : list Task) (energyLevel : string)
    (nextTask : Task) (others : list Task) :
  filter isHighPriority activeTasks = nextTask :: others ->
  getFocusResponse activeTasks energyLevel
  = "Based on your current " +:+ energyLevel
    +:+ " energy level, I recommend focusing on " +:+ dquote +:+ title nextTask
    +:+ dquote +:+ " - it's marked as " +:+ priorityText nextTask +:+ " priority.".
Proof.
  intros Hhigh. unfold getFocusResponse.
  destruct activeTasks as [|firstTask rest]; [discriminate|].
  rewrite Hhigh. reflexivity.
Qed.

Lemma filter_active_skips (pre : list Task) :
  Forall (fun x => completed x = true \/ isHighPriority x = false) pre ->
  filter isHighPriority (filter (fun task => negb (completed task)) pre) = [].
Proof.
  induction 1 as [|x pre Hx _ IH]; [reflexivity|].
  simpl. destruct (completed x) eqn:Hc; simpl; [exact IH|].
  destruct Hx as [Hx|Hx]; [discriminate|]. rewrite Hx. exact IH.
Qed.

(** X12. Asked about focus, the responder names the first task of the list
    that is not completed and has priority high or urgent, skipping completed
    tasks even of the highest priority; when no incomplete task has such a
    priority it names the first incomplete task. *)
Theorem focus_answer_names_first_open_task
    (message : string) (context : Context) (pre post : list Task) (t : Task) :
  includes (toLowerCase message) "focus" = true
  \/ includes (toLowerCase message) "concentrate" = true ->
  context_tasks context = pre ++ t :: post ->
  completed t = false ->
  (forall p, priority t = Some p -> p = "high" \/ p = "urgent" ->
     Forall (fun x => completed x = true \/ isHighPriority x = false) pre ->
     generateResponse message context
     = "Based on your current " +:+ context_energyLevel context
       +:+ " energy level, I recommend focusing on " +:+ dquote +:+ title t
       +:+ dquote +:+ " - it's marked as " +:+ p +:+ " priority.") /\
  (Forall (fun x => completed x = true) pre ->
   Forall (fun x => completed x = true \/ isHighPriority x = false) (t :: post) ->
   generateResponse message context
   = "I suggest working on " +:+ dquote +:+ title t +:+ dquote
     +:+ " next. Your " +:+ context_energyLevel context
     +:+ " energy level is good for this type of task.").
Proof.
  intros Hfocus Htasks Hopen.
  rewrite generateResponse_patterns. cbv zeta.
  assert (Hor : includes (toLowerCase message) "focus"
                || includes (toLowerCase message) "concentrate" = true)
    by (destruct Hfocus as [-> | ->]; [reflexivity|apply orb_true_r]).
  rewrite Hor, Htasks, filter_app. cbn [filter]. rewrite Hopen. cbn [negb].
  split.
  - intros p Hp Hhigh Hpre.
    assert (Ht : isHighPriority t = true).
    { unfold isHighPriority. rewrite Hp. destruct Hhigh as [-> | ->]; reflexivity. }
    rewrite (getFocusResponse_high _ _ t
               (filter isHighPriority (filter (fun task => negb (completed task)) post))).
    + unfold priorityText. rewrite Hp. reflexivity.
    + rewrite filter_app, (filter_active_skips pre Hpre). cbn [filter app].
      rewrite Ht. reflexivity.
  - intros Hpre Hrest.
    rewrite (filter_none _ pre)
      by (rewrite Forall_forall in Hpre; intros x Hx; rewrite (Hpre x Hx); reflexivity).
    cbn [app]. unfold getFocusResponse.
    pose proof (filter_active_skips (t :: post) Hrest) as Hnone.
    cbn [filter] in Hnone. rewrite Hopen in Hnone. cbn [negb] in Hnone.
    rewrite Hnone. reflexivity.
Qed.

Lemma focus_answer_names_first_open_task_witness :
  let context := buildContext [taskC; taskA; taskB] 0 10 in
  (includes (toLowerCase "Help me focus") "focus" = true
   \/ includes (toLowerCase "Help me focus") "concentrate" = true) /\
  context_tasks context = [taskC; taskA] ++ taskB :: [] /\
  completed taskB = false /\
  generateResponse "Help me focus" context
  = "Based on your current high energy level, I recommend focusing on "
    +:+ dquote +:+ "B" +:+ dquote +:+ " - it's marked as urgent priority.".
Proof.
  intros context.
  split; [left; reflexivity|]. split; [reflexivity|]. split; [reflexivity|].
  refine (proj1 (focus_answer_names_first_open_task "Help me focus" context
                   [taskC; taskA] [] taskB (or_introl eq_refl) eq_refl eq_refl)
            "urgent" eq_refl (or_intror eq_refl) _).
  constructor; [left; reflexivity|].
  constructor; [right; reflexivity|constructor].
Defined.

Lemma dueWithin24Hours_ms (currentTime : Z) (task : Task) :
  dueWithin24Hours currentTime task
  = match deadline task with
    | Some d => (currentTime <? d)%Z && (d <=? currentTime + 86400000)%Z
    | None => false
    end.
Proof.
  unfold dueWithin24Hours. destruct (deadline task) as [d|]; [|reflexivity].
  unfold ltNumber, Qle_bool, Qdiv, Qinv, Qmult, inject_Z; simpl.
  change (Z.pos (1 * (1000 * 60 * 60))) with 3600000%Z.
  destruct (Z.leb_spec ((d - currentTime) * 1 * 1) (24 * 3600000)),
    (Z.leb_spec ((d - currentTime) * 1 * 1) (0 * 3600000)),
    (Z.ltb_spec currentTime d), (Z.leb_spec d (currentTime + 86400000));
    try reflexivity; lia.
Qed.

(** X13. Asked about the schedule (and not about focus or productivity,
    which come first), the responder counts the incomplete tasks whose
    deadline lies ahead and at most 24 hours away; a task that is overdue or
    has no deadline is not counted, so a list whose open tasks are all
    overdue is answered with "Your schedule looks manageable!". *)
Theorem schedule_answer_ignores_overdue (message : string) (context : Context) :
  let lower := toLowerCase message in
  let now := context_currentTime context in
  let activeTasks := filter (fun task => negb (completed task)) (context_tasks context) in
  let upcoming :=
    filter (fun task =>
              match deadline task with
              | Some d => (now <? d)%Z && (d <=? now + 86400000)%Z
              | None => false
              end) activeTasks in
  includes lower "focus" = false -> includes lower "concentrate" = false ->
  includes lower "productivity" = false -> includes lower "productive" = false ->
  includes lower "schedule" = true \/ includes lower "calendar" = true ->
  activeTasks <> [] ->
  (upcoming <> [] ->
   generateResponse message context
   = "You have " +:+ pretty (length upcoming) +:+ " task"
     +:+ (if (1 <? length upcoming)%nat then "s" else EmptyString)
     +:+ " due within 24 hours. I recommend prioritizing these first.") /\
  (Forall (fun task => forall d, deadline task = Some d -> (d <= now)%Z) activeTasks ->
   generateResponse message context
   = "Your schedule looks manageable! You have " +:+ pretty (length activeTasks)
     +:+ " active tasks.").
Proof.
  intros lower now activeTasks upcoming H1 H2 H3 H4 Hsched Hactive.
  rewrite generateResponse_patterns. cbv zeta. fold lower activeTasks now.
  rewrite H1, H2, H3, H4. cbn [orb].
  assert (Hor : includes lower "schedule" || includes lower "calendar" = true)
    by (destruct Hsched as [-> | ->]; [reflexivity|apply orb_true_r]).
  rewrite Hor. unfold getScheduleResponse.
  assert (Hfilter : filter (dueWithin24Hours now) activeTasks = upcoming).
  { unfold upcoming. apply filter_ext. intros task. apply dueWithin24Hours_ms. }
  rewrite Hfilter.
  destruct activeTasks as [|a rest] eqn:Ha; [contradiction|].
  cbn [length Nat.eqb]. split.
  - intros Hup. destruct upcoming as [|u more]; [contradiction|]. reflexivity.
  - intros Hover.
    assert (Hnone : upcoming = []).
    { unfold upcoming. apply filter_none. intros task Htask.
      rewrite Forall_forall in Hover. specialize (Hover task Htask).
      destruct (deadline task) as [d|]; [|reflexivity].
      specialize (Hover d eq_refl).
      destruct (Z.ltb_spec now d); [lia|reflexivity]. }
    rewrite Hnone. reflexivity.
Qed.

Lemma schedule_answer_ignores_overdue_witness :
  let late := sampleTask "report" (Some "urgent") None (Some 1000%Z) false in
  let context := buildContext [late] 5000 10 in
  let lower := toLowerCase "What does my schedule look like today?" in
  includes lower "focus" = false /\ includes lower "concentrate" = false /\
  includes lower "productivity" = false /\ includes lower "productive" = false /\
  (includes lower "schedule" = true \/ includes lower "calendar" = true) /\
  generateResponse "What does my schedule look like today?" context
  = "Your schedule looks manageable! You have 1 active tasks.".
Proof.
  intros late context lower.
  split; [reflexivity|]. split; [reflexivity|]. split; [reflexivity|].
  split; [reflexivity|]. split; [left; reflexivity|].
  refine (proj2 (schedule_answer_ignores_overdue
                   "What does my schedule look like today?" context
                   eq_refl eq_refl eq_refl eq_refl (or_introl eq_refl) _) _).
  - discriminate.
  - constructor; [|constructor]. intros d Hd. injection Hd as <-.
    vm_compute. discriminate.
Defined.

(** X14. The chat panel hands the responder empty preferences, so its
    productivity answer always reports the peak energy times as not set and
    recommends 15-minute breaks every 60 minutes; only the number of
    completed tasks varies. *)
Theorem panel_productivity_answer_ignores_preferences
    (message : string) (tasks : list Task) (now hour : Z) :
  let lower := toLowerCase message in
  includes lower "focus" = false -> includes lower "concentrate" = false ->
  includes lower "productivity" = true \/ includes lower "productive" = true ->
  generateResponse message (buildContext tasks now hour)
  = "You've completed "
    +:+ pretty (length (filter (fun task => completed task) tasks))
    +:+ " tasks so far - great progress! Your peak energy times are not set yet. Take 15-minute breaks every 60 minutes. Batch similar tasks together to reduce context switching.".
Proof.
  intros lower H1 H2 Hprod.
  rewrite generateResponse_patterns. cbv zeta. fold lower.
  rewrite H1, H2. cbn [orb].
  assert (Hor : includes lower "productivity" || includes lower "productive" = true)
    by (destruct Hprod as [-> | ->]; [reflexivity|apply orb_true_r]).
  rewrite Hor. unfold getProductivityResponse, buildContext.
  cbn [context_tasks context_preferences energyPeaks preferredBreakDuration
       focusBlockLength option_map orText orMinutes].
  change (pretty 15%Z) with "15". change (pretty 60%Z) with "60".
  cbn [String.concat]. rewrite !append_assoc. reflexivity.
Qed.

Lemma panel_productivity_answer_ignores_preferences_witness :
  let lower := toLowerCase "How productive was I?" in
  includes lower "focus" = false /\ includes lower "concentrate" = false /\
  (includes lower "productivity" = true \/ includes lower "productive" = true) /\
  generateResponse "How productive was I?" (buildContext [taskA; taskB; taskC] 0 10)
  = "You've completed 1 tasks so far - great progress! Your peak energy times are not set yet. Take 15-minute breaks every 60 minutes. Batch similar tasks together to reduce context switching.".
Proof.
  intros lower.
  split; [reflexivity|]. split; [reflexivity|]. split; [right; reflexivity|].
  exact (panel_productivity_answer_ignores_preferences "How productive was I?"
           [taskA; taskB; taskC] 0 10 eq_refl eq_refl (or_intror eq_refl)).
Defined.

(** ** The chat panel, over whole sessions *)

Section SessionFacts.
Variable toDateString : Z -> string.
Variable generateResponse : string -> string.

Lemma sendMessage_cases (mgr : AIChatManager) (text : string) (now : Z) (ok : bool) :
  let result := sendMessage toDateString generateResponse mgr text now ok in
  (answered (fst result) = false /\ snd result = mgr) \/
  ((length (todayChats toDateString now mgr) < 10)%nat /\
   responderCalls (snd result) = responderCalls mgr ++ [text] /\
   ((fst result = Sent /\
     chats (snd result) = chats mgr ++ [mkChat text (generateResponse text) now]) \/
    (fst result = NotSaved /\ chats (snd result) = chats mgr))).
Proof.
  unfold sendMessage.
  destruct (String.eqb text EmptyString); [left; split; reflexivity|].
  rewrite isDailyLimitReached_count.
  destruct (Nat.leb_spec 10 (length (todayChats toDateString now mgr))) as [Hfull|Hroom];
    [left; split; reflexivity|].
  right. split; [exact Hroom|].
  destruct ok; (split; [reflexivity|]); [left|right]; split; reflexivity.
Qed.

End SessionFacts.

(** X15. In any sequence of messages and history clearings the responder is
    asked exactly once for every message that is not ignored or refused, and
    the panel gains at most one chat per message that was sent. *)
Theorem responder_asked_once_per_answer
    (toDateString : Z -> string) (generateResponse : string -> string)
    (mgr : AIChatManager) (actions : list Action) :
  let result := session toDateString generateResponse mgr actions in
  length (responderCalls (snd result))
  = (length (responderCalls mgr) + length (filter answered (fst result)))%nat /\
  (length (chats (snd result))
   <= length (chats mgr) + length (filter isSent (fst result)))%nat.
Proof.
  revert mgr.
  induction actions as [|a actions IH]; intros mgr; [simpl; lia|].
  destruct a as [text now ok|confirmed ok]; cbv zeta; cbn [session step].
  - pose proof (sendMessage_cases toDateString generateResponse mgr text now ok) as Hcases. cbv zeta in Hcases.
    destruct (sendMessage toDateString generateResponse mgr text now ok) as [o mgr1].
    specialize (IH mgr1). cbv zeta in IH.
    destruct (session toDateString generateResponse mgr1 actions) as [outcomes mgr2].
    cbn [fst snd app filter] in *.
    destruct Hcases as [[Ho ->]|(_ & Hcalls & [[-> Hchats]|[-> Hchats]])].
    + rewrite Ho. destruct o; try discriminate; cbn [isSent]; lia.
    + rewrite Hcalls, Hchats, !length_app in IH. cbn [answered isSent length] in *. lia.
    + rewrite Hcalls, Hchats, !length_app in IH. cbn [answered isSent length] in *. lia.
  - specialize (IH (clearChat mgr confirmed ok)). cbv zeta in IH.
    destruct (session toDateString generateResponse (clearChat mgr confirmed ok) actions)
      as [outcomes mgr2].
    cbn [fst snd app] in *. unfold clearChat in IH.
    destruct (confirmed && ok); cbn [responderCalls chats length] in IH; lia.
Qed.

(** ** The document store, again *)

(** X17. What writeUserFile has written readUserFile returns, whatever the
    file held before, and no other file is changed.  A write that fails is
    reported to the caller with its error and changes no other file; the
    file itself is as it was when the failure is on opening it, and holds
    what reached it, the old content gone, when the failure is while
    writing. *)
Theorem write_then_read
    (now userId filename : string) (data : json) (disk : Disk) :
  mkdirFault disk !! userId = None ->
  let after := snd (writeUserFile userId filename data disk) in
  (forall key, key <> (userId, filename) -> files after !! key = files disk !! key) /\
  (writeFault disk !! (userId, filename) = None ->
   fst (writeUserFile userId filename data disk) = inr true /\
   fst (readUserFile now userId filename after) = inr data) /\
  (forall code, writeFault disk !! (userId, filename) = Some (FailsOnOpen code) ->
   fst (writeUserFile userId filename data disk) = inl (SystemError code) /\
   files after = files disk) /\
  (forall code reached,
   writeFault disk !! (userId, filename) = Some (FailsWhileWriting code reached) ->
   fst (writeUserFile userId filename data disk) = inl (SystemError code) /\
   files after !! (userId, filename) = Some (Text reached)).
Proof.
  intros Hdir after. unfold after. rewrite writeUserFile_run, Hdir.
  split; [|split; [|split]].
  - intros key Hkey.
    destruct (writeFault disk !! (userId, filename)) as [[code|code reached]|];
      cbn [snd files withDirectory]; try reflexivity;
      apply lookup_insert_ne; congruence.
  - intros Hwrite. rewrite Hwrite. cbn [fst snd].
    split; [reflexivity|].
    rewrite readUserFile_run. cbn [mkdirFault files]. rewrite Hdir, lookup_insert_eq.
    reflexivity.
  - intros code Hwrite. rewrite Hwrite. split; reflexivity.
  - intros code reached Hwrite. rewrite Hwrite. cbn [fst snd files].
    split; [reflexivity|apply lookup_insert_eq].
Qed.

Lemma write_then_read_witness :
  mkdirFault emptyDisk !! "ada" = None /\
  writeFault emptyDisk !! ("ada", "schedule.json") = None /\
  fst (readUserFile "2025-01-01T00:00:00.000Z" "ada" "schedule.json"
         (snd (writeUserFile "ada" "schedule.json" (JObj [("events", JArr [])]) emptyDisk)))
  = inr (JObj [("events", JArr [])]).
Proof.
  split; [reflexivity|]. split; [reflexivity|].
  exact (proj2 (proj1 (proj2 (write_then_read "2025-01-01T00:00:00.000Z" "ada"
                                "schedule.json" (JObj [("events", JArr [])]) emptyDisk
                                eq_refl)) eq_refl)).
Defined.

(** ** More routes *)

Lemma calculateAnalytics_run statistics now userId disk :
  exists analytics disk',
    calculateAnalytics statistics now userId disk = (inr analytics, disk') /\
    mkdirFault disk' = mkdirFault disk /\
    writeFault disk' = writeFault disk /\
    forall key, key <> (userId, "analytics.json") ->
      files disk' !! key = files disk !! key.
Proof.
  destruct (calculateAnalytics_returns statistics now userId disk) as [analytics Ha].
  destruct (calculateAnalytics_touchesOnly statistics now userId disk) as (Hm & Hw & Hf).
  destruct (calculateAnalytics statistics now userId disk) as [[e|a] disk'] eqn:Hrun;
    simpl in *; [discriminate|].
  exists a, disk'. auto.
Qed.

Lemma postTask_run statistics (userId : string) (taskData : jobject) (uuid now : string)
    (disk : Disk) (tasks : list json) :
  mkdirFault disk !! userId = None ->
  writeFault disk !! (userId, "tasks.json") = None ->
  storedArray disk userId "tasks.json" = Some tasks ->
  let newTask := newTaskEntry taskData uuid now in
  let disk' := snd (postTask statistics userId taskData uuid now disk) in
  fst (postTask statistics userId taskData uuid now disk)
  = respond 200 [("success", JBool true); ("task", JObj newTask)] /\
  storedArray disk' userId "tasks.json" = Some (tasks ++ [JObj newTask]) /\
  mkdirFault disk' = mkdirFault disk /\ writeFault disk' = writeFault disk.
Proof.
  intros Hdir Hwrite Hstored newTask disk'. unfold disk', postTask, route, bind.
  rewrite (readUserFile_stored now userId "tasks.json" disk tasks Hdir eq_refl Hstored).
  simpl. rewrite writeUserFile_run. simpl. rewrite Hdir, Hwrite.
  fold newTask. set (disk1 := mkDisk _ _ _ _).
  destruct (calculateAnalytics_run statistics now userId disk1)
    as (a & disk2 & -> & Hm & Hw & Hf).
  cbn [fst snd]. split; [reflexivity|]. split; [|split; [exact Hm|exact Hw]].
  rewrite (storedArray_files disk1 disk2) by (apply Hf; discriminate).
  apply storedArray_after_write.
Qed.

Lemma filterOtherIds_objects (taskId : string) (tasks : list jobject) :
  filterOtherIds taskId (map JObj tasks)
  = inr (map JObj (filter (fun t => negb (hasId taskId t)) tasks)).
Proof.
  induction tasks as [|t tasks IH]; [reflexivity|].
  cbn [map filterOtherIds filter]. rewrite idMatches_object, IH.
  destruct (hasId taskId t); reflexivity.
Qed.

Lemma filter_shorter {A : Type} (f : A -> bool) (l : list A) (x : A) :
  In x l -> f x = false -> (length (filter f l) < length l)%nat.
Proof.
  induction l as [|y l IH]; intros Hin Hx; [contradiction|].
  pose proof (filter_length_le f l) as Hle.
  simpl. destruct Hin as [->|Hin].
  - rewrite Hx. lia.
  - specialize (IH Hin Hx). destruct (f y); simpl; lia.
Qed.

Lemma deleteTask_run statistics (userId taskId now : string) (disk : Disk)
    (tasks : list jobject) (task : jobject) :
  mkdirFault disk !! userId = None ->
  writeFault disk !! (userId, "tasks.json") = None ->
  storedArray disk userId "tasks.json" = Some (map JObj tasks) ->
  In task tasks -> hasId taskId task = true ->
  let disk' := snd (deleteTask statistics userId taskId now disk) in
  fst (deleteTask statistics userId taskId now disk)
  = respond 200 [("success", JBool true)] /\
  storedArray disk' userId "tasks.json"
  = Some (map JObj (filter (fun t => negb (hasId taskId t)) tasks)) /\
  mkdirFault disk' = mkdirFault disk /\ writeFault disk' = writeFault disk.
Proof.
  intros Hdir Hwrite Hstored Hin Hid disk'. unfold disk', deleteTask, route, bind.
  rewrite (readUserFile_stored now userId "tasks.json" disk _ Hdir eq_refl Hstored).
  simpl. rewrite filterOtherIds_objects. simpl.
  assert (Hlen : (length (filter (fun t => negb (hasId taskId t)) tasks)
                  < length tasks)%nat).
  { apply (filter_shorter _ tasks task Hin). rewrite Hid. reflexivity. }
  rewrite !length_map.
  apply Nat.lt_neq, Nat.eqb_neq in Hlen.
  match goal with
  | |- context [Nat.eqb ?a ?b] => replace (Nat.eqb a b) with false by (symmetry; exact Hlen)
  end.
  rewrite writeUserFile_run. simpl. rewrite Hdir, Hwrite.
  set (disk1 := mkDisk _ _ _ _).
  destruct (calculateAnalytics_run statistics now userId disk1)
    as (a & disk2 & -> & Hm & Hw & Hf).
  cbn [fst snd]. split; [reflexivity|]. split; [|split; [exact Hm|exact Hw]].
  rewrite (storedArray_files disk1 disk2) by (apply Hf; discriminate).
  apply storedArray_after_write.
Qed.

(** X18. DELETE /api/tasks/:id for an id that is in the list answers with
    success and removes every task with this id, also when several have it;
    the other tasks stay, in their order.  A failure to store the analytics
    does not change this. *)
Theorem deleteTask_removes_every_match
    (statistics : json -> json -> string -> Exn + json)
    (userId taskId now : string) (disk : Disk) (tasks : list jobject) (task : jobject) :
  mkdirFault disk !! userId = None ->
  writeFault disk !! (userId, "tasks.json") = None ->
  storedArray disk userId "tasks.json" = Some (map JObj tasks) ->
  In task tasks -> hasId taskId task = true ->
  fst (deleteTask statistics userId taskId now disk)
  = respond 200 [("success", JBool true)] /\
  storedArray (snd (deleteTask statistics userId taskId now disk)) userId "tasks.json"
  = Some (map JObj (filter (fun t => negb (hasId taskId t)) tasks)).
Proof.
  intros Hdir Hwrite Hstored Hin Hid.
  destruct (deleteTask_run statistics userId taskId now disk tasks task
              Hdir Hwrite Hstored Hin Hid) as (Hres & Hnew & _).
  split; assumption.
Qed.

Lemma deleteTask_removes_every_match_witness :
  let first := [("id", JStr "7c9e"); ("title", JStr "Buy milk")] in
  let other := [("id", JStr "11aa"); ("title", JStr "Call Bob")] in
  let again := [("id", JStr "7c9e"); ("title", JStr "Buy bread")] in
  let disk := snd (writeUserFile "ada" "tasks.json"
                     (JArr (map JObj [first; other; again])) emptyDisk) in
  mkdirFault disk !! "ada" = None /\
  writeFault disk !! ("ada", "tasks.json") = None /\
  storedArray disk "ada" "tasks.json" = Some (map JObj [first; other; again]) /\
  In first [first; other; again] /\ hasId "7c9e" first = true /\
  storedArray (snd (deleteTask noStatistics "ada" "7c9e" "2025-01-02T00:00:00.000Z" disk))
    "ada" "tasks.json"
  = Some [JObj other].
Proof.
  intros first other again disk.
  assert (Hstored : storedArray disk "ada" "tasks.json"
                    = Some (map JObj [first; other; again]))
    by (vm_compute; reflexivity).
  split; [reflexivity|]. split; [reflexivity|]. split; [exact Hstored|].
  split; [left; reflexivity|]. split; [reflexivity|].
  exact (proj2 (deleteTask_removes_every_match noStatistics "ada" "7c9e"
                  "2025-01-02T00:00:00.000Z" disk [first; other; again] first
                  eq_refl eq_refl Hstored (or_introl eq_refl) eq_refl)).
Defined.

Lemma getField_absent (key : string) (o : jobject) :
  ~ In key (map fst o) -> getField key o = None.
Proof.
  induction o as [|[k v] o IH]; intros Hnot; [reflexivity|].
  simpl in *. destruct (String.eqb_spec key k) as [->|Hk]; [tauto|].
  apply IH. tauto.
Qed.

Lemma getField_spread_present (key : string) (v : json) (source : jobject) :
  NoDup (map fst source) ->
  forall target,
    getField key source = Some v -> getField key (spread target source) = Some v.
Proof.
  induction source as [|[k v0] source IH]; intros Hnodup target Hget; [discriminate|].
  simpl in Hnodup. inversion Hnodup as [|? ? Hnotin Hrest]; subst.
  change (getField key (spread (setField k v0 target) source) = Some v).
  cbn [getField] in Hget.
  destruct (String.eqb_spec key k) as [->|Hk].
  - injection Hget as ->.
    rewrite (getField_spread k (setField k v target) source (getField_absent k source Hnotin)).
    apply getField_setField_eq.
  - apply (IH Hrest). exact Hget.
Qed.

Lemma putTask_run statistics (userId taskId : string) (updates : jobject) (now : string)
    (disk : Disk) (tasks : list jobject) (task : jobject) :
  mkdirFault disk !! userId = None ->
  writeFault disk !! (userId, "tasks.json") = None ->
  storedArray disk userId "tasks.json" = Some (map JObj tasks) ->
  find (hasId taskId) tasks = Some task ->
  let disk' := snd (putTask statistics userId taskId updates now disk) in
  fst (putTask statistics userId taskId updates now disk)
  = respond 200 [("success", JBool true); ("task", JObj (spread task updates))] /\
  storedArray disk' userId "tasks.json"
  = Some (map JObj (assignFirst taskId updates tasks)) /\
  mkdirFault disk' = mkdirFault disk /\ writeFault disk' = writeFault disk.
Proof.
  intros Hdir Hwrite Hstored Hfind disk'. unfold disk', putTask, route, bind.
  destruct (findIndex_first taskId updates tasks task Hfind) as (i & Hi & Hnth & Hins).
  rewrite (readUserFile_stored now userId "tasks.json" disk _ Hdir eq_refl Hstored).
  simpl. rewrite Hi. simpl. rewrite Hnth, Hins, writeUserFile_run. simpl.
  rewrite Hdir, Hwrite.
  set (disk1 := mkDisk _ _ _ _).
  destruct (calculateAnalytics_run statistics now userId disk1)
    as (a & disk2 & -> & Hm & Hw & Hf).
  cbn [fst snd]. split; [reflexivity|]. split; [|split; [exact Hm|exact Hw]].
  rewrite (storedArray_files disk1 disk2) by (apply Hf; discriminate).
  apply storedArray_after_write.
Qed.

(** X19. PUT /api/tasks/:id changes the first task with this id and no
    other: the tasks before and after it, later tasks with the same id
    included, are stored as they were.  In the changed task every field of
    the request body has the body's value, the id and createdAt among them,
    and every other field keeps its value. *)
Theorem putTask_merges_first_match
    (statistics : json -> json -> string -> Exn + json)
    (userId taskId now : string) (updates : jobject) (disk : Disk)
    (pre post : list jobject) (task : jobject) :
  mkdirFault disk !! userId = None ->
  writeFault disk !! (userId, "tasks.json") = None ->
  storedArray disk userId "tasks.json" = Some (map JObj (pre ++ task :: post)) ->
  Forall (fun t => hasId taskId t = false) pre -> hasId taskId task = true ->
  NoDup (map fst updates) ->
  let merged := spread task updates in
  fst (putTask statistics userId taskId updates now disk)
  = respond 200 [("success", JBool true); ("task", JObj merged)] /\
  storedArray (snd (putTask statistics userId taskId updates now disk)) userId "tasks.json"
  = Some (map JObj (pre ++ merged :: post)) /\
  (forall key v, getField key updates = Some v -> getField key merged = Some v) /\
  (forall key, getField key updates = None -> getField key merged = getField key task).
Proof.
  intros Hdir Hwrite Hstored Hpre Hid Hnodup merged.
  destruct (assignFirst_split taskId updates pre post task Hpre Hid) as [Hfind Hassign].
  destruct (putTask_run statistics userId taskId updates now disk _ task
              Hdir Hwrite Hstored Hfind) as (Hres & Hnew & _).
  rewrite Hassign in Hnew.
  split; [exact Hres|]. split; [exact Hnew|]. split.
  - intros key v Hget. apply getField_spread_present; assumption.
  - intros key Hget. apply getField_spread. exact Hget.
Qed.

Lemma putTask_merges_first_match_witness :
  let first := [("id", JStr "7c9e"); ("title", JStr "Buy milk")] in
  let again := [("id", JStr "7c9e"); ("title", JStr "Buy bread")] in
  let updates := [("title", JStr "Buy oat milk")] in
  let disk := snd (writeUserFile "ada" "tasks.json"
                     (JArr (map JObj [first; again])) emptyDisk) in
  mkdirFault disk !! "ada" = None /\
  writeFault disk !! ("ada", "tasks.json") = None /\
  storedArray disk "ada" "tasks.json" = Some (map JObj ([] ++ first :: [again])) /\
  Forall (fun t => hasId "7c9e" t = false) [] /\ hasId "7c9e" first = true /\
  NoDup (map fst updates) /\
  storedArray (snd (putTask noStatistics "ada" "7c9e" updates
                      "2025-01-02T00:00:00.000Z" disk)) "ada" "tasks.json"
  = Some [JObj [("id", JStr "7c9e"); ("title", JStr "Buy oat milk")]; JObj again].
Proof.
  intros first again updates disk.
  assert (Hstored : storedArray disk "ada" "tasks.json"
                    = Some (map JObj ([] ++ first :: [again])))
    by (vm_compute; reflexivity).
  assert (Hnodup : NoDup (map fst updates))
    by (constructor; [intros []|constructor]).
  split; [reflexivity|]. split; [reflexivity|]. split; [exact Hstored|].
  split; [constructor|]. split; [reflexivity|]. split; [exact Hnodup|].
  exact (proj1 (proj2 (putTask_merges_first_match noStatistics "ada" "7c9e"
                         "2025-01-02T00:00:00.000Z" updates disk [] [again] first
                         eq_refl eq_refl Hstored (Forall_nil _) eq_refl Hnodup))).
Defined.

Lemma hasId_newTaskEntry (taskData : jobject) (uuid now : string) :
  getField "id" taskData = None ->
  hasId uuid (newTaskEntry taskData uuid now) = true.
Proof.
  intros Hnone. unfold hasId, newTaskEntry.
  rewrite !getField_setField_ne by discriminate.
  rewrite getField_spread by exact Hnone. simpl. apply String.eqb_refl.
Qed.

(** X20. Creating a task and then deleting it under the id the server gave it
    leaves the stored task list exactly as it was before, provided the
    payload brings no id of its own and no stored task has that id. *)
Theorem postTask_then_deleteTask
    (statistics : json -> json -> string -> Exn + json)
    (userId : string) (taskData : jobject) (uuid now later : string)
    (disk : Disk) (tasks : list jobject) :
  mkdirFault disk !! userId = None ->
  writeFault disk !! (userId, "tasks.json") = None ->
  storedArray disk userId "tasks.json" = Some (map JObj tasks) ->
  getField "id" taskData = None ->
  Forall (fun t => hasId uuid t = false) tasks ->
  let disk1 := snd (postTask statistics userId taskData uuid now disk) in
  fst (deleteTask statistics userId uuid later disk1)
  = respond 200 [("success", JBool true)] /\
  storedArray (snd (deleteTask statistics userId uuid later disk1)) userId "tasks.json"
  = Some (map JObj tasks).
Proof.
  intros Hdir Hwrite Hstored Hnoid Hfresh disk1.
  destruct (postTask_run statistics userId taskData uuid now disk _
              Hdir Hwrite Hstored) as (_ & Hstored1 & Hm & Hw).
  fold disk1 in Hstored1, Hm, Hw.
  set (newTask := newTaskEntry taskData uuid now) in *.
  assert (Hstored1' : storedArray disk1 userId "tasks.json"
                      = Some (map JObj (tasks ++ [newTask])))
    by (rewrite map_app; exact Hstored1).
  assert (Hid : hasId uuid newTask = true) by (apply hasId_newTaskEntry; exact Hnoid).
  destruct (deleteTask_run statistics userId uuid later disk1 (tasks ++ [newTask]) newTask)
    as (Hres & Hnew & _).
  - rewrite Hm. exact Hdir.
  - rewrite Hw. exact Hwrite.
  - exact Hstored1'.
  - apply in_or_app. right. left. reflexivity.
  - exact Hid.
  - split; [exact Hres|]. rewrite Hnew. f_equal. f_equal.
    rewrite filter_app. cbn [filter]. rewrite Hid. cbn [negb]. rewrite app_nil_r.
    apply filter_all. rewrite Forall_forall in Hfresh.
    intros x Hx. rewrite (Hfresh x Hx). reflexivity.
Qed.

Lemma postTask_then_deleteTask_witness :
  let disk := snd (postTask noStatistics "ada" [("title", JStr "Buy milk")]
                     "7c9e" "2025-01-01T00:00:00.000Z" emptyDisk) in
  let tasks := [newTaskEntry [("title", JStr "Buy milk")] "7c9e"
                  "2025-01-01T00:00:00.000Z"] in
  let payload := [("title", JStr "Call Bob")] in
  mkdirFault disk !! "ada" = None /\
  writeFault disk !! ("ada", "tasks.json") = None /\
  storedArray disk "ada" "tasks.json" = Some (map JObj tasks) /\
  getField "id" payload = None /\
  Forall (fun t => hasId "11aa" t = false) tasks /\
  storedArray
    (snd (deleteTask noStatistics "ada" "11aa" "2025-01-03T00:00:00.000Z"
            (snd (postTask noStatistics "ada" payload "11aa"
                    "2025-01-02T00:00:00.000Z" disk))))
    "ada" "tasks.json"
  = Some (map JObj tasks).
Proof.
  intros disk tasks payload.
  assert (Hstored : storedArray disk "ada" "tasks.json" = Some (map JObj tasks))
    by (vm_compute; reflexivity).
  assert (Hfresh : Forall (fun t => hasId "11aa" t = false) tasks)
    by (constructor; [reflexivity|constructor]).
  split; [reflexivity|]. split; [reflexivity|]. split; [exact Hstored|].
  split; [reflexivity|]. split; [exact Hfresh|].
  exact (proj2 (postTask_then_deleteTask noStatistics "ada" payload "11aa"
                  "2025-01-02T00:00:00.000Z" "2025-01-03T00:00:00.000Z" disk tasks
                  eq_refl eq_refl Hstored eq_refl Hfresh)).
Defined.

(** X21. POST /api/tasks stores every field of the payload as it was sent,
    except completed and createdAt; this includes id, so a payload with an id
    gets that id and not the one the server generates. *)
Theorem postTask_keeps_payload_fields
    (taskData : jobject) (uuid now : string) :
  NoDup (map fst taskData) ->
  let newTask := newTaskEntry taskData uuid now in
  (forall key v, key <> "completed" -> key <> "createdAt" ->
     getField key taskData = Some v -> getField key newTask = Some v) /\
  (getField "id" taskData = None -> getField "id" newTask = Some (JStr uuid)).
Proof.
  intros Hnodup newTask. unfold newTask, newTaskEntry. split.
  - intros key v H1 H2 Hget.
    rewrite !getField_setField_ne by assumption.
    apply getField_spread_present; assumption.
  - intros Hnone. rewrite !getField_setField_ne by discriminate.
    rewrite getField_spread by exact Hnone. reflexivity.
Qed.

Lemma postTask_keeps_payload_fields_witness :
  let payload := [("id", JStr "mine"); ("title", JStr "Buy milk")] in
  NoDup (map fst payload) /\
  getField "id" (newTaskEntry payload "7c9e" "2025-01-01T00:00:00.000Z")
  = Some (JStr "mine").
Proof.
  intros payload.
  assert (Hnodup : NoDup (map fst payload)).
  { constructor; [intros [H|[]]; discriminate H|].
    constructor; [intros []|constructor]. }
  split; [exact Hnodup|].
  exact (proj1 (postTask_keeps_payload_fields payload "7c9e"
                  "2025-01-01T00:00:00.000Z" Hnodup)
           "id" (JStr "mine") ltac:(discriminate) ltac:(discriminate) eq_refl).
Defined.

Lemma read_after_write (now userId filename : string) (data : json) (disk : Disk) :
  mkdirFault disk !! userId = None ->
  writeFault disk !! (userId, filename) = None ->
  exists disk1 disk2,
    writeUserFile userId filename data disk = (inr true, disk1) /\
    readUserFile now userId filename disk1 = (inr data, disk2) /\
    files disk1 = <[ (userId, filename) := Text (Json data) ]> (files disk) /\
    files disk2 = files disk1 /\
    mkdirFault disk1 = mkdirFault disk /\ writeFault disk1 = writeFault disk.
Proof.
  intros Hdir Hwrite. rewrite writeUserFile_run, Hdir, Hwrite.
  eexists. eexists. split; [reflexivity|].
  rewrite readUserFile_run. cbn [mkdirFault files]. rewrite Hdir, lookup_insert_eq.
  repeat split; reflexivity.
Qed.

(** X22. Saving preferences or a schedule replaces the whole document: the
    next GET returns exactly the body that was posted, with nothing of the
    document stored before, defaults included. *)
Theorem post_then_get_returns_body
    (userId now : string) (document : json) (disk : Disk) :
  mkdirFault disk !! userId = None ->
  (writeFault disk !! (userId, "preferences.json") = None ->
   fst (postPreferences userId document disk)
   = respond 200 [("success", JBool true); ("preferences", document)] /\
   fst (getPreferences userId now (snd (postPreferences userId document disk)))
   = mkResponse 200 document) /\
  (writeFault disk !! (userId, "schedule.json") = None ->
   fst (postSchedule userId document disk)
   = respond 200 [("success", JBool true); ("schedule", document)] /\
   fst (getSchedule userId now (snd (postSchedule userId document disk)))
   = mkResponse 200 document).
Proof.
  intros Hdir. split; intros Hwrite.
  - destruct (read_after_write now userId "preferences.json" document disk Hdir Hwrite)
      as (disk1 & disk2 & Hw & Hr & _).
    unfold postPreferences, getPreferences, route, bind. rewrite Hw. cbn [fst snd ret].
    rewrite Hr. split; reflexivity.
  - destruct (read_after_write now userId "schedule.json" document disk Hdir Hwrite)
      as (disk1 & disk2 & Hw & Hr & _).
    unfold postSchedule, getSchedule, route, bind. rewrite Hw. cbn [fst snd ret].
    rewrite Hr. split; reflexivity.
Qed.

Lemma post_then_get_returns_body_witness :
  let document := JObj [("focusBlockLength", JNum 25%Q)] in
  mkdirFault emptyDisk !! "ada" = None /\
  writeFault emptyDisk !! ("ada", "preferences.json") = None /\
  fst (getPreferences "ada" "2025-01-01T00:00:00.000Z"
         (snd (postPreferences "ada" document emptyDisk)))
  = mkResponse 200 document.
Proof.
  intros document. split; [reflexivity|]. split; [reflexivity|].
  exact (proj2 (proj1 (post_then_get_returns_body "ada" "2025-01-01T00:00:00.000Z"
                         document emptyDisk eq_refl) eq_refl)).
Defined.

(** X23. After DELETE /api/ai/chats the chat log is empty, however long it
    was and whatever the file held: the next GET returns no chat, and the
    next chat saved is the only one in the log. *)
Theorem deleteChats_empties_log
    (userId now : string) (reqBody : jobject) (uuid : string) (disk : Disk) :
  mkdirFault disk !! userId = None ->
  writeFault disk !! (userId, "aichat.json") = None ->
  let cleared := snd (deleteChats userId disk) in
  fst (deleteChats userId disk) = respond 200 [("success", JBool true)] /\
  fst (getChats userId now cleared)
  = respond 200 [("success", JBool true); ("chats", JArr [])] /\
  storedArray (snd (postChat userId reqBody uuid now cleared)) userId "aichat.json"
  = Some [JObj (newChatEntry reqBody uuid now)].
Proof.
  intros Hdir Hwrite cleared.
  destruct (read_after_write now userId "aichat.json" (JArr []) disk Hdir Hwrite)
    as (disk1 & disk2 & Hw & Hr & Hfiles & _ & Hm & Hwf).
  assert (Hcleared : cleared = disk1).
  { unfold cleared, deleteChats, route, bind. rewrite Hw. reflexivity. }
  split; [unfold deleteChats, route, bind; rewrite Hw; reflexivity|].
  rewrite Hcleared. split.
  - unfold getChats, route, bind. rewrite Hr. reflexivity.
  - assert (Hstored : storedArray disk1 userId "aichat.json" = Some []).
    { unfold storedArray. rewrite Hfiles, lookup_insert_eq. reflexivity. }
    destruct (postChat_run userId reqBody uuid now disk1 []) as (_ & Hnew & _).
    + rewrite Hm. exact Hdir.
    + rewrite Hwf. exact Hwrite.
    + exact Hstored.
    + rewrite Hnew. reflexivity.
Qed.

Lemma deleteChats_empties_log_witness :
  let disk := snd (postChat "ada" [("message", JStr "hi"); ("response", JStr "hello")]
                     "c1" "2025-01-01T00:00:00.000Z" emptyDisk) in
  mkdirFault disk !! "ada" = None /\
  writeFault disk !! ("ada", "aichat.json") = None /\
  fst (getChats "ada" "2025-01-02T00:00:00.000Z" (snd (deleteChats "ada" disk)))
  = respond 200 [("success", JBool true); ("chats", JArr [])].
Proof.
  intros disk. split; [reflexivity|]. split; [reflexivity|].
  exact (proj1 (proj2 (deleteChats_empties_log "ada" "2025-01-02T00:00:00.000Z"
                         [] "c2" disk eq_refl eq_refl))).
Defined.

(** X24. GET /api/analytics never answers with an error: whatever the state
    of the user's files, the answer is 200, and no file other than
    analytics.json is changed.  When the task file cannot be parsed the
    answer is the default analytics document and nothing is written. *)
Theorem getAnalytics_never_fails
    (statistics : json -> json -> string -> Exn + json)
    (userId now : string) (disk : Disk) :
  status (fst (getAnalytics statistics userId now disk)) = 200%Z /\
  (forall key, key <> (userId, "analytics.json") ->
     files (snd (getAnalytics statistics userId now disk)) !! key = files disk !! key) /\
  (mkdirFault disk !! userId = None ->
   files disk !! (userId, "tasks.json") = Some (Text Malformed) ->
   body (fst (getAnalytics statistics userId now disk))
   = getDefaultData now "analytics.json" /\
   files (snd (getAnalytics statistics userId now disk)) = files disk).
Proof.
  unfold getAnalytics, route, bind.
  destruct (calculateAnalytics_run statistics now userId disk)
    as (a & disk' & Hrun & _ & _ & Hf).
  split; [rewrite Hrun; reflexivity|]. split; [rewrite Hrun; exact Hf|].
  intros Hdir Hfile. clear Hrun Hf.
  unfold calculateAnalytics, tryCatch, bind.
  rewrite readUserFile_run, Hdir, Hfile. split; reflexivity.
Qed.

Lemma getAnalytics_never_fails_witness :
  let disk := mkDisk {[ ("ada", "tasks.json") := Text Malformed ]} ∅ ∅ ∅ in
  mkdirFault disk !! "ada" = None /\
  files disk !! ("ada", "tasks.json") = Some (Text Malformed) /\
  fst (getAnalytics noStatistics "ada" "2025-01-01T00:00:00.000Z" disk)
  = mkResponse 200 (getDefaultData "2025-01-01T00:00:00.000Z" "analytics.json").
Proof.
  intros disk.
  pose proof (getAnalytics_never_fails noStatistics "ada" "2025-01-01T00:00:00.000Z" disk)
    as (Hstatus & _ & Hdefault).
  destruct (Hdefault eq_refl eq_refl) as [Hbody _].
  split; [reflexivity|]. split; [reflexivity|].
  destruct (fst (getAnalytics noStatistics "ada" "2025-01-01T00:00:00.000Z" disk))
    as [code document].
  cbn [status body] in Hstatus, Hbody. rewrite Hstatus, Hbody. reflexivity.
Defined.

(** X25. GET /api/tasks never creates or changes a file: for a user who has
    no task file yet it answers with the empty list, and the next read still
    finds no file. *)
Theorem getTasks_creates_no_file (userId now : string) (disk : Disk) :
  files (snd (getTasks userId now disk)) = files disk /\
  (mkdirFault disk !! userId = None -> files disk !! (userId, "tasks.json") = None ->
   fst (getTasks userId now disk)
   = respond 200 [("success", JBool true); ("tasks", JArr [])]) /\
  (forall tasks, mkdirFault disk !! userId = None ->
   storedArray disk userId "tasks.json" = Some tasks ->
   fst (getTasks userId now disk)
   = respond 200 [("success", JBool true); ("tasks", JArr tasks)]).
Proof.
  split; [|split].
  - destruct (readUserFile_readsOnly now userId "tasks.json" disk) as (_ & _ & Hfiles).
    unfold getTasks, route, bind.
    destruct (readUserFile now userId "tasks.json" disk) as [[e|doc] disk'];
      exact Hfiles.
  - intros Hdir Hfile. unfold getTasks, route, bind.
    rewrite readUserFile_run, Hdir, Hfile. reflexivity.
  - intros tasks Hdir Hstored. unfold getTasks, route, bind.
    rewrite (readUserFile_stored now userId "tasks.json" disk tasks Hdir eq_refl Hstored).
    reflexivity.
Qed.

Lemma getTasks_creates_no_file_witness :
  mkdirFault emptyDisk !! "ada" = None /\
  files emptyDisk !! ("ada", "tasks.json") = None /\
  fst (getTasks "ada" "2025-01-01T00:00:00.000Z" emptyDisk)
  = respond 200 [("success", JBool true); ("tasks", JArr [])].
Proof.
  split; [reflexivity|]. split; [reflexivity|].
  exact (proj1 (proj2 (getTasks_creates_no_file "ada" "2025-01-01T00:00:00.000Z"
                         emptyDisk)) eq_refl eq_refl).
Defined.

(** X26. When the task file holds text that is not JSON, or JSON that is not
    an array, or cannot be read, creating, updating and deleting a task all
    answer 500 with their own message and change no file. *)
Theorem task_routes_fail_on_broken_file
    (statistics : json -> json -> string -> Exn + json)
    (userId taskId uuid now : string) (payload : jobject) (disk : Disk) (entry : Entry) :
  mkdirFault disk !! userId = None ->
  files disk !! (userId, "tasks.json") = Some entry ->
  entry = Text Malformed
  \/ (exists doc, entry = Text (Json doc) /\ asArray doc = inl TypeError)
  \/ (exists code, entry = Unreadable code /\ code <> "ENOENT") ->
  (fst (postTask statistics userId payload uuid now disk)
   = respond 500 [("error", JStr "Failed to add task")] /\
   files (snd (postTask statistics userId payload uuid now disk)) = files disk) /\
  (fst (putTask statistics userId taskId payload now disk)
   = respond 500 [("error", JStr "Failed to update task")] /\
   files (snd (putTask statistics userId taskId payload now disk)) = files disk) /\
  (fst (deleteTask statistics userId taskId now disk)
   = respond 500 [("error", JStr "Failed to delete task")] /\
   files (snd (deleteTask statistics userId taskId now disk)) = files disk).
Proof.
  intros Hdir Hfile Hentry.
  unfold postTask, putTask, deleteTask, route, bind.
  rewrite readUserFile_run, Hdir, Hfile.
  destruct Hentry as [-> | [(doc & -> & Hdoc) | (code & -> & Hcode)]].
  - repeat split; reflexivity.
  - cbn [liftExn]. rewrite Hdoc. repeat split; reflexivity.
  - destruct (String.eqb_spec code "ENOENT"); [contradiction|].
    repeat split; reflexivity.
Qed.

Lemma task_routes_fail_on_broken_file_witness :
  let entry := Text (Json (JObj [("tasks", JArr [])])) in
  let disk := mkDisk {[ ("ada", "tasks.json") := entry ]} ∅ ∅ ∅ in
  mkdirFault disk !! "ada" = None /\
  files disk !! ("ada", "tasks.json") = Some entry /\
  fst (postTask noStatistics "ada" [("title", JStr "Buy milk")] "7c9e"
         "2025-01-01T00:00:00.000Z" disk)
  = respond 500 [("error", JStr "Failed to add task")].
Proof.
  intros entry disk. split; [reflexivity|]. split; [reflexivity|].
  refine (proj1 (proj1 (task_routes_fail_on_broken_file noStatistics "ada" "7c9e" "7c9e"
                          "2025-01-01T00:00:00.000Z" [("title", JStr "Buy milk")]
                          disk entry eq_refl eq_refl _))).
  right. left. eexists. split; reflexivity.
Defined.

(** X27. When the task file cannot be written, creating a task and deleting
    or updating a stored one answer 500 and change no other file.  When the
    write fails on opening the file, the task file is as it was too; when it
    fails while writing, the task file holds what reached it and the stored
    list is lost. *)
Theorem task_write_failure_answers_500
    (statistics : json -> json -> string -> Exn + json)
    (userId taskId uuid now : string) (fault : WriteFault) (payload : jobject)
    (disk : Disk) (tasks : list jobject) (task : jobject) :
  mkdirFault disk !! userId = None ->
  writeFault disk !! (userId, "tasks.json") = Some fault ->
  storedArray disk userId "tasks.json" = Some (map JObj tasks) ->
  (fst (postTask statistics userId payload uuid now disk)
   = respond 500 [("error", JStr "Failed to add task")] /\
   afterFailedWrite fault (userId, "tasks.json") disk
     (snd (postTask statistics userId payload uuid now disk))) /\
  (find (hasId taskId) tasks = Some task ->
   (fst (putTask statistics userId taskId payload now disk)
    = respond 500 [("error", JStr "Failed to update task")] /\
    afterFailedWrite fault (userId, "tasks.json") disk
      (snd (putTask statistics userId taskId payload now disk))) /\
   (fst (deleteTask statistics userId taskId now disk)
    = respond 500 [("error", JStr "Failed to delete task")] /\
    afterFailedWrite fault (userId, "tasks.json") disk
      (snd (deleteTask statistics userId taskId now disk)))).
Proof.
  intros Hdir Hwrite Hstored.
  assert (Hfail : forall data,
            exists code disk',
              writeUserFile userId "tasks.json" data (withDirectory userId disk)
              = (inl (SystemError code), disk') /\
              afterFailedWrite fault (userId, "tasks.json") disk disk').
  { intros data. rewrite writeUserFile_run. cbn [mkdirFault writeFault withDirectory files].
    rewrite Hdir, Hwrite. destruct fault as [code|code reached].
    - exists code. eexists. split; [reflexivity|]. split; [|reflexivity].
      intros other _. reflexivity.
    - exists code. eexists. split; [reflexivity|]. cbn [files]. split.
      + intros other Hother. apply lookup_insert_ne. congruence.
      + apply lookup_insert_eq. }
  split.
  - unfold postTask, route, bind.
    rewrite (readUserFile_stored now userId "tasks.json" disk _ Hdir eq_refl Hstored).
    cbn [liftExn asArray ret].
    destruct (Hfail (JArr (map JObj tasks ++ [JObj (newTaskEntry payload uuid now)])))
      as (code & disk' & -> & Hleft).
    split; [reflexivity|exact Hleft].
  - intros Hfind. split.
    + unfold putTask, route, bind.
      destruct (findIndex_first taskId payload tasks task Hfind) as (i & Hi & Hnth & Hins).
      rewrite (readUserFile_stored now userId "tasks.json" disk _ Hdir eq_refl Hstored).
      cbn [liftExn asArray ret]. rewrite Hi. cbn [liftExn ret].
      destruct (Hfail (JArr (<[ i := mergeTask (nth i (map JObj tasks) JNull) payload ]>
                               (map JObj tasks))))
        as (code & disk' & -> & Hleft).
      split; [reflexivity|exact Hleft].
    + unfold deleteTask, route, bind.
      rewrite (readUserFile_stored now userId "tasks.json" disk _ Hdir eq_refl Hstored).
      cbn [liftExn asArray ret]. rewrite filterOtherIds_objects. cbn [liftExn ret].
      assert (Hlen : (length (filter (fun t => negb (hasId taskId t)) tasks)
                      < length tasks)%nat).
      { apply find_some in Hfind as [Hin Hid].
        apply (filter_shorter _ tasks task Hin). rewrite Hid. reflexivity. }
      rewrite !length_map. apply Nat.lt_neq, Nat.eqb_neq in Hlen.
      match goal with
      | |- context [Nat.eqb ?a ?b] =>
          replace (Nat.eqb a b) with false by (symmetry; exact Hlen)
      end.
      destruct (Hfail (JArr (map JObj (filter (fun t => negb (hasId taskId t)) tasks))))
        as (code & disk' & -> & Hleft).
      split; [reflexivity|exact Hleft].
Qed.

Lemma task_write_failure_answers_500_witness :
  let stored := [JObj [("id", JStr "7c9e"); ("title", JStr "Buy milk")]] in
  let disk := mkDisk {[ ("ada", "tasks.json") := Text (Json (JArr stored)) ]} ∅ ∅
                {[ ("ada", "tasks.json") := FailsWhileWriting "ENOSPC" Malformed ]} in
  let after := snd (postTask noStatistics "ada" [("title", JStr "Call Bob")] "11aa"
                      "2025-01-01T00:00:00.000Z" disk) in
  mkdirFault disk !! "ada" = None /\
  writeFault disk !! ("ada", "tasks.json") = Some (FailsWhileWriting "ENOSPC" Malformed) /\
  storedArray disk "ada" "tasks.json"
  = Some (map JObj [[("id", JStr "7c9e"); ("title", JStr "Buy milk")]]) /\
  fst (postTask noStatistics "ada" [("title", JStr "Call Bob")] "11aa"
         "2025-01-01T00:00:00.000Z" disk)
  = respond 500 [("error", JStr "Failed to add task")] /\
  files after !! ("ada", "tasks.json") = Some (Text Malformed).
Proof.
  intros stored disk after.
  pose proof (proj1 (task_write_failure_answers_500 noStatistics "ada" "7c9e" "11aa"
                       "2025-01-01T00:00:00.000Z" (FailsWhileWriting "ENOSPC" Malformed)
                       [("title", JStr "Call Bob")] disk
                       [[("id", JStr "7c9e"); ("title", JStr "Buy milk")]] []
                       eq_refl eq_refl eq_refl)) as [Hres [_ Hleft]].
  split; [reflexivity|]. split; [reflexivity|]. split; [reflexivity|].
  split; [exact Hres|exact Hleft].
Defined.

(** ** The task list of the dashboard and the store *)

Lemma newTaskEntry_coherent (taskData : jobject) (uuid now : string) :
  getField "completedAt" taskData = None ->
  completionCoherent (newTaskEntry taskData uuid now).
Proof.
  intros Hnone. unfold completionCoherent, newTaskEntry.
  rewrite !getField_setField_ne by discriminate.
  rewrite getField_setField_eq, getField_spread by exact Hnone.
  reflexivity.
Qed.

(** X28. Adding a task through the form keeps the dashboard's list equal to
    the stored list: without a title nothing is sent or changed; otherwise
    the task the server stored is appended to both.  A form payload carries
    no completedAt, so lists that were coherent stay coherent. *)
Theorem handleSubmit_keeps_list_in_step
    (statistics : json -> json -> string -> Exn + json)
    (userId : string) (tasks : list jobject) (taskData : jobject)
    (uuid now : string) (disk : Disk) :
  mkdirFault disk !! userId = None ->
  writeFault disk !! (userId, "tasks.json") = None ->
  storedArray disk userId "tasks.json" = Some (map JObj tasks) ->
  let result := TaskManager.handleSubmit statistics userId tasks taskData uuid now disk in
  storedArray (snd result) userId "tasks.json" = Some (map JObj (fst result)) /\
  (truthy (getField "title" taskData) = false -> result = (tasks, disk)) /\
  (truthy (getField "title" taskData) = true ->
   fst result = tasks ++ [newTaskEntry taskData uuid now]) /\
  (getField "completedAt" taskData = None ->
   Forall completionCoherent tasks -> Forall completionCoherent (fst result)).
Proof.
  intros Hdir Hwrite Hstored result. unfold result, TaskManager.handleSubmit.
  destruct (truthy (getField "title" taskData)); cbn [negb].
  - destruct (postTask_run statistics userId taskData uuid now disk _
                Hdir Hwrite Hstored) as (Hres & Hnew & _).
    destruct (postTask statistics userId taskData uuid now disk) as [res disk'].
    cbn [fst snd] in *. subst res. cbn.
    split; [rewrite map_app; exact Hnew|]. split; [discriminate|].
    split; [reflexivity|].
    intros Hnone Hall. apply Forall_app. split; [exact Hall|].
    constructor; [apply newTaskEntry_coherent; exact Hnone|constructor].
  - cbn [fst snd]. split; [exact Hstored|]. split; [reflexivity|].
    split; [discriminate|]. intros _ Hall. exact Hall.
Qed.

Lemma handleSubmit_keeps_list_in_step_witness :
  let payload := [("title", JStr "Buy milk"); ("priority", JStr "high")] in
  mkdirFault emptyDisk !! "ada" = None /\
  writeFault emptyDisk !! ("ada", "tasks.json") = None /\
  storedArray emptyDisk "ada" "tasks.json" = Some (map JObj []) /\
  truthy (getField "title" payload) = true /\
  fst (TaskManager.handleSubmit noStatistics "ada" [] payload "7c9e"
         "2025-01-01T00:00:00.000Z" emptyDisk)
  = [] ++ [newTaskEntry payload "7c9e" "2025-01-01T00:00:00.000Z"].
Proof.
  intros payload.
  split; [reflexivity|]. split; [reflexivity|]. split; [reflexivity|].
  split; [reflexivity|].
  exact (proj1 (proj2 (proj2
           (handleSubmit_keeps_list_in_step noStatistics "ada" [] payload "7c9e"
              "2025-01-01T00:00:00.000Z" emptyDisk eq_refl eq_refl eq_refl))) eq_refl).
Defined.



(** ** Utils.getTimeAgo *)

(** X30. getTimeAgo shows whole minutes below an hour, whole hours below a
    day and whole days from then on, each rounded down from the exact
    distance in milliseconds; anything closer than a minute, a time stamp in
    the future included, is shown as "Just now". *)
Theorem getTimeAgo_buckets (now past : Z) :
  let distance := (now - past)%Z in
  ((distance < 60000)%Z -> getTimeAgo now past = "Just now") /\
  ((60000 <= distance < 3600000)%Z ->
   getTimeAgo now past = pretty (distance / 60000)%Z +:+ " minutes ago") /\
  ((3600000 <= distance < 86400000)%Z ->
   getTimeAgo now past = pretty (distance / 3600000)%Z +:+ " hours ago") /\
  ((86400000 <= distance)%Z ->
   getTimeAgo now past = pretty (distance / 86400000)%Z +:+ " days ago").
Proof.
  intros distance. unfold getTimeAgo. fold distance.
  change (1000 * 60)%Z with 60000%Z.
  assert (Hh : (distance / 60000 / 60 = distance / 3600000)%Z)
    by (rewrite Z.div_div by lia; reflexivity).
  assert (Hd : (distance / 60000 / 60 / 24 = distance / 86400000)%Z)
    by (rewrite !Z.div_div by lia; reflexivity).
  pose proof (Z.div_lt_upper_bound distance 60000 1 ltac:(lia)) as Hm1.
  pose proof (Z.div_le_lower_bound distance 60000 1 ltac:(lia)) as Hm2.
  pose proof (Z.div_lt_upper_bound distance 60000 60 ltac:(lia)) as Hm3.
  pose proof (Z.div_le_lower_bound distance 60000 60 ltac:(lia)) as Hm4.
  pose proof (Z.div_lt_upper_bound distance 3600000 24 ltac:(lia)) as Hh1.
  pose proof (Z.div_le_lower_bound distance 3600000 24 ltac:(lia)) as Hh2.
  rewrite Hd, Hh.
  destruct (Z.ltb_spec (distance / 60000) 1), (Z.ltb_spec (distance / 60000) 60),
    (Z.ltb_spec (distance / 3600000) 24);
    repeat split; intros; try reflexivity; lia.
Qed.

Lemma getTimeAgo_buckets_witness :
  (3600000 <= 7500000 - 0 < 86400000)%Z /\
  getTimeAgo 7500000 0 = "2 hours ago".
Proof.
  split; [lia|].
  exact (proj1 (proj2 (proj2 (getTimeAgo_buckets 7500000 0))) ltac:(lia)).
Defined.
